(** * Sphere AI Clone: the continuous audio-chunking service

    A shallow embedding of [BackendService] (src/services/backend.ts, in
    its continuous-recording revision) and of the one caller of
    [healthCheck] (src/components/Sidebar.tsx).
    The start of a session, the callbacks of the recognizer and the
    transcription polling follow, then the simulated chat and the call
    timer of the sidebar, and the first revision of the service, which
    uploads every fragment on its own.

    The service is a single JavaScript object whose fields are mutated by
    event handlers.  Every handler runs to completion on the event loop,
    so a handler is a state transformer on the object's fields that also
    produces an ordered list of observable effects (console output, calls
    into the browser, network requests).  An [await] on a network request
    splits an async function in two handlers: the part that issues the
    request and the continuation that receives its outcome. *)

From Stdlib Require Import List String Ascii Bool ZArith Lia.
From Stdlib Require Import Init.Byte.
From Stdlib Require DecimalString DecimalZ.
Import ListNotations.
Local Open Scope string_scope.
Local Open Scope list_scope.
Local Open Scope Z_scope.

Set Implicit Arguments.

(** ** Data *)

(** A [Blob] is its byte content; [blob.size] is the length and
    [new Blob(parts)] the concatenation of the parts, in order. *)
Definition Blob := list byte.

Definition size (b : Blob) : Z := Z.of_nat (List.length b).

Definition new_Blob (parts : list Blob) : Blob := List.concat parts.

(** [array.length] *)
Definition len {A} (l : list A) : Z := Z.of_nat (List.length l).

(** JavaScript truthiness of a [string | null]: [null] and the empty
    string are falsy. *)
Definition truthy (o : option string) : bool :=
  match o with
  | None => false
  | Some s => negb (String.eqb s EmptyString)
  end.

(** One entry of [event.results]: [result.isFinal] and
    [result[0].transcript]. *)
Record SpeechRecognitionResult := {
  isFinal : bool;
  transcript : string
}.

(** The body of the POST to [/recording/chunk].  [audio_data] is the
    base64 text of the blob read by the [FileReader]; the encoding is
    injective on byte strings, so the field is kept as the blob it
    encodes. *)
Record ChunkBody := {
  recording_id : option string;
  audio_data : Blob;
  detected_speech : string;
  chunk_count : Z
}.

Inductive Endpoint :=
| RecordingChunk
| RecordingStop
| Health.

Inductive Body :=
| ChunkB (b : ChunkBody)
| StopB (id : option string)
| NoBody.

(** [RecordingResponse], with the fields the service reads. *)
Record RecordingResponse := {
  success : bool;
  resp_recording_id : option string;
  transcription : option (list string)
}.

(** Messages written to the console, one constructor per call site. *)
Inductive Msg :=
| NoAccumulatedAudio                       (* 'No accumulated audio to send' *)
| SendingAccumulated (n : Z) (trigger : string)
| UploadingAccumulated
| AccumulatedUploaded
| FailedToUploadAccumulated                (* console.error *)
| ErrorSendingAccumulated                  (* console.error *)
| ApiRequestFailed (e : Endpoint)          (* console.error, makeRequest *)
| ProcessingQueued (n : Z)
| PhraseTimeoutMsg (elapsed : Z)
| IdleTimeoutMsg (elapsed : Z)
| ErrorInContinuousProcessing              (* console.error *)
| ContinuousProcessingStopped
| StoppedTranscriptionPolling
| AudioDataAvailable (sz : Z)
| AddedToQueue (n : Z)
| FinalSpeechDetected (t : string)
| StoppingRecording
| SpeechRecognitionStopped
| SpeechRecognitionAlreadyStopped
| SendingFinalAccumulated
| MediaRecorderStopped
| AudioTrackStopped
| SendingStopRequest
| BackendStopResponse
| FinalTranscription
| FailedToStopRecording.                   (* console.error *)

Inductive Timer := ProcessingInterval | TranscriptionInterval.

(** What a handler does to the world outside the object, in program
    order. *)
Inductive Effect :=
| Console (m : Msg)
| ClearInterval (t : Timer)
| SpeechStop                               (* speechRecognition.stop() *)
| RecorderStop                             (* mediaRecorder.stop() *)
| TrackStop                                (* track.stop() *)
| ReadAsDataURL (combinedBlob : Blob) (trigger : string)
| Fetch (e : Endpoint) (b : Body).

Inductive Exn :=
| NoActiveRecording                        (* new Error('No active recording') *)
| HttpError                                (* fetch rejected or !response.ok *)
| DomException                             (* thrown by a browser object *)
| TypeError.

(** The [MediaRecorder] as the service uses it: the number of tracks of
    its stream. *)
Record MediaRecorder := {
  tracks : nat
}.

(** The fields of [BackendService]. *)
Record BackendService := {
  mediaRecorder : option MediaRecorder;
  audioChunks : list Blob;
  currentRecordingId : option string;
  transcriptionInterval : bool;            (* a timer handle, or null *)
  speechRecognition : bool;                (* a recognizer, or null *)
  isListening : bool;
  audioQueue : list Blob;
  processingInterval : bool;               (* a timer handle, or null *)
  accumulatedAudio : list Blob;
  lastProcessTime : Z;
  phraseTimeout : Z
}.

(** ** Handlers as state transformers with effects and exceptions *)

Inductive Outcome (A : Type) :=
| Returned (a : A)
| Thrown (e : Exn).
Arguments Thrown {A} e.

Definition M (A : Type) : Type :=
  BackendService -> Outcome A * BackendService * list Effect.

Definition ret {A} (a : A) : M A := fun this => (Returned a, this, []).

Definition bind {A B} (m : M A) (k : A -> M B) : M B :=
  fun this =>
    match m this with
    | (Returned a, this1, fx1) =>
        match k a this1 with
        | (r, this2, fx2) => (r, this2, fx1 ++ fx2)
        end
    | (Thrown e, this1, fx1) => (Thrown e, this1, fx1)
    end.

Definition throw {A} (e : Exn) : M A := fun this => (Thrown e, this, []).

(** [try { body } catch (error) { handler }] *)
Definition try_catch {A} (body : M A) (handler : Exn -> M A) : M A :=
  fun this =>
    match body this with
    | (Returned a, this1, fx1) => (Returned a, this1, fx1)
    | (Thrown e, this1, fx1) =>
        match handler e this1 with
        | (r, this2, fx2) => (r, this2, fx1 ++ fx2)
        end
    end.

Definition get : M BackendService := fun this => (Returned this, this, []).
Definition emit (e : Effect) : M unit := fun this => (Returned tt, this, [e]).
Definition console (m : Msg) : M unit := emit (Console m).

(** A call into a browser object: the call is made, and it throws when
    the environment says so. *)
Definition call (e : Effect) (throws : bool) : M unit :=
  fun this => (if throws then Thrown DomException else Returned tt, this, [e]).

Declare Scope js_scope.
Delimit Scope js_scope with js.
Notation "x <- m ;; k" := (bind m (fun x => k))
  (at level 61, m at next level, right associativity) : js_scope.
Notation "m ;; k" := (bind m (fun _ => k))
  (at level 61, right associativity) : js_scope.
Notation "'when' c 'then' m" := (if c then m else ret tt)
  (at level 60, c at next level) : js_scope.
Local Open Scope js_scope.

Definition state_of {A} (r : Outcome A * BackendService * list Effect)
  : BackendService := snd (fst r).
Definition effects_of {A} (r : Outcome A * BackendService * list Effect)
  : list Effect := snd r.
Definition outcome_of {A} (r : Outcome A * BackendService * list Effect)
  : Outcome A := fst (fst r).

(** Field updates, one per assigned field. *)
Definition set_audioQueue (q : list Blob) : M unit :=
  fun s => (Returned tt,
    {| mediaRecorder := mediaRecorder s; audioChunks := audioChunks s;
       currentRecordingId := currentRecordingId s;
       transcriptionInterval := transcriptionInterval s;
       speechRecognition := speechRecognition s; isListening := isListening s;
       audioQueue := q; processingInterval := processingInterval s;
       accumulatedAudio := accumulatedAudio s;
       lastProcessTime := lastProcessTime s; phraseTimeout := phraseTimeout s |},
    []).

Definition set_audioChunks (c : list Blob) : M unit :=
  fun s => (Returned tt,
    {| mediaRecorder := mediaRecorder s; audioChunks := c;
       currentRecordingId := currentRecordingId s;
       transcriptionInterval := transcriptionInterval s;
       speechRecognition := speechRecognition s; isListening := isListening s;
       audioQueue := audioQueue s; processingInterval := processingInterval s;
       accumulatedAudio := accumulatedAudio s;
       lastProcessTime := lastProcessTime s; phraseTimeout := phraseTimeout s |},
    []).

Definition set_accumulatedAudio (a : list Blob) : M unit :=
  fun s => (Returned tt,
    {| mediaRecorder := mediaRecorder s; audioChunks := audioChunks s;
       currentRecordingId := currentRecordingId s;
       transcriptionInterval := transcriptionInterval s;
       speechRecognition := speechRecognition s; isListening := isListening s;
       audioQueue := audioQueue s; processingInterval := processingInterval s;
       accumulatedAudio := a;
       lastProcessTime := lastProcessTime s; phraseTimeout := phraseTimeout s |},
    []).

Definition set_lastProcessTime (t : Z) : M unit :=
  fun s => (Returned tt,
    {| mediaRecorder := mediaRecorder s; audioChunks := audioChunks s;
       currentRecordingId := currentRecordingId s;
       transcriptionInterval := transcriptionInterval s;
       speechRecognition := speechRecognition s; isListening := isListening s;
       audioQueue := audioQueue s; processingInterval := processingInterval s;
       accumulatedAudio := accumulatedAudio s;
       lastProcessTime := t; phraseTimeout := phraseTimeout s |},
    []).

Definition set_processingInterval (b : bool) : M unit :=
  fun s => (Returned tt,
    {| mediaRecorder := mediaRecorder s; audioChunks := audioChunks s;
       currentRecordingId := currentRecordingId s;
       transcriptionInterval := transcriptionInterval s;
       speechRecognition := speechRecognition s; isListening := isListening s;
       audioQueue := audioQueue s; processingInterval := b;
       accumulatedAudio := accumulatedAudio s;
       lastProcessTime := lastProcessTime s; phraseTimeout := phraseTimeout s |},
    []).

Definition set_transcriptionInterval (b : bool) : M unit :=
  fun s => (Returned tt,
    {| mediaRecorder := mediaRecorder s; audioChunks := audioChunks s;
       currentRecordingId := currentRecordingId s;
       transcriptionInterval := b;
       speechRecognition := speechRecognition s; isListening := isListening s;
       audioQueue := audioQueue s; processingInterval := processingInterval s;
       accumulatedAudio := accumulatedAudio s;
       lastProcessTime := lastProcessTime s; phraseTimeout := phraseTimeout s |},
    []).

Definition set_isListening (b : bool) : M unit :=
  fun s => (Returned tt,
    {| mediaRecorder := mediaRecorder s; audioChunks := audioChunks s;
       currentRecordingId := currentRecordingId s;
       transcriptionInterval := transcriptionInterval s;
       speechRecognition := speechRecognition s; isListening := b;
       audioQueue := audioQueue s; processingInterval := processingInterval s;
       accumulatedAudio := accumulatedAudio s;
       lastProcessTime := lastProcessTime s; phraseTimeout := phraseTimeout s |},
    []).

(** The clean-up assignments at the end of [stopRecording]:
    [mediaRecorder], [currentRecordingId], [audioQueue],
    [accumulatedAudio] and [speechRecognition] are reset. *)
Definition clean_up : M unit :=
  fun s => (Returned tt,
    {| mediaRecorder := None; audioChunks := audioChunks s;
       currentRecordingId := None;
       transcriptionInterval := transcriptionInterval s;
       speechRecognition := false; isListening := isListening s;
       audioQueue := []; processingInterval := processingInterval s;
       accumulatedAudio := [];
       lastProcessTime := lastProcessTime s; phraseTimeout := phraseTimeout s |},
    []).

(** ** The methods of [BackendService] *)

(** [makeRequest(endpoint, options)], up to the [await fetch]: the
    request leaves. *)
Definition makeRequest_send (e : Endpoint) (b : Body) : M unit :=
  emit (Fetch e b).

(** [makeRequest], from the outcome of the fetch on: a rejected fetch or
    a response that is not ok is logged and rethrown. *)
Definition makeRequest_receive {T} (e : Endpoint) (r : option T) : M T :=
  match r with
  | Some v => ret v
  | None => console (ApiRequestFailed e) ;; throw HttpError
  end.

(** [sendAccumulatedAudio(trigger)]: the guard, then the combined blob is
    handed to a [FileReader].  Nothing in the body awaits, so the
    returned promise is already settled. *)
Definition sendAccumulatedAudio (trigger : string) : M unit :=
  this <- get ;;
  if (len (accumulatedAudio this) =? 0) || negb (truthy (currentRecordingId this))
  then console NoAccumulatedAudio
  else
    try_catch
      (console (SendingAccumulated (len (accumulatedAudio this)) trigger) ;;
       let combinedBlob := new_Blob (accumulatedAudio this) in
       emit (ReadAsDataURL combinedBlob trigger))
      (fun _ => console ErrorSendingAccumulated).

(** The callback [reader.onloadend] installed by [sendAccumulatedAudio],
    up to its [await]: the chunk request is built from the blob and the
    trigger captured by the closure and from the fields of the object as
    they are when the reader finishes. *)
Definition onloadend_send (combinedBlob : Blob) (trigger : string) : M unit :=
  console UploadingAccumulated ;;
  this <- get ;;
  makeRequest_send RecordingChunk
    (ChunkB {| recording_id := currentRecordingId this;
               audio_data := combinedBlob;
               detected_speech := trigger;
               chunk_count := len (accumulatedAudio this) |}).

(** The rest of [reader.onloadend], run when the chunk request settles:
    [r] is [Some] response when the upload succeeded and [None] when
    [makeRequest] threw. *)
Definition onloadend_receive (r : option unit) : M unit :=
  try_catch
    (makeRequest_receive RecordingChunk r ;;
     console AccumulatedUploaded ;;
     (* Clear the accumulated audio after successful upload *)
     set_accumulatedAudio [])
    (fun _ => console FailedToUploadAccumulated).

(** The callback given to [setInterval] by [startContinuousProcessing];
    [now] is the value of [Date.now()].  The awaited calls of
    [sendAccumulatedAudio] return settled promises, so the callback runs
    without interleaving. *)
Definition processingTick (now : Z) : M unit :=
  try_catch
    (this <- get ;;
     if len (audioQueue this) >? 0 then
       console (ProcessingQueued (len (audioQueue this))) ;;
       let allQueuedChunks := audioQueue this in
       set_audioQueue [] ;;
       set_accumulatedAudio (accumulatedAudio this ++ allQueuedChunks) ;;
       let timeSinceLastProcess := now - lastProcessTime this in
       (when (timeSinceLastProcess >? phraseTimeout this) then
          (console (PhraseTimeoutMsg timeSinceLastProcess) ;;
           sendAccumulatedAudio "phrase_timeout")) ;;
       set_lastProcessTime now
     else
       let timeSinceLastProcess := now - lastProcessTime this in
       when ((len (accumulatedAudio this) >? 0)
             && (timeSinceLastProcess >? phraseTimeout this)) then
         (console (IdleTimeoutMsg timeSinceLastProcess) ;;
          sendAccumulatedAudio "idle_timeout"))
    (fun _ => console ErrorInContinuousProcessing).

Definition stopContinuousProcessing : M unit :=
  this <- get ;;
  when (processingInterval this) then
    (emit (ClearInterval ProcessingInterval) ;;
     set_processingInterval false ;;
     console ContinuousProcessingStopped).

Definition stopTranscriptionPolling : M unit :=
  this <- get ;;
  when (transcriptionInterval this) then
    (emit (ClearInterval TranscriptionInterval) ;;
     set_transcriptionInterval false ;;
     console StoppedTranscriptionPolling).

(** [mediaRecorder.ondataavailable], with [data] for [event.data]. *)
Definition ondataavailable (data : Blob) : M unit :=
  console (AudioDataAvailable (size data)) ;;
  when (size data >? 0) then
    (this <- get ;;
     set_audioQueue (audioQueue this ++ [data]) ;;
     this <- get ;;
     set_audioChunks (audioChunks this ++ [data]) ;;
     this <- get ;;
     console (AddedToQueue (len (audioQueue this)))).

(** Text.  A JavaScript string is a sequence of 16-bit code units; the
    strings here are the ones whose code units lie below 256 (U+0000 to
    U+00FF), a character [c] standing for the code unit [N_of_ascii c].

    [String.prototype.trim] strips the code points WhiteSpace and
    LineTerminator of ECMAScript: TAB, LF, VT, FF, CR, the space, the
    no-break space U+00A0, U+1680, U+2000 to U+200A, the line and
    paragraph separators U+2028 and U+2029, U+202F, U+205F, U+3000 and
    the byte order mark U+FEFF. *)
Definition is_white_space_code (u : N) : bool :=
  ((9 <=? u) && (u <=? 13)                 (* U+0009 to U+000D *)
   || (u =? 32)                            (* U+0020 *)
   || (u =? 160)                           (* U+00A0 *)
   || (u =? 5760)                          (* U+1680 *)
   || (8192 <=? u) && (u <=? 8202)         (* U+2000 to U+200A *)
   || (u =? 8232) || (u =? 8233)           (* U+2028, U+2029 *)
   || (u =? 8239)                          (* U+202F *)
   || (u =? 8287)                          (* U+205F *)
   || (u =? 12288)                         (* U+3000 *)
   || (u =? 65279))%N.                     (* U+FEFF *)

Definition is_white_space (c : ascii) : bool :=
  is_white_space_code (N_of_ascii c).

Fixpoint trimStart (s : string) : string :=
  match s with
  | String c s' => if is_white_space c then trimStart s' else s
  | EmptyString => EmptyString
  end.

Fixpoint string_rev (s : string) : string :=
  match s with
  | EmptyString => EmptyString
  | String c s' => String.append (string_rev s') (String c EmptyString)
  end.

Definition trim (s : string) : string :=
  string_rev (trimStart (string_rev (trimStart s))).

(** The loop of [speechRecognition.onresult] that builds
    [finalTranscript]. *)
Definition finalTranscript_of (results : list SpeechRecognitionResult) : string :=
  fold_left
    (fun finalTranscript result =>
       if isFinal result
       then String.append finalTranscript (transcript result)
       else finalTranscript)
    results EmptyString.

(** [speechRecognition.onresult] *)
Definition onresult (results : list SpeechRecognitionResult) : M unit :=
  let finalTranscript := finalTranscript_of results in
  when (truthy (Some (trim finalTranscript))) then
    (console (FinalSpeechDetected finalTranscript) ;;
     (* Speech detected - send accumulated audio *)
     sendAccumulatedAudio finalTranscript).

(** [array.forEach(f)] over [n] elements. *)
Fixpoint forEach (n : nat) (f : M unit) : M unit :=
  match n with
  | O => ret tt
  | S n' => f ;; forEach n' f
  end.

(** What the environment answers during one call of [stopRecording]. *)
Record StopEnv := {
  speechStop_throws : bool;       (* speechRecognition.stop() throws *)
  recorderStop_throws : bool;     (* mediaRecorder.stop() throws *)
  stopResponse : option RecordingResponse   (* None: the request failed *)
}.

Definition has_transcription (r : RecordingResponse) : bool :=
  match transcription r with
  | Some t => len t >? 0
  | None => false
  end.

(** [stopRecording()].  The whole body is one [try] block whose [catch]
    logs and rethrows; only [speechRecognition.stop()] has a [try] of its
    own.  The answer to the stop request is taken from [env] at once;
    [stopRecording_send] and [stopRecording_receive] further down split
    the method at that [await]. *)
Definition stopRecording (env : StopEnv) : M RecordingResponse :=
  try_catch
    (console StoppingRecording ;;
     this <- get ;;
     match mediaRecorder this with
     | None => throw NoActiveRecording
     | Some recorder =>
       if negb (truthy (currentRecordingId this)) then throw NoActiveRecording
       else
         (* Stop continuous processing first *)
         stopContinuousProcessing ;;
         (* Stop speech recognition first *)
         (when (speechRecognition this) then
            (set_isListening false ;;
             try_catch
               (call SpeechStop (speechStop_throws env) ;;
                console SpeechRecognitionStopped)
               (fun _ => console SpeechRecognitionAlreadyStopped))) ;;
         (* Send any remaining accumulated audio *)
         this <- get ;;
         (when (len (accumulatedAudio this) >? 0) then
            (console SendingFinalAccumulated ;;
             sendAccumulatedAudio "Final chunk")) ;;
         (* Stop transcription polling *)
         stopTranscriptionPolling ;;
         (* Stop the MediaRecorder *)
         call RecorderStop (recorderStop_throws env) ;;
         console MediaRecorderStopped ;;
         (* Stop all tracks *)
         forEach (tracks recorder) (emit TrackStop ;; console AudioTrackStopped) ;;
         (* Stop recording on backend *)
         console SendingStopRequest ;;
         this <- get ;;
         makeRequest_send RecordingStop (StopB (currentRecordingId this)) ;;
         stopResponse <- makeRequest_receive RecordingStop (stopResponse env) ;;
         console BackendStopResponse ;;
         (when (has_transcription stopResponse) then console FinalTranscription) ;;
         (* Clean up *)
         clean_up ;;
         ret stopResponse
     end)
    (fun error => console FailedToStopRecording ;; throw error).

(** The fields as [startRecording] leaves them once the backend has
    answered with [recording_id] (truthy), at time [now] of its
    [Date.now()], after [mediaRecorder.start(250)] and
    [startContinuousProcessing()]. *)
Definition started (id : string) (now : Z)
    (polling speech : bool) : BackendService :=
  {| mediaRecorder := Some {| tracks := 1 |};
     audioChunks := [];
     currentRecordingId := Some id;
     transcriptionInterval := polling;
     speechRecognition := speech;
     isListening := speech;
     audioQueue := [];
     processingInterval := true;
     accumulatedAudio := [];
     lastProcessTime := now;
     phraseTimeout := 3000 |}.

(** ** Health check *)

Record HealthStatus := {
  status : string;
  service : string
}.

(** [healthCheck()].  [this_bound] tells whether the method is called on
    the service object: in a method called without a receiver [this] is
    [undefined], and [this.makeRequest] throws a [TypeError] inside the
    [try].  [r] is the outcome of the request to [/health].  The result is
    the value the returned promise resolves to and the delay, in ms, of
    the timer that resolves it. *)
Definition healthCheck (this_bound : bool) (r : option HealthStatus)
  : M (HealthStatus * Z) :=
  try_catch
    (response <-
       (if this_bound
        then makeRequest_send Health NoBody ;; makeRequest_receive Health r
        else throw TypeError) ;;
     ret (response, 0))
    (fun _ =>
       (* Fallback to simulate connection if backend is not available *)
       ret ({| status := "connected"; service := "audio-backend" |}, 500)).

(** [useBackend().healthCheck] is [backendService.healthCheck], the
    method taken off the object. *)
Definition useBackend_healthCheck := healthCheck false.

(** Sidebar.tsx: the state [backendStatus] and the effect [checkBackend]
    that sets it after [await healthCheck()]. *)
Inductive BackendStatus := connecting | connected | error.

Definition checkBackend (r : option HealthStatus) (this : BackendService)
  : BackendStatus :=
  match outcome_of (useBackend_healthCheck r this) with
  | Returned _ => connected
  | Thrown _ => error
  end.

(** ** The event loop

    Between two handlers the browser holds the work in flight: the
    [FileReader]s started by [sendAccumulatedAudio], each with the blob
    and the trigger its callback closes over, and the chunk requests
    whose response has not arrived. *)
Record World := {
  backendService : BackendService;
  readers : list (Blob * string);
  requests : list ChunkBody
}.

Inductive Event :=
| DataAvailable (data : Blob)              (* the recorder delivers a fragment *)
| Tick (now : Z)                           (* the processing interval fires *)
| SpeechResult (results : list SpeechRecognitionResult)
| LoadEnd (i : nat)                        (* reader [i] has finished *)
| ChunkResponse (i : nat) (ok : bool).     (* request [i] has settled *)

(** The readers started and the chunk requests sent by a handler. *)
Fixpoint flushes (fx : list Effect) : list (Blob * string) :=
  match fx with
  | [] => []
  | ReadAsDataURL b t :: fx' => (b, t) :: flushes fx'
  | _ :: fx' => flushes fx'
  end.

Fixpoint uploads (fx : list Effect) : list ChunkBody :=
  match fx with
  | [] => []
  | Fetch RecordingChunk (ChunkB b) :: fx' => b :: uploads fx'
  | _ :: fx' => uploads fx'
  end.

Definition remove_nth {A} (i : nat) (l : list A) : list A :=
  firstn i l ++ skipn (S i) l.

(** The handler an event runs, and the work left in flight.  A timer or a
    recognizer that is not installed delivers nothing, and so does a
    completion of work that is not in flight.  Callbacks that run although
    their field is cleared are those of [fire] further down. *)
Definition dispatch (w : World) (e : Event)
  : M unit * list (Blob * string) * list ChunkBody :=
  match e with
  | DataAvailable data => (ondataavailable data, readers w, requests w)
  | Tick now =>
      (if processingInterval (backendService w) then processingTick now else ret tt,
       readers w, requests w)
  | SpeechResult results =>
      (if speechRecognition (backendService w) then onresult results else ret tt,
       readers w, requests w)
  | LoadEnd i =>
      match nth_error (readers w) i with
      | Some (combinedBlob, trigger) =>
          (onloadend_send combinedBlob trigger,
           remove_nth i (readers w), requests w)
      | None => (ret tt, readers w, requests w)
      end
  | ChunkResponse i ok =>
      match nth_error (requests w) i with
      | Some _ =>
          (onloadend_receive (if ok then Some tt else None),
           readers w, remove_nth i (requests w))
      | None => (ret tt, readers w, requests w)
      end
  end.

Definition step (w : World) (e : Event) : World * list Effect :=
  match dispatch w e with
  | (handler, rd, rq) =>
      match handler (backendService w) with
      | (_, this', fx) =>
          ({| backendService := this';
              readers := rd ++ flushes fx;
              requests := rq ++ uploads fx |}, fx)
      end
  end.

Fixpoint run (w : World) (tr : list Event) : World * list Effect :=
  match tr with
  | [] => (w, [])
  | e :: tr' =>
      match step w e with
      | (w1, fx1) =>
          match run w1 tr' with
          | (w2, fx2) => (w2, fx1 ++ fx2)
          end
      end
  end.

(** The fragments a trace delivers to the capture queue, in arrival
    order. *)
Fixpoint arrivals (tr : list Event) : list Blob :=
  match tr with
  | [] => []
  | DataAvailable data :: tr' =>
      if size data >? 0 then data :: arrivals tr' else arrivals tr'
  | _ :: tr' => arrivals tr'
  end.

(** No upload of the trace succeeds. *)
Definition is_success (e : Event) : bool :=
  match e with
  | ChunkResponse _ true => true
  | _ => false
  end.

Definition no_success (tr : list Event) : bool :=
  forallb (fun e => negb (is_success e)) tr.

(** A session right after [startRecording], nothing in flight. *)
Definition fresh (id : string) (now : Z) (polling speech : bool) : World :=
  {| backendService := started id now polling speech; readers := []; requests := [] |}.

(** ** Vocabulary of the properties *)

(** A flush attempt seen through to the end of its upload: the call of
    [sendAccumulatedAudio], the reader's callback, and the settlement of
    the request with [ok]. *)
Definition flush_then_settle (trigger : string) (ok : bool)
    (this : BackendService) : BackendService :=
  let this1 := state_of (sendAccumulatedAudio trigger this) in
  let this2 := state_of (onloadend_send (new_Blob (accumulatedAudio this)) trigger this1) in
  state_of (onloadend_receive (if ok then Some tt else None) this2).

(** The flush operation invoked once for each trigger of a list. *)
Fixpoint invoke_flushes (triggers : list string) : M unit :=
  match triggers with
  | [] => ret tt
  | trigger :: rest => sendAccumulatedAudio trigger ;; invoke_flushes rest
  end.

(** The reading of "the fragments delivered between two flushes": from a
    world [w] in which a flush has just been made, the trace [tr]
    followed by the event [e] that flushes again delivers
    [arrivals (tr ++ [e])], and the payload is to be their
    concatenation. *)
Definition exact_between_flushes (w : World) (tr : list Event) (e : Event)
  : Prop :=
  forall b t,
    In (b, t) (flushes (snd (step (fst (run w tr)) e))) ->
    b = new_Blob (arrivals (tr ++ [e])).

(** The chunk requests that the flush of a phrase-boundary event ends up
    sending: one per reader started by [onresult], built by the reader's
    callback. *)
Definition speech_flush_uploads (results : list SpeechRecognitionResult)
    (this : BackendService) : list ChunkBody :=
  let r := onresult results this in
  flat_map
    (fun bt => uploads (effects_of (onloadend_send (fst bt) (snd bt) (state_of r))))
    (flushes (effects_of r)).

(** The time of the last flush made by a tick of the trace, [since] when
    there is none. *)
Fixpoint last_flush (since : Z) (w : World) (tr : list Event) : Z :=
  match tr with
  | [] => since
  | e :: tr' =>
      match step w e with
      | (w1, fx) =>
          last_flush
            (match e, flushes fx with
             | Tick now, _ :: _ => now
             | _, _ => since
             end) w1 tr'
      end
  end.

(** The reading of "a flush is triggered exactly when the elapsed time
    since the last flush exceeds the phrase timeout", at the tick at
    [now] that follows the trace [tr] of a session started at [start]. *)
Definition flush_iff_elapsed_since_last_flush
    (start : Z) (w : World) (tr : list Event) (now : Z) : Prop :=
  let this := backendService (fst (run w tr)) in
  accumulatedAudio this ++ audioQueue this <> [] ->
  (flushes (snd (step (fst (run w tr)) (Tick now))) <> [] <->
   now - last_flush start w tr > phraseTimeout this).

(** The steps of stopping a session, as they show in the effects of
    [stopRecording]. *)
Inductive StopStep :=
| CancelTimer          (* clearInterval(processingInterval) *)
| StopDetector         (* speechRecognition.stop() *)
| FinalFlush           (* the reader of the final flush is started *)
| StopPolling          (* clearInterval(transcriptionInterval) *)
| StopCapture          (* mediaRecorder.stop() *)
| StopTrack            (* track.stop() *)
| StopRequest.         (* POST /recording/stop *)

Definition StopStep_eqb (a b : StopStep) : bool :=
  match a, b with
  | CancelTimer, CancelTimer | StopDetector, StopDetector
  | FinalFlush, FinalFlush | StopPolling, StopPolling
  | StopCapture, StopCapture | StopTrack, StopTrack
  | StopRequest, StopRequest => true
  | _, _ => false
  end.

Fixpoint stop_steps (fx : list Effect) : list StopStep :=
  match fx with
  | [] => []
  | ClearInterval ProcessingInterval :: fx' => CancelTimer :: stop_steps fx'
  | SpeechStop :: fx' => StopDetector :: stop_steps fx'
  | ReadAsDataURL _ _ :: fx' => FinalFlush :: stop_steps fx'
  | ClearInterval TranscriptionInterval :: fx' => StopPolling :: stop_steps fx'
  | RecorderStop :: fx' => StopCapture :: stop_steps fx'
  | TrackStop :: fx' => StopTrack :: stop_steps fx'
  | Fetch RecordingStop _ :: fx' => StopRequest :: stop_steps fx'
  | _ :: fx' => stop_steps fx'
  end.

(** [is_subsequence p l]: the steps of [p] occur in [l] in that order. *)
Fixpoint is_subsequence (p l : list StopStep) : bool :=
  match p, l with
  | [], _ => true
  | _ :: _, [] => false
  | x :: p', y :: l' =>
      if StopStep_eqb x y then is_subsequence p' l' else is_subsequence p l'
  end.

(** The reading of "cancels the periodic timer, stops the capture source,
    stops the phrase detector, and performs the final flush, in that
    order". *)
Definition claimed_stop_order (steps : list StopStep) : Prop :=
  is_subsequence [CancelTimer; StopCapture; StopDetector; FinalFlush] steps = true.

(** In-flight work whose payload is still at the head of the
    accumulation buffer. *)
Definition held (this : BackendService) (payload : Blob) : Prop :=
  exists parts newer,
    parts <> [] /\
    accumulatedAudio this = parts ++ newer /\
    payload = new_Blob parts.

Definition retained (w : World) : Prop :=
  (forall b t, In (b, t) (readers w) -> held (backendService w) b) /\
  (forall req, In req (requests w) -> held (backendService w) (audio_data req)).

(** ** Sample sessions *)

Definition fragment (k : nat) : Blob := [Byte.x52; Byte.x49; Byte.x46; Byte.x46]
  ++ repeat Byte.x00 k.

(** One fragment every 250 ms for [n] ticks after [t0], each drained by
    the tick that follows it. *)
Fixpoint steady (n : nat) (k : nat) (t0 : Z) : list Event :=
  match n with
  | O => []
  | S n' =>
      DataAvailable (fragment k) :: Tick (t0 + 250) :: steady n' (S k) (t0 + 250)
  end.

Definition session : World := fresh "rec-1" 0 true true.

Definition fragment_a : Blob := fragment 1.
Definition fragment_b : Blob := fragment 2.

Definition phrase (text : string) : list SpeechRecognitionResult :=
  [{| isFinal := false; transcript := "interim" |};
   {| isFinal := true; transcript := text |}].

Definition quiet_env : StopEnv :=
  {| speechStop_throws := false;
     recorderStop_throws := false;
     stopResponse :=
       Some {| success := true; resp_recording_id := Some "rec-1";
               transcription := None |} |}.

(** A phrase boundary flushes [fragment_a]; the upload fails, [fragment_b]
    arrives and is drained, and a second phrase boundary flushes again. *)
Definition first_phrase : list Event :=
  [DataAvailable fragment_a; Tick 250; SpeechResult (phrase "hello")].

Definition after_first_flush : World := fst (run session first_phrase).

Definition until_second_flush : list Event :=
  [LoadEnd 0; ChunkResponse 0 false; DataAvailable fragment_b; Tick 500].

(** The session once [fragment_a] has been drained into the buffer. *)
Definition one_fragment_drained : BackendService :=
  backendService (fst (run session [DataAvailable fragment_a; Tick 250])).

(** The session with [fragment_a] delivered and no tick since. *)
Definition one_fragment_queued : BackendService :=
  backendService (fst (run session [DataAvailable fragment_a])).

Definition failing_recorder_env : StopEnv :=
  {| speechStop_throws := true;
     recorderStop_throws := true;
     stopResponse := stopResponse quiet_env |}.

(** Two fragments arrive, each drained by the tick after it. *)
Definition two_fragments_drained : BackendService :=
  backendService (fst (run session (steady 2 1 0))).

(** Thirteen ticks of steady arrival, up to the fragment that the tick at
    3250 ms will drain. *)
Definition steady_until_3250 : list Event :=
  steady 12 0 0 ++ [DataAvailable (fragment 12)].

(** A flush of [fragment_a] by a phrase boundary, up to the request its
    reader sends. *)
Definition first_upload_sent : list Event :=
  first_phrase ++ [LoadEnd 0].

Definition first_upload : ChunkBody :=
  {| recording_id := Some "rec-1";
     audio_data := fragment_a;
     detected_speech := "hello";
     chunk_count := 1 |}.

(** Two uploads overlap.  A phrase boundary flushes [fragment_a] and the
    reader sends the first request; [fragment_b] arrives and is drained,
    a second phrase boundary flushes both fragments and the reader sends
    the second request; then the first request is answered with
    success.  The second request is still in flight. *)
Definition overlapping_uploads : list Event :=
  [DataAvailable fragment_a; Tick 250;
   SpeechResult [{| isFinal := true; transcript := "one" |}];
   LoadEnd 0;
   DataAvailable fragment_b; Tick 500;
   SpeechResult [{| isFinal := true; transcript := "one" |};
                 {| isFinal := true; transcript := " two" |}];
   LoadEnd 0;
   ChunkResponse 0 true].

(** One fragment, then silence: the ticks up to 3500 ms find the queue
    empty and the one at 3500 ms makes the idle flush; its upload
    succeeds, and a new fragment arrives for the tick at 3750 ms. *)
Definition silence_then_arrival : list Event :=
  DataAvailable fragment_a
  :: map (fun k => Tick (250 * Z.of_nat k)) (seq 1 14)
  ++ [LoadEnd 0; ChunkResponse 0 true; DataAvailable fragment_b].

(** ** Vocabulary of the further properties *)

(** A string of white space only, the empty one included. *)
Fixpoint is_blank (s : string) : bool :=
  match s with
  | EmptyString => true
  | String c s' => is_white_space c && is_blank s'
  end.

(** A world around an object, with given work in flight. *)
Definition world_of (this : BackendService)
    (rd : list (Blob * string)) (rq : list ChunkBody) : World :=
  {| backendService := this; readers := rd; requests := rq |}.

(** ** Stopping across the await

    [stopRecording] waits for the answer to its stop request, and the
    callbacks of readers, chunk requests, recorder and recognizer run
    while it waits.  Its two parts, before and after the [await]; run
    one after the other with nothing in between, they are
    [stopRecording] above. *)

(** [stopRecording()] up to the [await] on the stop request. *)
Definition stopRecording_send (env : StopEnv) : M unit :=
  try_catch
    (console StoppingRecording ;;
     this <- get ;;
     match mediaRecorder this with
     | None => throw NoActiveRecording
     | Some recorder =>
       if negb (truthy (currentRecordingId this)) then throw NoActiveRecording
       else
         (* Stop continuous processing first *)
         stopContinuousProcessing ;;
         (* Stop speech recognition first *)
         (when (speechRecognition this) then
            (set_isListening false ;;
             try_catch
               (call SpeechStop (speechStop_throws env) ;;
                console SpeechRecognitionStopped)
               (fun _ => console SpeechRecognitionAlreadyStopped))) ;;
         (* Send any remaining accumulated audio *)
         this <- get ;;
         (when (len (accumulatedAudio this) >? 0) then
            (console SendingFinalAccumulated ;;
             sendAccumulatedAudio "Final chunk")) ;;
         (* Stop transcription polling *)
         stopTranscriptionPolling ;;
         (* Stop the MediaRecorder *)
         call RecorderStop (recorderStop_throws env) ;;
         console MediaRecorderStopped ;;
         (* Stop all tracks *)
         forEach (tracks recorder) (emit TrackStop ;; console AudioTrackStopped) ;;
         (* Stop recording on backend *)
         console SendingStopRequest ;;
         this <- get ;;
         makeRequest_send RecordingStop (StopB (currentRecordingId this))
     end)
    (fun error => console FailedToStopRecording ;; throw error).

(** [stopRecording()] from the answer to the stop request on; [None]
    stands for a request that failed. *)
Definition stopRecording_receive (response : option RecordingResponse)
  : M RecordingResponse :=
  try_catch
    (stopResponse <- makeRequest_receive RecordingStop response ;;
     console BackendStopResponse ;;
     (when (has_transcription stopResponse) then console FinalTranscription) ;;
     (* Clean up *)
     clean_up ;;
     ret stopResponse)
    (fun error => console FailedToStopRecording ;; throw error).

(** The two parts in a row. *)
Definition stopRecording_in_a_row (env : StopEnv) : M RecordingResponse :=
  fun this =>
    match stopRecording_send env this with
    | (Returned _, this1, fx1) =>
        match stopRecording_receive (stopResponse env) this1 with
        | (r, this2, fx2) => (r, this2, fx1 ++ fx2)
        end
    | (Thrown e, this1, fx1) => (Thrown e, this1, fx1)
    end.

(** ** Callbacks that outlive the fields

    The event loop above delivers a tick while [processingInterval] is
    set and a phrase boundary while [speechRecognition] is set.  The
    browser is not bound by these fields.  The handlers stay attached to
    the recorder and to the recognizer when the fields are cleared, and
    [startRecording] assigns [processingInterval] without clearing the
    interval it held: after two starts in a row the first interval keeps
    firing, whatever [stopRecording] clears.  The callbacks below run
    whatever the fields say.  They are the ones that read or write the
    queue and the buffer; the other callbacks of the recognizer and the
    polling callback write [isListening] at most. *)
Inductive Callback :=
| OnDataAvailable (data : Blob)            (* mediaRecorder.ondataavailable *)
| OnInterval (now : Z)                     (* an interval of startContinuousProcessing *)
| OnResult (results : list SpeechRecognitionResult)
| OnLoadEnd (i : nat)                      (* reader [i] has finished *)
| OnChunkResponse (i : nat) (ok : bool).   (* request [i] has settled *)

Definition attached (w : World) (c : Callback)
  : M unit * list (Blob * string) * list ChunkBody :=
  match c with
  | OnDataAvailable data => (ondataavailable data, readers w, requests w)
  | OnInterval now => (processingTick now, readers w, requests w)
  | OnResult results => (onresult results, readers w, requests w)
  | OnLoadEnd i =>
      match nth_error (readers w) i with
      | Some (combinedBlob, trigger) =>
          (onloadend_send combinedBlob trigger,
           remove_nth i (readers w), requests w)
      | None => (ret tt, readers w, requests w)
      end
  | OnChunkResponse i ok =>
      match nth_error (requests w) i with
      | Some _ =>
          (onloadend_receive (if ok then Some tt else None),
           readers w, remove_nth i (requests w))
      | None => (ret tt, readers w, requests w)
      end
  end.

Definition fire (w : World) (c : Callback) : World * list Effect :=
  match attached w c with
  | (handler, rd, rq) =>
      match handler (backendService w) with
      | (_, this', fx) =>
          ({| backendService := this';
              readers := rd ++ flushes fx;
              requests := rq ++ uploads fx |}, fx)
      end
  end.

Fixpoint fire_all (w : World) (cs : list Callback) : World * list Effect :=
  match cs with
  | [] => (w, [])
  | c :: cs' =>
      match fire w c with
      | (w1, fx1) =>
          match fire_all w1 cs' with
          | (w2, fx2) => (w2, fx1 ++ fx2)
          end
      end
  end.

(** The callback an event of the loop runs when its timer or recognizer
    is installed. *)
Definition callback_of (e : Event) : Callback :=
  match e with
  | DataAvailable data => OnDataAvailable data
  | Tick now => OnInterval now
  | SpeechResult results => OnResult results
  | LoadEnd i => OnLoadEnd i
  | ChunkResponse i ok => OnChunkResponse i ok
  end.

(** No upload of the callbacks succeeds; no interval fires. *)
Definition no_upload_succeeds (cs : list Callback) : bool :=
  forallb (fun c => match c with OnChunkResponse _ true => false | _ => true end) cs.

Definition no_interval (cs : list Callback) : bool :=
  forallb (fun c => match c with OnInterval _ => false | _ => true end) cs.

(** The fragments of positive size the callbacks deliver, in order. *)
Fixpoint deliveries (cs : list Callback) : list Blob :=
  match cs with
  | [] => []
  | OnDataAvailable data :: cs' =>
      if size data >? 0 then data :: deliveries cs' else deliveries cs'
  | _ :: cs' => deliveries cs'
  end.

(** ** Starting a session, the recognizer and the polling

    [startRecording], [setupSpeechRecognition] with the callbacks it
    installs, [startContinuousProcessing], [startTranscriptionPolling] and
    [getTranscription] talk to more of the browser and of the backend
    than the handlers above, and can fail with one more error.  They run
    in the same way, over the same object, with a wider range of
    actions. *)

Module StartResponse.
(** [RecordingResponse], with the fields [startRecording] reads. *)
Record t := {
  success : bool;
  recording_id : option string;
  transcription_enabled : bool
}.
End StartResponse.

Module TranscriptionResponse.
(** [TranscriptionResponse], with the fields [getTranscription] reads;
    [current_text] may be absent. *)
Record t := {
  success : bool;
  current_text : option string
}.
End TranscriptionResponse.

Inductive Route :=
| RecordingStart (model : string) (enable_transcription : bool)
                                   (* POST /recording/start *)
| TranscriptionOf (id : option string).   (* GET /transcription/<id> *)

(** Console output of these methods, one constructor per call site. *)
Inductive Note :=
| StartingRecordingRequest
| BackendRecordingStarted
| RequestingMicrophone
| MicrophoneGranted
| UsingMimeType (mimeType : string)
| RecorderStartedWithChunks
| FailedToStartRecording                   (* console.error *)
| RequestFailed (r : Route)                (* console.error, makeRequest *)
| SpeechApiNotAvailable                    (* console.warn *)
| SpeechSetupComplete
| FailedToSetupSpeech                      (* console.error *)
| FallingBackToTimeBased                   (* console.warn *)
| SpeechStarted
| SpeechError (error : string)             (* console.error *)
| SpeechNotAllowed                         (* console.warn *)
| SpeechEnded
| SpeechRestarted
| FailedToRestartSpeech                    (* console.warn *)
| StartingContinuousProcessing
| StartingTranscriptionPolling
| CurrentTranscription (text : option string)
| FailedToGetTranscription                 (* console.error *)
| TranscriptionPollingError.               (* console.error *)

Inductive Action :=
| Did (e : Effect)                         (* an effect of the handlers above *)
| Say (n : Note)
| Request (r : Route)
| GetUserMedia                             (* navigator.mediaDevices.getUserMedia *)
| NewSpeechRecognition
| SpeechStart                              (* speechRecognition.start() *)
| NewMediaRecorder (mimeType : string)
| RecorderStart (timeslice : Z)            (* mediaRecorder.start(250) *)
| SetInterval (t : Timer) (ms : Z)
| SetTimeout (ms : Z)
| DispatchEvent (type : string) (detail : TranscriptionResponse.t).

Inductive Error :=
| Raised (e : Exn)
| FailedToStartOnBackend.    (* new Error('Failed to start recording on backend') *)

Inductive Result (A : Type) :=
| Done (a : A)
| Failed (e : Error).
Arguments Failed {A} e.

Definition X (A : Type) : Type :=
  BackendService -> Result A * BackendService * list Action.

Definition xret {A} (a : A) : X A := fun this => (Done a, this, []).

Definition xbind {A B} (m : X A) (k : A -> X B) : X B :=
  fun this =>
    match m this with
    | (Done a, this1, fx1) =>
        match k a this1 with
        | (r, this2, fx2) => (r, this2, fx1 ++ fx2)
        end
    | (Failed e, this1, fx1) => (Failed e, this1, fx1)
    end.

Definition xthrow {A} (e : Error) : X A := fun this => (Failed e, this, []).

Definition xtry {A} (body : X A) (handler : Error -> X A) : X A :=
  fun this =>
    match body this with
    | (Done a, this1, fx1) => (Done a, this1, fx1)
    | (Failed e, this1, fx1) =>
        match handler e this1 with
        | (r, this2, fx2) => (r, this2, fx1 ++ fx2)
        end
    end.

Definition xget : X BackendService := fun this => (Done this, this, []).
Definition act (a : Action) : X unit := fun this => (Done tt, this, [a]).
Definition say (n : Note) : X unit := act (Say n).

(** A call into a browser object, as [call] above. *)
Definition xcall (a : Action) (throws : bool) : X unit :=
  fun this => (if throws then Failed (Raised DomException) else Done tt, this, [a]).

(** A handler of the first kind run among these. *)
Definition lift {A} (m : M A) : X A :=
  fun this =>
    match m this with
    | (Returned a, this1, fx) => (Done a, this1, map Did fx)
    | (Thrown e, this1, fx) => (Failed (Raised e), this1, map Did fx)
    end.

Declare Scope jsx_scope.
Delimit Scope jsx_scope with jsx.
Notation "x <- m ;; k" := (xbind m (fun x => k))
  (at level 61, m at next level, right associativity) : jsx_scope.
Notation "m ;; k" := (xbind m (fun _ => k))
  (at level 61, right associativity) : jsx_scope.
Notation "'when' c 'then' m" := (if c then m else xret tt)
  (at level 60, c at next level) : jsx_scope.
Local Open Scope jsx_scope.

Definition result_of {A} (r : Result A * BackendService * list Action)
  : Result A := fst (fst r).
Definition object_of {A} (r : Result A * BackendService * list Action)
  : BackendService := snd (fst r).
Definition actions_of {A} (r : Result A * BackendService * list Action)
  : list Action := snd r.

Definition set_speechRecognition (b : bool) : X unit :=
  fun s => (Done tt,
    {| mediaRecorder := mediaRecorder s; audioChunks := audioChunks s;
       currentRecordingId := currentRecordingId s;
       transcriptionInterval := transcriptionInterval s;
       speechRecognition := b; isListening := isListening s;
       audioQueue := audioQueue s; processingInterval := processingInterval s;
       accumulatedAudio := accumulatedAudio s;
       lastProcessTime := lastProcessTime s; phraseTimeout := phraseTimeout s |},
    []).

Definition set_currentRecordingId (id : option string) : X unit :=
  fun s => (Done tt,
    {| mediaRecorder := mediaRecorder s; audioChunks := audioChunks s;
       currentRecordingId := id;
       transcriptionInterval := transcriptionInterval s;
       speechRecognition := speechRecognition s; isListening := isListening s;
       audioQueue := audioQueue s; processingInterval := processingInterval s;
       accumulatedAudio := accumulatedAudio s;
       lastProcessTime := lastProcessTime s; phraseTimeout := phraseTimeout s |},
    []).

Definition set_mediaRecorder (r : option MediaRecorder) : X unit :=
  fun s => (Done tt,
    {| mediaRecorder := r; audioChunks := audioChunks s;
       currentRecordingId := currentRecordingId s;
       transcriptionInterval := transcriptionInterval s;
       speechRecognition := speechRecognition s; isListening := isListening s;
       audioQueue := audioQueue s; processingInterval := processingInterval s;
       accumulatedAudio := accumulatedAudio s;
       lastProcessTime := lastProcessTime s; phraseTimeout := phraseTimeout s |},
    []).

(** The object as [new BackendService()] makes it. *)
Definition initial : BackendService :=
  {| mediaRecorder := None;
     audioChunks := [];
     currentRecordingId := None;
     transcriptionInterval := false;
     speechRecognition := false;
     isListening := false;
     audioQueue := [];
     processingInterval := false;
     accumulatedAudio := [];
     lastProcessTime := 0;
     phraseTimeout := 3000 |}.

(** [makeRequest] for the routes of these methods, from the outcome of
    the fetch on. *)
Definition request_receive {T} (r : Route) (response : option T) : X T :=
  match response with
  | Some v => xret v
  | None => say (RequestFailed r) ;; xthrow (Raised HttpError)
  end.

(** What the environment answers during one call of [startRecording]. *)
Record StartEnv := {
  startResponse : option StartResponse.t;  (* None: the request failed *)
  clock : Z;                               (* Date.now() *)
  microphone : option nat;     (* the tracks of the stream; None: rejected *)
  speechApi : bool;            (* window.SpeechRecognition || webkit... *)
  speechStart_throws : bool;   (* speechRecognition.start() throws *)
  opusSupported : bool;        (* MediaRecorder.isTypeSupported(...) *)
  newRecorder_throws : bool;   (* new MediaRecorder(...) throws *)
  recorderStart_throws : bool  (* mediaRecorder.start(250) throws *)
}.

(** [setupSpeechRecognition()]; the callbacks it installs follow. *)
Definition setupSpeechRecognition (env : StartEnv) : X bool :=
  xtry
    (if negb (speechApi env) then
       say SpeechApiNotAvailable ;; xret false
     else
       act NewSpeechRecognition ;;
       set_speechRecognition true ;;
       (* Start speech recognition *)
       xcall SpeechStart (speechStart_throws env) ;;
       say SpeechSetupComplete ;;
       xret true)
    (fun _ => say FailedToSetupSpeech ;; say FallingBackToTimeBased ;; xret false).

(** [speechRecognition.onstart] *)
Definition onstart : X unit :=
  say SpeechStarted ;;
  lift (set_isListening true).

(** [speechRecognition.onerror], with [error] for [event.error]. *)
Definition onerror (error : string) : X unit :=
  say (SpeechError error) ;;
  when (String.eqb error "not-allowed" || String.eqb error "service-not-allowed") then
    say SpeechNotAllowed.

(** [speechRecognition.onend]: a restart is scheduled 100 ms later. *)
Definition onend : X unit :=
  say SpeechEnded ;;
  this <- xget ;;
  when (isListening this && truthy (currentRecordingId this)) then
    act (SetTimeout 100).

(** The callback [onend] gives to [setTimeout]. *)
Definition restart (start_throws : bool) : X unit :=
  xtry
    (this <- xget ;;
     when (speechRecognition this && isListening this) then
       (xcall SpeechStart start_throws ;;
        say SpeechRestarted))
    (fun _ => say FailedToRestartSpeech).

(** [startContinuousProcessing()]: the interval of [processingTick]. *)
Definition startContinuousProcessing : X unit :=
  say StartingContinuousProcessing ;;
  act (SetInterval ProcessingInterval 250) ;;
  lift (set_processingInterval true).

(** [startTranscriptionPolling()] *)
Definition startTranscriptionPolling : X unit :=
  this <- xget ;;
  when (truthy (currentRecordingId this)) then
    (say StartingTranscriptionPolling ;;
     act (SetInterval TranscriptionInterval 1000) ;;
     lift (set_transcriptionInterval true)).

(** [getTranscription()], with the outcome of its request. *)
Definition getTranscription (response : option TranscriptionResponse.t)
  : X TranscriptionResponse.t :=
  this <- xget ;;
  if negb (truthy (currentRecordingId this)) then xthrow (Raised NoActiveRecording)
  else
    xtry
      (act (Request (TranscriptionOf (currentRecordingId this))) ;;
       response <- request_receive (TranscriptionOf (currentRecordingId this)) response ;;
       (when (TranscriptionResponse.success response
              && truthy (TranscriptionResponse.current_text response)) then
          (say (CurrentTranscription (TranscriptionResponse.current_text response)) ;;
           (* Dispatch custom event for real-time updates *)
           act (DispatchEvent "transcription-update" response))) ;;
       xret response)
      (fun error => say FailedToGetTranscription ;; xthrow error).

(** The callback [startTranscriptionPolling] gives to [setInterval]. *)
Definition pollingTick (response : option TranscriptionResponse.t) : X unit :=
  xtry
    (getTranscription response ;; xret tt)
    (fun _ => say TranscriptionPollingError).

(** [startRecording(model, enableTranscription)] *)
Definition startRecording (model : string) (enableTranscription : bool)
    (env : StartEnv) : X StartResponse.t :=
  xtry
    (say StartingRecordingRequest ;;
     (* Start recording on backend first *)
     act (Request (RecordingStart model enableTranscription)) ;;
     startResponse <-
       request_receive (RecordingStart model enableTranscription) (startResponse env) ;;
     say BackendRecordingStarted ;;
     if StartResponse.success startResponse
        && truthy (StartResponse.recording_id startResponse)
     then
       set_currentRecordingId (StartResponse.recording_id startResponse) ;;
       lift (set_audioChunks []) ;;
       (* Initialize continuous recording state *)
       lift (set_audioQueue []) ;;
       lift (set_accumulatedAudio []) ;;
       lift (set_lastProcessTime (clock env)) ;;
       (* Start transcription polling if enabled *)
       (when (enableTranscription
              && StartResponse.transcription_enabled startResponse) then
          startTranscriptionPolling) ;;
       (* Request microphone access *)
       say RequestingMicrophone ;;
       act GetUserMedia ;;
       tracks <- match microphone env with
                 | Some n => xret n
                 | None => xthrow (Raised DomException)
                 end ;;
       say MicrophoneGranted ;;
       (* Set up Web Speech API for speech detection *)
       setupSpeechRecognition env ;;
       (* Set up MediaRecorder for continuous audio capture *)
       let mimeType :=
         if opusSupported env then "audio/webm;codecs=opus" else "audio/webm" in
       say (UsingMimeType mimeType) ;;
       xcall (NewMediaRecorder mimeType) (newRecorder_throws env) ;;
       set_mediaRecorder (Some {| tracks := tracks |}) ;;
       xcall (RecorderStart 250) (recorderStart_throws env) ;;
       say RecorderStartedWithChunks ;;
       (* Start continuous processing loop (like Python thread) *)
       startContinuousProcessing ;;
       xret startResponse
     else
       xthrow FailedToStartOnBackend)
    (fun error => say FailedToStartRecording ;; xthrow error).

(** A backend answer that accepts the recording, with its id. *)
Definition accepted (r : StartResponse.t) (id : string) : Prop :=
  StartResponse.success r = true /\
  StartResponse.recording_id r = Some id /\
  id <> EmptyString.

(** An environment in which the microphone, the recorder and the start of
    the recognizer, when there is one, work. *)
Definition cooperative (env : StartEnv) : Prop :=
  microphone env = Some 1%nat /\
  newRecorder_throws env = false /\
  recorderStart_throws env = false /\
  speechStart_throws env = false.

(** The recognizer reports its start when there is a recognizer. *)
Definition after_onstart (speech : bool) (this : BackendService) : BackendService :=
  if speech then object_of (onstart this) else this.

Definition good_env : StartEnv :=
  {| startResponse :=
       Some {| StartResponse.success := true;
               StartResponse.recording_id := Some "rec-1";
               StartResponse.transcription_enabled := true |};
     clock := 0;
     microphone := Some 1%nat;
     speechApi := true;
     speechStart_throws := false;
     opusSupported := true;
     newRecorder_throws := false;
     recorderStart_throws := false |}.

Definition no_microphone_env : StartEnv :=
  {| startResponse := startResponse good_env;
     clock := 0;
     microphone := None;
     speechApi := true;
     speechStart_throws := false;
     opusSupported := true;
     newRecorder_throws := false;
     recorderStart_throws := false |}.

(** The browser has no speech API. *)
Definition no_speech_api_env : StartEnv :=
  {| startResponse := startResponse good_env;
     clock := 0;
     microphone := Some 1%nat;
     speechApi := false;
     speechStart_throws := false;
     opusSupported := true;
     newRecorder_throws := false;
     recorderStart_throws := false |}.

(** The start of the recognizer throws. *)
Definition throwing_recognizer_env : StartEnv :=
  {| startResponse := startResponse good_env;
     clock := 0;
     microphone := Some 1%nat;
     speechApi := true;
     speechStart_throws := true;
     opusSupported := true;
     newRecorder_throws := false;
     recorderStart_throws := false |}.

Definition refusing_env : StartEnv :=
  {| startResponse :=
       Some {| StartResponse.success := false;
               StartResponse.recording_id := None;
               StartResponse.transcription_enabled := false |};
     clock := 0;
     microphone := Some 1%nat;
     speechApi := true;
     speechStart_throws := false;
     opusSupported := true;
     newRecorder_throws := false;
     recorderStart_throws := false |}.


(** ** The call timer of the sidebar *)

(** The numbers of the call timer are whole numbers of seconds, counted
    up from 0 once a second.  A whole number of magnitude up to
    [MAX_SAFE_INTEGER] is a double without rounding, and on these the
    arithmetic of [formatDuration] is exact: the double nearest to
    [seconds / 60] lies below the next whole number, so [Math.floor]
    gives the quotient rounded down; [%] is exact on doubles; and
    [toString] writes a whole number below 10^21 with all its digits.
    The definitions below are the code on this range.  Beyond it the
    code rounds, and from 10^21 on writes exponent notation, which they
    do not follow. *)
Definition MAX_SAFE_INTEGER : Z := 9007199254740991.       (* 2^53 - 1 *)

(** [Number.prototype.toString()] on a whole number: the decimal digits,
    with a minus sign before those of a negative number. *)
Definition toString (n : Z) : string :=
  DecimalString.NilZero.string_of_int (Z.to_int n).

(** The first [n] characters of [pad] repeated, [cur] being what is left
    of the copy at hand. *)
Fixpoint filler (n : nat) (cur pad : string) : string :=
  match n with
  | O => EmptyString
  | S n' =>
      match cur with
      | String c cur' => String c (filler n' cur' pad)
      | EmptyString =>
          match pad with
          | String c pad' => String c (filler n' pad' pad)
          | EmptyString => EmptyString
          end
      end
  end.

(** [String.prototype.padStart(targetLength, padString)] *)
Definition padStart (targetLength : nat) (padString : string) (s : string)
  : string :=
  if (targetLength <=? String.length s)%nat then s
  else String.append
         (filler (targetLength - String.length s) padString padString) s.

(** [formatDuration(seconds)], for a whole number of seconds of
    magnitude up to [MAX_SAFE_INTEGER]: [Math.floor(seconds / 60)] is the
    quotient rounded down and [seconds % 60] the remainder with the sign
    of [seconds]. *)
Definition formatDuration (seconds : Z) : string :=
  let mins := seconds / 60 in
  let secs := Z.rem seconds 60 in
  String.append (padStart 2 "0" (toString mins))
    (String.append ":" (padStart 2 "0" (toString secs))).

(** The number a string of decimal digits writes. *)
Definition digits_value (s : string) : option Z :=
  option_map Z.of_uint (DecimalString.NilEmpty.uint_of_string s).


(** ** The simulated chat

    [processChatMessage], [sendChatMessage] of the [useBackend] hook, and
    [handleSendMessage] of the sidebar, which calls it. *)

Module ChatMessage.
Record t := {
  message : string;
  model : option string;
  timestamp : option string
}.
End ChatMessage.

Module ChatResponse.
Record data_t := {
  response : string;
  timestamp : string;
  user_message : string;
  model : string
}.
Record t := {
  success : bool;
  data : option data_t;
  error : option string
}.
End ChatResponse.

(** The double quote character. *)
Definition dq : string := String (ascii_of_nat 34) EmptyString.

Definition quoted (s : string) : string :=
  String.append dq (String.append s dq).

(** The value of [Math.floor(Math.random() * responses.length)] for the
    four responses: [Math.random()] is below 1. *)
Inductive Pick := Pick0 | Pick1 | Pick2 | Pick3.

(** [a || b] on strings, the first of which may be absent. *)
Definition or_default (a : option string) (b : string) : string :=
  if truthy a then match a with Some s => s | None => b end else b.

(** [processChatMessage(message)]: the value its promise resolves to
    when the timer fires, with [pick] for the random index and [iso] for
    [new Date().toISOString()].  The promise is never rejected. *)
Definition processChatMessage (message : ChatMessage.t) (pick : Pick)
    (iso : string) : ChatResponse.t :=
  let m := quoted (ChatMessage.message message) in
  let randomResponse :=
    match pick with
    | Pick0 => String.append "I understand you're asking about: "
                 (String.append m ". Let me help you with that.")
    | Pick1 => String.append "That's an interesting question about "
                 (String.append m ". Here's my perspective...")
    | Pick2 => String.append "Regarding "
                 (String.append m ", I think we should consider...")
    | Pick3 => String.append "Thank you for asking about "
                 (String.append m ". My analysis is...")
    end in
  {| ChatResponse.success := true;
     ChatResponse.data :=
       Some {| ChatResponse.response := randomResponse;
               ChatResponse.timestamp := iso;
               ChatResponse.user_message := ChatMessage.message message;
               ChatResponse.model :=
                 or_default (ChatMessage.model message) "GPT-3.5" |};
     ChatResponse.error := None |}.

(** [useBackend().sendChatMessage(message, model = 'GPT-3.5')]: what it
    resolves to; [None] stands for a rejection, which its [catch] passes
    on.  [sent_iso] is the time stamp it puts on the message. *)
Definition sendChatMessage (message : string) (model : option string)
    (sent_iso : string) (pick : Pick) (iso : string)
  : option ChatResponse.t :=
  Some (processChatMessage
          {| ChatMessage.message := message;
             ChatMessage.model :=
               Some (match model with Some m => m | None => "GPT-3.5" end);
             ChatMessage.timestamp := Some sent_iso |} pick iso).

Module ChatEntry.
(** An entry of the chat of the sidebar. *)
Record t := {
  id : Z;
  text : string;
  isUser : bool;
  timestamp : string
}.
End ChatEntry.

(** The state of the sidebar that [handleSendMessage] reads and sets. *)
Record ChatState := {
  message : string;
  chatMessages : list ChatEntry.t;
  isTyping : bool;
  currentModel : string
}.

Definition apology : string :=
  "Sorry, I couldn't process your message right now. Please try again.".

(** [handleSendMessage()] up to its [await], with [now] for [Date.now()]
    and [time] for [toLocaleTimeString()].  It returns the message and
    the model it passes to [sendChatMessage], or [None] when it returns
    at once. *)
Definition handleSendMessage_send (now : Z) (time : string) (ui : ChatState)
  : ChatState * option (string * string) :=
  if negb (truthy (Some (trim (message ui)))) then (ui, None)
  else
    ({| message := EmptyString;
        chatMessages :=
          chatMessages ui ++
          [{| ChatEntry.id := now; ChatEntry.text := message ui;
              ChatEntry.isUser := true; ChatEntry.timestamp := time |}];
        isTyping := true;
        currentModel := currentModel ui |},
     Some (message ui, currentModel ui)).

(** [handleSendMessage()] from the [await] on, when [sendChatMessage] has
    settled to [reply]; the state is the one of that later moment. *)
Definition handleSendMessage_receive (reply : option ChatResponse.t)
    (now : Z) (time : string) (ui : ChatState) : ChatState :=
  let added :=
    match reply with
    | Some response =>
        match ChatResponse.success response, ChatResponse.data response with
        | true, Some data =>
            [{| ChatEntry.id := now + 1;
                ChatEntry.text := ChatResponse.response data;
                ChatEntry.isUser := false; ChatEntry.timestamp := time |}]
        | _, _ => []
        end
    | None =>
        [{| ChatEntry.id := now + 1; ChatEntry.text := apology;
            ChatEntry.isUser := false; ChatEntry.timestamp := time |}]
    end in
  {| message := message ui;
     chatMessages := chatMessages ui ++ added;
     isTyping := false;
     currentModel := currentModel ui |}.

(** A text that holds [part] between two double quotes. *)
Definition quotes (whole part : string) : Prop :=
  exists before after,
    whole = String.append before (String.append (quoted part) after).


(** ** The first revision of the service

    [src/services/backend.ts] keeps three fields and uploads every
    fragment on its own as soon as it is read; there is no buffer, no
    recognizer and no timer. *)

Module Revision1.

Record BackendService := {
  mediaRecorder : option MediaRecorder;
  audioChunks : list Blob;
  currentRecordingId : option string
}.

Inductive Route :=
| RecordingStart (model : string)                 (* POST /recording/start *)
| RecordingChunk (recording_id : option string) (audio_data : Blob)
                                                  (* POST /recording/chunk *)
| RecordingStop (recording_id : option string).   (* POST /recording/stop *)

Inductive Note :=
| StartingRecordingRequest
| BackendRecordingStarted
| RequestingMicrophone
| MicrophoneGranted
| UsingMimeType (mimeType : string)
| RecorderStartedWithChunks
| FailedToStartRecording                 (* console.error *)
| RequestFailed (r : Route)              (* console.error, makeRequest *)
| ChunkReceived (size : Z)
| UploadingChunk
| ChunkUploaded
| FailedToUploadChunk                    (* console.error *)
| StoppingRecording
| RecorderStopped
| TrackStopped
| SendingStopRequest
| BackendStopResponse
| FailedToStopRecording.                 (* console.error *)

Inductive Action :=
| Say (n : Note)
| Request (r : Route)
| GetUserMedia
| NewMediaRecorder (mimeType : string)
| RecorderStart (timeslice : Z)          (* mediaRecorder.start(1000) *)
| RecorderStop                           (* mediaRecorder.stop() *)
| TrackStop                              (* track.stop() *)
| ReadAsDataURL (data : Blob).           (* reader.readAsDataURL(event.data) *)

Definition R (A : Type) : Type :=
  BackendService -> Result A * BackendService * list Action.

Definition ret {A} (a : A) : R A := fun this => (Done a, this, []).

Definition bind {A B} (m : R A) (k : A -> R B) : R B :=
  fun this =>
    match m this with
    | (Done a, this1, fx1) =>
        match k a this1 with
        | (r, this2, fx2) => (r, this2, fx1 ++ fx2)
        end
    | (Failed e, this1, fx1) => (Failed e, this1, fx1)
    end.

Definition throw {A} (e : Error) : R A := fun this => (Failed e, this, []).

Definition try_catch {A} (body : R A) (handler : Error -> R A) : R A :=
  fun this =>
    match body this with
    | (Done a, this1, fx1) => (Done a, this1, fx1)
    | (Failed e, this1, fx1) =>
        match handler e this1 with
        | (r, this2, fx2) => (r, this2, fx1 ++ fx2)
        end
    end.

Definition get : R BackendService := fun this => (Done this, this, []).
Definition put (s : BackendService) : R unit := fun _ => (Done tt, s, []).
Definition act (a : Action) : R unit := fun this => (Done tt, this, [a]).
Definition say (n : Note) : R unit := act (Say n).
Definition call (a : Action) (throws : bool) : R unit :=
  fun this =>
    (if throws then Failed (Raised DomException) else Done tt, this, [a]).

Declare Scope rev1_scope.
Delimit Scope rev1_scope with rev1.
Notation "x <- m ;; k" := (bind m (fun x => k))
  (at level 61, m at next level, right associativity) : rev1_scope.
Notation "m ;; k" := (bind m (fun _ => k))
  (at level 61, right associativity) : rev1_scope.
Local Open Scope rev1_scope.

Definition result_of {A} (r : Result A * BackendService * list Action)
  : Result A := fst (fst r).
Definition object_of {A} (r : Result A * BackendService * list Action)
  : BackendService := snd (fst r).
Definition actions_of {A} (r : Result A * BackendService * list Action)
  : list Action := snd r.

(** The object as [new BackendService()] makes it. *)
Definition initial : BackendService :=
  {| mediaRecorder := None; audioChunks := []; currentRecordingId := None |}.

(** [makeRequest], from the outcome of the fetch on. *)
Definition request_receive {T} (r : Route) (response : option T) : R T :=
  match response with
  | Some v => ret v
  | None => say (RequestFailed r) ;; throw (Raised HttpError)
  end.

(** What the environment answers during one call of [startRecording]. *)
Record StartEnv := {
  startResponse : option RecordingResponse;  (* None: the request failed *)
  microphone : option nat;     (* the tracks of the stream; None: rejected *)
  opusSupported : bool;
  newRecorder_throws : bool;
  recorderStart_throws : bool
}.

(** [startRecording(model)] *)
Definition startRecording (model : string) (env : StartEnv)
  : R RecordingResponse :=
  try_catch
    (say StartingRecordingRequest ;;
     (* Start recording on backend first *)
     act (Request (RecordingStart model)) ;;
     startResponse <- request_receive (RecordingStart model) (startResponse env) ;;
     say BackendRecordingStarted ;;
     if success startResponse && truthy (resp_recording_id startResponse) then
       this <- get ;;
       put {| mediaRecorder := mediaRecorder this;
              audioChunks := [];
              currentRecordingId := resp_recording_id startResponse |} ;;
       (* Request microphone access *)
       say RequestingMicrophone ;;
       act GetUserMedia ;;
       tracks <- match microphone env with
                 | Some n => ret n
                 | None => throw (Raised DomException)
                 end ;;
       say MicrophoneGranted ;;
       (* Set up MediaRecorder *)
       let mimeType :=
         if opusSupported env then "audio/webm;codecs=opus" else "audio/webm" in
       say (UsingMimeType mimeType) ;;
       call (NewMediaRecorder mimeType) (newRecorder_throws env) ;;
       this <- get ;;
       put {| mediaRecorder := Some {| tracks := tracks |};
              audioChunks := audioChunks this;
              currentRecordingId := currentRecordingId this |} ;;
       (* Start recording with chunks every 1 second *)
       call (RecorderStart 1000) (recorderStart_throws env) ;;
       say RecorderStartedWithChunks ;;
       ret startResponse
     else
       throw FailedToStartOnBackend)
    (fun error => say FailedToStartRecording ;; throw error).

(** [mediaRecorder.ondataavailable], with [data] for [event.data]. *)
Definition ondataavailable (data : Blob) : R unit :=
  say (ChunkReceived (size data)) ;;
  if size data >? 0 then
    this <- get ;;
    put {| mediaRecorder := mediaRecorder this;
           audioChunks := audioChunks this ++ [data];
           currentRecordingId := currentRecordingId this |} ;;
    (* Convert to base64 and send to backend *)
    act (ReadAsDataURL data)
  else ret tt.

(** [reader.onloadend] up to the fetch; [base64Data] is the text of the
    fragment that was read. *)
Definition onloadend_send (base64Data : Blob) : R unit :=
  say UploadingChunk ;;
  this <- get ;;
  act (Request (RecordingChunk (currentRecordingId this) base64Data)).

(** [reader.onloadend] from the outcome of the fetch on. *)
Definition onloadend_receive (r : Route) (ok : bool) : R unit :=
  try_catch
    (request_receive r (if ok then Some tt else None) ;;
     say ChunkUploaded)
    (fun _ => say FailedToUploadChunk).

(** What the environment answers during one call of [stopRecording]. *)
Record StopEnv := {
  recorderStop_throws : bool;
  stopResponse : option RecordingResponse     (* None: the request failed *)
}.

(** [array.forEach(f)] over [n] elements. *)
Fixpoint forEach (n : nat) (f : R unit) : R unit :=
  match n with
  | O => ret tt
  | S n' => f ;; forEach n' f
  end.

(** [stopRecording()] *)
Definition stopRecording (env : StopEnv) : R RecordingResponse :=
  try_catch
    (say StoppingRecording ;;
     this <- get ;;
     match mediaRecorder this with
     | None => throw (Raised NoActiveRecording)
     | Some recorder =>
       if negb (truthy (currentRecordingId this)) then
         throw (Raised NoActiveRecording)
       else
         (* Stop the MediaRecorder *)
         call RecorderStop (recorderStop_throws env) ;;
         say RecorderStopped ;;
         (* Stop all tracks *)
         forEach (tracks recorder) (act TrackStop ;; say TrackStopped) ;;
         (* Stop recording on backend *)
         say SendingStopRequest ;;
         act (Request (RecordingStop (currentRecordingId this))) ;;
         stopResponse <-
           request_receive (RecordingStop (currentRecordingId this))
             (stopResponse env) ;;
         say BackendStopResponse ;;
         (* Clean up *)
         this <- get ;;
         put {| mediaRecorder := None;
                audioChunks := audioChunks this;
                currentRecordingId := None |} ;;
         ret stopResponse
     end)
    (fun error => say FailedToStopRecording ;; throw error).

(** The fragments the recorder delivers, one after the other. *)
Fixpoint deliver (ds : list Blob) (this : BackendService)
  : BackendService * list Action :=
  match ds with
  | [] => (this, [])
  | d :: ds' =>
      match ondataavailable d this with
      | (_, this1, fx1) =>
          match deliver ds' this1 with
          | (this2, fx2) => (this2, fx1 ++ fx2)
          end
      end
  end.

(** The reads an action list starts, in order. *)
Fixpoint reads (fx : list Action) : list Blob :=
  match fx with
  | [] => []
  | ReadAsDataURL d :: fx' => d :: reads fx'
  | _ :: fx' => reads fx'
  end.

(** The requests an action list sends, in order. *)
Fixpoint requests_of (fx : list Action) : list Route :=
  match fx with
  | [] => []
  | Request r :: fx' => r :: requests_of fx'
  | _ :: fx' => requests_of fx'
  end.

Definition nonempty (d : Blob) : bool := size d >? 0.

End Revision1.

(** * Properties *)

(** ** Equations of the handlers *)

Ltac unfold_handlers :=
  cbv [sendAccumulatedAudio processingTick ondataavailable onresult
       onloadend_send onloadend_receive stopContinuousProcessing
       stopTranscriptionPolling makeRequest_send makeRequest_receive
       bind ret get emit console throw try_catch call
       set_audioQueue set_audioChunks set_accumulatedAudio
       set_lastProcessTime set_processingInterval
       set_transcriptionInterval set_isListening clean_up
       state_of effects_of outcome_of].

Ltac split_ifs :=
  repeat match goal with
         | |- context [if ?c then _ else _] => destruct c eqn:?
         end.

Ltac run_step :=
  unfold step, dispatch; cbn [backendService readers requests fst snd].

Lemma len_zero_iff {A} (l : list A) : (len l =? 0) = true <-> l = [].
Proof.
  unfold len. rewrite Z.eqb_eq. destruct l; cbn [List.length]; split; intro H.
  - reflexivity.
  - reflexivity.
  - lia.
  - discriminate.
Qed.

Lemma len_pos_iff {A} (l : list A) : (len l >? 0) = true <-> l <> [].
Proof.
  unfold len. rewrite Z.gtb_lt. destruct l; cbn [List.length]; split; intro H.
  - lia.
  - congruence.
  - discriminate.
  - lia.
Qed.

Lemma len_pos_false {A} (l : list A) : (len l >? 0) = false -> l = [].
Proof.
  destruct l as [|x l]; [reflexivity|].
  intro H.
  assert (Hp : (len (x :: l) >? 0) = true) by (apply len_pos_iff; discriminate).
  congruence.
Qed.

Lemma len_zero_false {A} (l : list A) : (len l =? 0) = false <-> l <> [].
Proof.
  rewrite <- len_zero_iff. destruct (len l =? 0); split; congruence.
Qed.

Lemma len_pos_is_nonzero {A} (l : list A) : (len l >? 0) = negb (len l =? 0).
Proof.
  destruct l; reflexivity.
Qed.

Lemma sendAccumulatedAudio_eq (trigger : string) (this : BackendService) :
  sendAccumulatedAudio trigger this =
  (Returned tt, this,
   if (len (accumulatedAudio this) =? 0)
      || negb (truthy (currentRecordingId this))
   then [Console NoAccumulatedAudio]
   else [Console (SendingAccumulated (len (accumulatedAudio this)) trigger);
         ReadAsDataURL (new_Blob (accumulatedAudio this)) trigger]).
Proof.
  unfold_handlers.
  destruct (_ || _); reflexivity.
Qed.

(** The flush attempts of one call of [sendAccumulatedAudio]. *)
Lemma flushes_sendAccumulatedAudio (trigger : string) (this : BackendService) :
  flushes (effects_of (sendAccumulatedAudio trigger this)) =
  if (len (accumulatedAudio this) =? 0)
     || negb (truthy (currentRecordingId this))
  then []
  else [(new_Blob (accumulatedAudio this), trigger)].
Proof.
  rewrite sendAccumulatedAudio_eq. unfold effects_of. cbn [snd].
  destruct (_ || _); reflexivity.
Qed.

Lemma onloadend_send_eq (b : Blob) (trigger : string) (this : BackendService) :
  onloadend_send b trigger this =
  (Returned tt, this,
   [Console UploadingAccumulated;
    Fetch RecordingChunk
      (ChunkB {| recording_id := currentRecordingId this;
                 audio_data := b;
                 detected_speech := trigger;
                 chunk_count := len (accumulatedAudio this) |})]).
Proof. reflexivity. Qed.

Lemma onloadend_receive_failure (this : BackendService) :
  onloadend_receive None this =
  (Returned tt, this,
   [Console (ApiRequestFailed RecordingChunk);
    Console FailedToUploadAccumulated]).
Proof. reflexivity. Qed.

Lemma onloadend_receive_success (this : BackendService) :
  accumulatedAudio (state_of (onloadend_receive (Some tt) this)) = [] /\
  audioQueue (state_of (onloadend_receive (Some tt) this)) = audioQueue this /\
  effects_of (onloadend_receive (Some tt) this) = [Console AccumulatedUploaded].
Proof. repeat split. Qed.

Lemma flushes_app (a b : list Effect) : flushes (a ++ b) = flushes a ++ flushes b.
Proof.
  induction a as [|x a IH]; [reflexivity|].
  destruct x; cbn; rewrite ?IH; reflexivity.
Qed.

Lemma uploads_app (a b : list Effect) : uploads (a ++ b) = uploads a ++ uploads b.
Proof.
  induction a as [|x a IH]; [reflexivity|].
  destruct x as [| | | | | |e body]; cbn; rewrite ?IH; try reflexivity.
  destruct e; try reflexivity. destruct body; cbn; rewrite ?IH; reflexivity.
Qed.

Lemma stop_steps_app (a b : list Effect) :
  stop_steps (a ++ b) = stop_steps a ++ stop_steps b.
Proof.
  induction a as [|x a IH]; [reflexivity|].
  destruct x as [|t| | | | |e body]; cbn; rewrite ?IH; try reflexivity.
  - destruct t; cbn; rewrite ?IH; reflexivity.
  - destruct e; cbn; rewrite ?IH; reflexivity.
Qed.

(** The tick: what it leaves in the buffer and the queue, and the flush
    it makes. *)
Lemma processingTick_buffer (now : Z) (this : BackendService) :
  accumulatedAudio (state_of (processingTick now this)) =
    accumulatedAudio this ++ audioQueue this /\
  audioQueue (state_of (processingTick now this)) = [] /\
  currentRecordingId (state_of (processingTick now this)) =
    currentRecordingId this.
Proof.
  unfold_handlers. split_ifs; cbn; repeat split.
  all: match goal with
       | H : (len (audioQueue _) >? 0) = false |- _ =>
           apply len_pos_false in H; rewrite H, ?app_nil_r; reflexivity
       end.
Qed.

Lemma processingTick_lastProcessTime (now : Z) (this : BackendService) :
  lastProcessTime (state_of (processingTick now this)) =
  if len (audioQueue this) >? 0 then now else lastProcessTime this.
Proof.
  unfold_handlers. split_ifs; reflexivity.
Qed.

Lemma processingTick_flushes (now : Z) (this : BackendService) :
  flushes (effects_of (processingTick now this)) =
  if (now - lastProcessTime this >? phraseTimeout this)
     && truthy (currentRecordingId this)
     && negb (len (accumulatedAudio this ++ audioQueue this) =? 0)
  then [(new_Blob (accumulatedAudio this ++ audioQueue this),
         if len (audioQueue this) >? 0 then "phrase_timeout" else "idle_timeout")]
  else [].
Proof.
  destruct (len (audioQueue this) >? 0) eqn:Hq.
  - assert (Hne : (len (accumulatedAudio this ++ audioQueue this) =? 0) = false).
    { apply len_zero_false. apply len_pos_iff in Hq.
      intro H. apply app_eq_nil in H. tauto. }
    rewrite Hne.
    destruct (now - lastProcessTime this >? phraseTimeout this) eqn:Ht;
      destruct (truthy (currentRecordingId this)) eqn:Hid;
      unfold_handlers; rewrite ?Hq, ?Ht; cbn; rewrite ?Hne, ?Hid; reflexivity.
  - apply len_pos_false in Hq. rewrite Hq, app_nil_r.
    destruct (now - lastProcessTime this >? phraseTimeout this) eqn:Ht;
      destruct (truthy (currentRecordingId this)) eqn:Hid;
      destruct (len (accumulatedAudio this) =? 0) eqn:Ha;
      unfold_handlers; rewrite ?Hq, ?Ht, ?len_pos_is_nonzero, ?Ha; cbn;
      rewrite ?Ha, ?Hid; reflexivity.
Qed.

Lemma ondataavailable_state (data : Blob) (this : BackendService) :
  accumulatedAudio (state_of (ondataavailable data this)) = accumulatedAudio this /\
  audioQueue (state_of (ondataavailable data this)) =
    audioQueue this ++ arrivals [DataAvailable data] /\
  currentRecordingId (state_of (ondataavailable data this)) =
    currentRecordingId this /\
  flushes (effects_of (ondataavailable data this)) = [].
Proof.
  unfold_handlers. cbn [arrivals].
  destruct (size data >? 0); cbn; rewrite ?app_nil_r; repeat split.
Qed.

Lemma onresult_eq (results : list SpeechRecognitionResult) (this : BackendService) :
  state_of (onresult results this) = this /\
  flushes (effects_of (onresult results this)) =
    if truthy (Some (trim (finalTranscript_of results)))
       && negb (len (accumulatedAudio this) =? 0)
       && truthy (currentRecordingId this)
    then [(new_Blob (accumulatedAudio this), finalTranscript_of results)]
    else [].
Proof.
  unfold onresult.
  destruct (truthy (Some (trim (finalTranscript_of results)))); [|split; reflexivity].
  unfold bind, console, emit.
  rewrite sendAccumulatedAudio_eq. unfold state_of, effects_of. cbn.
  split; [reflexivity|].
  destruct (len (accumulatedAudio this) =? 0); cbn; [reflexivity|].
  destruct (truthy (currentRecordingId this)); reflexivity.
Qed.

(** ** Steps of the event loop *)

Lemma In_remove_nth {A} (x : A) (i : nat) (l : list A) :
  In x (remove_nth i l) -> In x l.
Proof.
  revert i. induction l as [|a l IH]; intros i H.
  - destruct i; exact H.
  - destruct i as [|i].
    + right. exact H.
    + unfold remove_nth in *. cbn in H. destruct H as [H|H]; [left; exact H|].
      right. apply (IH i). exact H.
Qed.

Lemma step_currentRecordingId (w : World) (e : Event) :
  currentRecordingId (backendService (fst (step w e))) =
  currentRecordingId (backendService w).
Proof.
  destruct w as [s rd rq]. run_step.
  destruct e as [d|now|rs|i|i ok].
  - unfold_handlers. split_ifs; reflexivity.
  - destruct (processingInterval s); unfold_handlers; split_ifs; reflexivity.
  - destruct (speechRecognition s); unfold_handlers; split_ifs; reflexivity.
  - destruct (nth_error rd i) as [[b t]|]; unfold_handlers; reflexivity.
  - destruct (nth_error rq i) as [r|]; [destruct ok|]; unfold_handlers; reflexivity.
Qed.

(** A step that is not a successful upload only moves fragments forward:
    from the event to the queue, from the queue to the buffer. *)
Lemma step_buffer (w : World) (e : Event) :
  is_success e = false ->
  exists drained,
    accumulatedAudio (backendService (fst (step w e))) =
      accumulatedAudio (backendService w) ++ drained /\
    drained ++ audioQueue (backendService (fst (step w e))) =
      audioQueue (backendService w) ++ arrivals [e].
Proof.
  intro He. destruct w as [s rd rq]. run_step.
  destruct e as [d|now|rs|i|i ok].
  - exists []. destruct (ondataavailable_state d s) as (Ha & Hq & _).
    unfold state_of in *.
    destruct (ondataavailable d s) as [[o s'] fx]. cbn in *.
    rewrite Ha, Hq, app_nil_r. auto.
  - destruct (processingInterval s).
    + exists (audioQueue s). destruct (processingTick_buffer now s) as (Ha & Hq & _).
      unfold state_of in *.
      destruct (processingTick now s) as [[o s'] fx]. cbn in *.
      rewrite Ha, Hq. auto.
    + exists []. cbn. rewrite !app_nil_r. auto.
  - exists []. cbn [arrivals]. rewrite !app_nil_r.
    destruct (speechRecognition s); [|cbn; auto].
    destruct (onresult_eq rs s) as (Hs & _). unfold state_of in Hs.
    destruct (onresult rs s) as [[o s'] fx]. cbn in *. subst s'. auto.
  - exists []. cbn [arrivals]. rewrite !app_nil_r.
    destruct (nth_error rd i) as [[b t]|]; cbn; auto.
  - exists []. cbn [arrivals]. rewrite !app_nil_r.
    destruct ok; [discriminate|].
    destruct (nth_error rq i) as [r|]; cbn; auto.
Qed.

(** Whatever a step flushes is the whole buffer as the step leaves it. *)
Lemma step_flushes (w : World) (e : Event) (b : Blob) (t : string) :
  In (b, t) (flushes (snd (step w e))) ->
  b = new_Blob (accumulatedAudio (backendService (fst (step w e)))) /\
  accumulatedAudio (backendService (fst (step w e))) <> [] /\
  is_success e = false /\
  (forall now, e = Tick now -> audioQueue (backendService (fst (step w e))) = []).
Proof.
  destruct w as [s rd rq]. run_step.
  destruct e as [d|now|rs|i|i ok].
  - destruct (ondataavailable_state d s) as (_ & _ & _ & Hf).
    unfold effects_of in Hf.
    destruct (ondataavailable d s) as [[o s'] fx]. cbn in *.
    rewrite Hf. intros [].
  - destruct (processingInterval s); [|intros []].
    pose proof (processingTick_flushes now s) as Hf.
    destruct (processingTick_buffer now s) as (Ha & Hq & _).
    unfold state_of, effects_of in *.
    destruct (processingTick now s) as [[o s'] fx]. cbn in *.
    rewrite Hf, Ha.
    destruct (_ && _ && _) eqn:Hc; [|intros []].
    intros [H|[]]. inversion H; subst.
    apply andb_prop in Hc. destruct Hc as [_ Hc].
    apply negb_true_iff, len_zero_false in Hc.
    repeat split; auto.
  - destruct (speechRecognition s); [|intros []].
    destruct (onresult_eq rs s) as (Hs & Hf). unfold state_of, effects_of in *.
    destruct (onresult rs s) as [[o s'] fx]. cbn in *. subst s'.
    rewrite Hf.
    destruct (_ && _ && _) eqn:Hc; [|intros []].
    intros [H|[]]. inversion H; subst.
    apply andb_prop in Hc. destruct Hc as [Hc _].
    apply andb_prop in Hc. destruct Hc as [_ Hc].
    apply negb_true_iff, len_zero_false in Hc.
    repeat split; auto. intros now Hn. discriminate.
  - destruct (nth_error rd i) as [[b' t']|]; intros [].
  - destruct (nth_error rq i) as [r|]; [destruct ok|]; intros [].
Qed.

Lemma arrivals_app (tr1 tr2 : list Event) :
  arrivals (tr1 ++ tr2) = arrivals tr1 ++ arrivals tr2.
Proof.
  induction tr1 as [|e tr1 IH]; [reflexivity|].
  destruct e; cbn; rewrite ?IH; try reflexivity.
  destruct (size data >? 0); reflexivity.
Qed.

Lemma run_app (w : World) (tr1 tr2 : list Event) :
  run w (tr1 ++ tr2) =
  (fst (run (fst (run w tr1)) tr2),
   snd (run w tr1) ++ snd (run (fst (run w tr1)) tr2)).
Proof.
  revert w. induction tr1 as [|e tr1 IH]; intro w; cbn.
  - destruct (run w tr2); reflexivity.
  - destruct (step w e) as [w1 fx1]. rewrite IH.
    destruct (run w1 tr1) as [w2 fx2]. cbn.
    destruct (run w2 tr2) as [w3 fx3]. cbn. rewrite app_assoc. reflexivity.
Qed.

(** Over a trace in which no upload succeeds the buffer only grows, by
    the fragments that left the queue. *)
Lemma run_buffer (w : World) (tr : list Event) :
  no_success tr = true ->
  exists drained,
    accumulatedAudio (backendService (fst (run w tr))) =
      accumulatedAudio (backendService w) ++ drained /\
    drained ++ audioQueue (backendService (fst (run w tr))) =
      audioQueue (backendService w) ++ arrivals tr.
Proof.
  revert w. induction tr as [|e tr IH]; intros w Hns.
  - exists []. cbn. rewrite !app_nil_r. auto.
  - cbn in Hns. apply andb_prop in Hns. destruct Hns as [He Hns].
    apply negb_true_iff in He.
    destruct (@step_buffer w e He) as (d1 & Ha1 & Hq1).
    cbn [run]. destruct (step w e) as [w1 fx1]. cbn [fst] in *.
    destruct (IH w1 Hns) as (d2 & Ha2 & Hq2).
    destruct (run w1 tr) as [w2 fx2]. cbn [fst] in *.
    exists (d1 ++ d2). split.
    + rewrite Ha2, Ha1, app_assoc. reflexivity.
    + change (e :: tr) with ([e] ++ tr). rewrite arrivals_app.
      rewrite <- app_assoc, Hq2, !app_assoc, Hq1. reflexivity.
Qed.

Lemma run_currentRecordingId (w : World) (tr : list Event) :
  currentRecordingId (backendService (fst (run w tr))) =
  currentRecordingId (backendService w).
Proof.
  revert w. induction tr as [|e tr IH]; intro w; [reflexivity|].
  cbn [run]. pose proof (step_currentRecordingId w e) as He.
  destruct (step w e) as [w1 fx1]. cbn [fst] in *.
  specialize (IH w1). destruct (run w1 tr) as [w2 fx2]. cbn [fst] in *.
  congruence.
Qed.

(** ** The payload of a flush *)

(** C1, as stated, fails: after a flush of [fragment_a] whose upload
    fails, only [fragment_b] is delivered before the next flush, and the
    payload of that flush is [fragment_a] followed by [fragment_b], not
    the fragments delivered between the two flushes. *)
Lemma C1_counterexample :
  flushes (snd (run session first_phrase)) = [(fragment_a, "hello")] /\
  flushes (snd (run after_first_flush until_second_flush)) = [] /\
  arrivals (until_second_flush ++ [SpeechResult (phrase "world")]) = [fragment_b] /\
  ~ exact_between_flushes after_first_flush until_second_flush
      (SpeechResult (phrase "world")).
Proof.
  split; [reflexivity|]. split; [reflexivity|]. split; [reflexivity|].
  intro H.
  specialize (H (fragment_a ++ fragment_b) "world").
  assert (Hin : In (fragment_a ++ fragment_b, "world")
                  (flushes (snd (step (fst (run after_first_flush until_second_flush))
                                      (SpeechResult (phrase "world")))))).
  { vm_compute. left. reflexivity. }
  specialize (H Hin). vm_compute in H. discriminate H.
Qed.

(** C1, amended: the payload of a flush is the concatenation, in arrival
    order, of the accumulation buffer: what the buffer held when it was
    last emptied or the session started (world [w]), followed by every
    fragment delivered since ([tr], then the flushing event [e]) except
    those still waiting in the capture queue; a flush made by a tick
    leaves none waiting.  Nothing is duplicated or reordered inside a
    payload, and fragments of a flush whose upload has not succeeded are
    sent again by the next flush. *)
Theorem C1_payload_is_buffer_since_last_clear
    (w : World) (tr : list Event) (e : Event) (b : Blob) (t : string) :
  no_success tr = true ->
  In (b, t) (flushes (snd (step (fst (run w tr)) e))) ->
  exists drained queued,
    audioQueue (backendService w) ++ arrivals (tr ++ [e]) = drained ++ queued /\
    b = new_Blob (accumulatedAudio (backendService w) ++ drained) /\
    queued = audioQueue (backendService (fst (step (fst (run w tr)) e))) /\
    (forall now, e = Tick now -> queued = []).
Proof.
  intros Hns Hin.
  destruct (step_flushes _ _ _ _ Hin) as (Hb & _ & He & Hq).
  assert (Hns' : no_success (tr ++ [e]) = true).
  { unfold no_success. rewrite forallb_app. fold (no_success tr). rewrite Hns.
    cbn. rewrite He. reflexivity. }
  destruct (run_buffer w _ Hns') as (drained & Ha & Hd).
  assert (Hrun : fst (run w (tr ++ [e])) = fst (step (fst (run w tr)) e)).
  { rewrite run_app. cbn [fst run].
    destruct (step (fst (run w tr)) e) as [w1 fx1]. reflexivity. }
  rewrite Hrun in Ha, Hd.
  exists drained, (audioQueue (backendService (fst (step (fst (run w tr)) e)))).
  repeat split.
  - symmetry. exact Hd.
  - rewrite Hb, Ha. reflexivity.
  - exact Hq.
Qed.

Lemma C1_payload_witness :
  no_success [DataAvailable fragment_a; Tick 250; DataAvailable fragment_b] = true /\
  exists drained queued,
    audioQueue (backendService session)
      ++ arrivals ([DataAvailable fragment_a; Tick 250; DataAvailable fragment_b]
                   ++ [SpeechResult (phrase "hello")]) = drained ++ queued /\
    fragment_a = new_Blob (accumulatedAudio (backendService session) ++ drained) /\
    queued =
      audioQueue (backendService (fst (step
        (fst (run session [DataAvailable fragment_a; Tick 250; DataAvailable fragment_b]))
        (SpeechResult (phrase "hello"))))) /\
    (forall now, SpeechResult (phrase "hello") = Tick now -> queued = []).
Proof.
  split; [reflexivity|].
  apply (@C1_payload_is_buffer_since_last_clear session
           [DataAvailable fragment_a; Tick 250; DataAvailable fragment_b]
           (SpeechResult (phrase "hello")) fragment_a "hello").
  - reflexivity.
  - vm_compute. left. reflexivity.
Defined.

(** When its upload succeeds, a flush empties the buffer of everything,
    also of what was drained while the upload was in flight:
    [fragment_b] below is in no request and in no buffer or queue. *)
Lemma successful_upload_clears_later_fragments :
  let r := run session
             [DataAvailable fragment_a; Tick 250; SpeechResult (phrase "hello");
              LoadEnd 0; DataAvailable fragment_b; Tick 500;
              ChunkResponse 0 true] in
  map audio_data (uploads (snd r)) = [fragment_a] /\
  accumulatedAudio (backendService (fst r)) = [] /\
  audioQueue (backendService (fst r)) = [] /\
  readers (fst r) = [] /\ requests (fst r) = [].
Proof. vm_compute. repeat split. Qed.

(** ** The buffer across a flush attempt *)

(** C3, as stated, fails: a flush attempt whose upload fails leaves the
    buffer as it was. *)
Lemma C3_counterexample :
  ~ (forall (this : BackendService) (trigger : string) (ok : bool),
       accumulatedAudio (flush_then_settle trigger ok this) = []).
Proof.
  intro H.
  specialize (H (backendService after_first_flush) "phrase_timeout" false).
  vm_compute in H. discriminate H.
Qed.

(** C3, amended: the flush operation and its reader's callback leave the
    object as it is, and the payload is the whole buffer; the buffer is
    emptied, whole, when the upload has succeeded, and a failed upload
    leaves the object as it is. *)
Theorem C3_buffer_cleared_when_upload_succeeds
    (this : BackendService) (trigger : string) (b : Blob) :
  state_of (sendAccumulatedAudio trigger this) = this /\
  flushes (effects_of (sendAccumulatedAudio trigger this)) =
    (if (len (accumulatedAudio this) =? 0)
        || negb (truthy (currentRecordingId this))
     then []
     else [(new_Blob (accumulatedAudio this), trigger)]) /\
  state_of (onloadend_send b trigger this) = this /\
  accumulatedAudio (state_of (onloadend_receive (Some tt) this)) = [] /\
  state_of (onloadend_receive None this) = this /\
  accumulatedAudio (flush_then_settle trigger true this) = [] /\
  flush_then_settle trigger false this = this.
Proof.
  assert (Hs : state_of (sendAccumulatedAudio trigger this) = this).
  { rewrite sendAccumulatedAudio_eq. reflexivity. }
  split; [exact Hs|]. split; [apply flushes_sendAccumulatedAudio|].
  split; [reflexivity|]. split; [reflexivity|]. split; [reflexivity|].
  unfold flush_then_settle. rewrite Hs. split; reflexivity.
Qed.

(** ** Flushing an empty buffer *)

(** C4, as stated, fails: the flush operation is not safe to repeat.  On
    a buffer that holds [fragment_a], a flush from the speech path that
    follows one from the timeout path hands the same fragment to a second
    reader, and the next tick hands it to a third. *)
Lemma C4_counterexample :
  flushes (snd (run {| backendService := one_fragment_drained;
                       readers := []; requests := [] |}
                    [Tick 3251; SpeechResult (phrase "hello"); Tick 3501])) =
    [(fragment_a, "idle_timeout"); (fragment_a, "hello");
     (fragment_a, "idle_timeout")] /\
  ~ (forall (w : World) (now : Z) (results : list SpeechRecognitionResult),
       flushes (snd (run w [Tick now; SpeechResult results])) =
       flushes (snd (run w [Tick now]))).
Proof.
  split; [reflexivity|].
  intro H.
  specialize (H {| backendService := one_fragment_drained;
                   readers := []; requests := [] |} 3251 (phrase "hello")).
  vm_compute in H. discriminate H.
Qed.

(** C4, amended: on an empty accumulation buffer the flush operation
    returns without starting a reader or sending a request and leaves
    every field of the object as it is, whatever the other fields hold
    and however often and with whatever triggers it is invoked; so do its
    two callers: a phrase boundary leaves the object as it is and flushes
    nothing, and a tick that finds the queue empty as well does nothing
    at all.  On any buffer the flush operation returns normally and
    writes no field, however often it is invoked; it does not take the
    fragments out of the buffer, so on a buffer that is not empty, in an
    active session, every invocation hands the whole buffer to a reader
    of its own. *)
Theorem C4_flush_is_noop_on_empty_buffer_only
    (this : BackendService) (triggers : list string)
    (results : list SpeechRecognitionResult) (now : Z) :
  outcome_of (invoke_flushes triggers this) = Returned tt /\
  state_of (invoke_flushes triggers this) = this /\
  uploads (effects_of (invoke_flushes triggers this)) = [] /\
  flushes (effects_of (invoke_flushes triggers this)) =
    (if (len (accumulatedAudio this) =? 0)
        || negb (truthy (currentRecordingId this))
     then []
     else map (fun trigger => (new_Blob (accumulatedAudio this), trigger))
              triggers) /\
  (accumulatedAudio this = [] ->
   invoke_flushes triggers this =
     (Returned tt, this,
      repeat (Console NoAccumulatedAudio) (List.length triggers)) /\
   flushes (effects_of (invoke_flushes triggers this)) = [] /\
   state_of (onresult results this) = this /\
   flushes (effects_of (onresult results this)) = [] /\
   uploads (effects_of (onresult results this)) = [] /\
   (audioQueue this = [] ->
    processingTick now this = (Returned tt, this, []))).
Proof.
  assert (Hgen : exists fx,
            invoke_flushes triggers this = (Returned tt, this, fx) /\
            uploads fx = [] /\
            flushes fx =
              (if (len (accumulatedAudio this) =? 0)
                  || negb (truthy (currentRecordingId this))
               then []
               else map (fun trigger => (new_Blob (accumulatedAudio this), trigger))
                        triggers) /\
            (accumulatedAudio this = [] ->
             fx = repeat (Console NoAccumulatedAudio) (List.length triggers))).
  { induction triggers as [|trigger rest IH].
    - exists []. cbn. destruct (_ || _); repeat split; reflexivity.
    - destruct IH as (fx & Heq & Hup & Hfl & Hempty).
      cbn [invoke_flushes List.length repeat map]. unfold bind.
      rewrite sendAccumulatedAudio_eq, Heq.
      eexists. split; [reflexivity|].
      rewrite uploads_app, flushes_app, Hup, Hfl.
      destruct ((len (accumulatedAudio this) =? 0)
                || negb (truthy (currentRecordingId this))) eqn:Hc.
      + repeat split. intro He. rewrite (Hempty He). reflexivity.
      + repeat split. intro He. rewrite He in Hc. discriminate Hc. }
  destruct Hgen as (fx & Heq & Hup & Hfl & Hempty).
  rewrite Heq.
  change (outcome_of (Returned tt, this, fx)) with (Returned tt).
  change (state_of (Returned tt, this, fx)) with this.
  change (effects_of (Returned tt, this, fx)) with fx.
  split; [reflexivity|]. split; [reflexivity|]. split; [exact Hup|].
  split; [exact Hfl|].
  intro He.
  split; [rewrite (Hempty He); reflexivity|].
  split; [rewrite Hfl, He; reflexivity|].
  destruct (onresult_eq results this) as [Hs Hf].
  split; [exact Hs|]. split.
  { rewrite Hf, He. cbn. rewrite andb_false_r. reflexivity. }
  split.
  { unfold_handlers. split_ifs; reflexivity. }
  intro Hq. unfold_handlers. rewrite Hq, He. reflexivity.
Qed.

Lemma C4_flush_is_noop_on_empty_buffer_only_witness :
  accumulatedAudio (backendService session) = [] /\
  invoke_flushes ["phrase_timeout"; "hello"; "idle_timeout"] (backendService session) =
    (Returned tt, backendService session,
     repeat (Console NoAccumulatedAudio) 3) /\
  flushes (effects_of (onresult (phrase "hello") (backendService session))) = [] /\
  processingTick 250 (backendService session) =
    (Returned tt, backendService session, []) /\
  flushes (effects_of (invoke_flushes ["phrase_timeout"; "hello"]
                         one_fragment_drained)) =
    [(fragment_a, "phrase_timeout"); (fragment_a, "hello")].
Proof.
  split; [reflexivity|].
  destruct (C4_flush_is_noop_on_empty_buffer_only (backendService session)
              ["phrase_timeout"; "hello"; "idle_timeout"] (phrase "hello") 250)
    as (_ & _ & _ & _ & H).
  destruct (H eq_refl) as (H1 & _ & _ & H2 & _ & H3).
  split; [exact H1|]. split; [exact H2|]. split; [exact (H3 eq_refl)|].
  destruct (C4_flush_is_noop_on_empty_buffer_only one_fragment_drained
              ["phrase_timeout"; "hello"] (phrase "hello") 250)
    as (_ & _ & _ & H4 & _).
  rewrite H4. reflexivity.
Defined.

(** ** Stopping the session *)

Lemma forEach_const (n : nat) (f : M unit) (fx : list Effect) :
  (forall s, f s = (Returned tt, s, fx)) ->
  forall s, forEach n f s = (Returned tt, s, List.concat (repeat fx n)).
Proof.
  intros Hf. induction n as [|n IH]; intro s; [reflexivity|].
  cbn [forEach repeat List.concat]. unfold bind. rewrite Hf, IH. reflexivity.
Qed.

Lemma stop_steps_tracks (n : nat) :
  stop_steps (List.concat (repeat [TrackStop; Console AudioTrackStopped] n)) =
  repeat StopTrack n.
Proof.
  induction n as [|n IH]; [reflexivity|]. cbn. rewrite IH. reflexivity.
Qed.

Lemma flushes_tracks (n : nat) :
  flushes (List.concat (repeat [TrackStop; Console AudioTrackStopped] n)) = [].
Proof.
  induction n as [|n IH]; [reflexivity|]. cbn. exact IH.
Qed.

(** Every path through [stopRecording] of an active session, by cases on
    the fields it tests and on the answers of the environment. *)
Ltac stop_cases this env Hrec Hid :=
  let Htr := fresh "Htr" in
  destruct this as [mr chunks id ti sr il q pi acc lt pt];
  cbn [mediaRecorder currentRecordingId] in Hrec, Hid; subst mr;
  destruct env as [sthrow rthrow resp];
  cbn [mediaRecorder audioChunks currentRecordingId transcriptionInterval
       speechRecognition isListening audioQueue processingInterval
       accumulatedAudio lastProcessTime phraseTimeout
       speechStop_throws recorderStop_throws stopResponse];
  destruct resp as [resp|]; [destruct (has_transcription resp) eqn:Htr|];
  destruct pi, sr, sthrow, ti, rthrow, acc as [|a acc];
  unfold stopRecording, effects_of, outcome_of, state_of, try_catch, bind;
  cbn -[new_Blob forEach];
  repeat (first [rewrite Hid | rewrite Htr
                | erewrite forEach_const by (intro; reflexivity)];
          cbn -[new_Blob forEach repeat List.concat]).

Lemma stopRecording_steps (env : StopEnv) (this : BackendService)
    (recorder : MediaRecorder) :
  mediaRecorder this = Some recorder ->
  truthy (currentRecordingId this) = true ->
  stop_steps (effects_of (stopRecording env this)) =
    (if processingInterval this then [CancelTimer] else []) ++
    (if speechRecognition this then [StopDetector] else []) ++
    (if len (accumulatedAudio this) >? 0 then [FinalFlush] else []) ++
    (if transcriptionInterval this then [StopPolling] else []) ++
    [StopCapture] ++
    (if recorderStop_throws env then []
     else repeat StopTrack (tracks recorder) ++ [StopRequest]) /\
  flushes (effects_of (stopRecording env this)) =
    (if len (accumulatedAudio this) >? 0
     then [(new_Blob (accumulatedAudio this), "Final chunk")] else []).
Proof.
  intros Hrec Hid.
  stop_cases this env Hrec Hid.
  all: rewrite ?stop_steps_app, ?flushes_app, ?stop_steps_tracks, ?flushes_tracks.
  all: cbn [stop_steps flushes]; rewrite ?app_nil_r, <- ?app_assoc.
  all: split; reflexivity.
Qed.

Lemma stopRecording_outcome (env : StopEnv) (this : BackendService)
    (recorder : MediaRecorder) :
  mediaRecorder this = Some recorder ->
  truthy (currentRecordingId this) = true ->
  outcome_of (stopRecording env this) =
    (if recorderStop_throws env then Thrown DomException
     else match stopResponse env with
          | Some r => Returned r
          | None => Thrown HttpError
          end) /\
  mediaRecorder (state_of (stopRecording env this)) =
    (if recorderStop_throws env then Some recorder
     else match stopResponse env with
          | Some r => None
          | None => Some recorder
          end).
Proof.
  intros Hrec Hid.
  stop_cases this env Hrec Hid.
  all: split; reflexivity.
Qed.

(** Without an active recording [stopRecording] throws before any step. *)
Lemma stopRecording_no_active_recording (env : StopEnv) (this : BackendService) :
  mediaRecorder this = None \/ truthy (currentRecordingId this) = false ->
  stopRecording env this =
    (Thrown NoActiveRecording, this,
     [Console StoppingRecording; Console FailedToStopRecording]).
Proof.
  intros [H|H]; unfold stopRecording, try_catch, bind; cbn; rewrite H.
  - reflexivity.
  - destruct (mediaRecorder this); reflexivity.
Qed.

Lemma In_repeat_eq {A} (x y : A) (n : nat) : In x (repeat y n) -> x = y.
Proof.
  induction n as [|n IH]; cbn; [intros []|].
  intros [H|H]; [symmetry; exact H|exact (IH H)].
Qed.

(** C5, as stated, fails: with a fragment captured and drained, stopping
    makes one flush, and its reason is "Final chunk", not "final". *)
Lemma C5_counterexample :
  ~ (forall (env : StopEnv) (this : BackendService) (recorder : MediaRecorder),
       mediaRecorder this = Some recorder ->
       truthy (currentRecordingId this) = true ->
       accumulatedAudio this ++ audioQueue this <> [] ->
       exists payload,
         flushes (effects_of (stopRecording env this)) = [(payload, "final")]).
Proof.
  intro H.
  destruct (H quiet_env one_fragment_drained {| tracks := 1 |}) as [payload Hp].
  - reflexivity.
  - reflexivity.
  - vm_compute. discriminate.
  - vm_compute in Hp. discriminate Hp.
Qed.

(** C5, amended: stopping an active session that holds at least one
    fragment in its accumulation buffer, and none in the capture queue,
    starts exactly one flush, with reason "Final chunk" and the whole
    buffer as payload; the reader's callback, whenever it runs, sends one
    request with that payload and that reason.  The flush is made after
    the timer is cancelled and the phrase detector stopped, and before
    the polling, the capture source and its tracks are stopped and the
    stop request is sent. *)
Theorem C5_stop_flushes_the_buffer_once
    (env : StopEnv) (this : BackendService) (recorder : MediaRecorder) :
  mediaRecorder this = Some recorder ->
  truthy (currentRecordingId this) = true ->
  accumulatedAudio this <> [] ->
  audioQueue this = [] ->
  flushes (effects_of (stopRecording env this)) =
    [(new_Blob (accumulatedAudio this), "Final chunk")] /\
  (forall this',
     map (fun r => (audio_data r, detected_speech r))
         (uploads (effects_of
            (onloadend_send (new_Blob (accumulatedAudio this)) "Final chunk" this'))) =
     [(new_Blob (accumulatedAudio this), "Final chunk")]) /\
  stop_steps (effects_of (stopRecording env this)) =
    (if processingInterval this then [CancelTimer] else []) ++
    (if speechRecognition this then [StopDetector] else []) ++
    [FinalFlush] ++
    (if transcriptionInterval this then [StopPolling] else []) ++
    [StopCapture] ++
    (if recorderStop_throws env then []
     else repeat StopTrack (tracks recorder) ++ [StopRequest]) /\
  (exists before after,
     stop_steps (effects_of (stopRecording env this)) =
       before ++ FinalFlush :: after /\
     (processingInterval this = true -> In CancelTimer before) /\
     (speechRecognition this = true -> In StopDetector before) /\
     ~ In StopPolling before /\ ~ In StopCapture before /\
     ~ In StopTrack before /\ ~ In StopRequest before /\
     ~ In FinalFlush before /\
     ~ In CancelTimer after /\ ~ In StopDetector after /\
     ~ In FinalFlush after /\
     In StopCapture after).
Proof.
  intros Hrec Hid Hne _.
  destruct (stopRecording_steps env this Hrec Hid) as [Hsteps Hfl].
  apply len_pos_iff in Hne. rewrite Hne in Hsteps, Hfl.
  split; [exact Hfl|]. split; [reflexivity|]. split; [exact Hsteps|].
  exists ((if processingInterval this then [CancelTimer] else []) ++
          (if speechRecognition this then [StopDetector] else [])).
  exists ((if transcriptionInterval this then [StopPolling] else []) ++
          [StopCapture] ++
          (if recorderStop_throws env then []
           else repeat StopTrack (tracks recorder) ++ [StopRequest])).
  split; [rewrite Hsteps, <- app_assoc; reflexivity|].
  split; [intro H; rewrite H; left; reflexivity|].
  split; [intro H; rewrite H; apply in_or_app; right; left; reflexivity|].
  repeat split.
  1-5: destruct (processingInterval this), (speechRecognition this); cbn;
       intuition discriminate.
  1-3: destruct (transcriptionInterval this), (recorderStop_throws env); cbn;
       rewrite ?in_app_iff; cbn; intros Hin;
       repeat match goal with
              | H : _ \/ _ |- _ => destruct H
              | H : In _ (repeat _ _) |- _ => apply In_repeat_eq in H
              end; try discriminate; try contradiction.
  destruct (transcriptionInterval this); cbn; auto.
Qed.

Lemma C5_stop_flushes_the_buffer_once_witness :
  mediaRecorder one_fragment_drained = Some {| tracks := 1 |} /\
  truthy (currentRecordingId one_fragment_drained) = true /\
  accumulatedAudio one_fragment_drained <> [] /\
  audioQueue one_fragment_drained = [] /\
  flushes (effects_of (stopRecording quiet_env one_fragment_drained)) =
    [(fragment_a, "Final chunk")] /\
  stop_steps (effects_of (stopRecording quiet_env one_fragment_drained)) =
    [CancelTimer; StopDetector; FinalFlush; StopPolling; StopCapture;
     StopTrack; StopRequest].
Proof.
  assert (Hne : accumulatedAudio one_fragment_drained <> [])
    by (vm_compute; discriminate).
  split; [reflexivity|]. split; [reflexivity|]. split; [exact Hne|].
  split; [reflexivity|].
  destruct (@C5_stop_flushes_the_buffer_once quiet_env one_fragment_drained
              {| tracks := 1 |} eq_refl eq_refl Hne eq_refl) as (Hfl & _ & Hst & _).
  split; [exact Hfl|]. rewrite Hst. reflexivity.
Defined.

(** A fragment still in the capture queue when the session is stopped is
    in no flush, and the clean-up empties the queue. *)
Lemma stop_discards_queued_fragments :
  audioQueue one_fragment_queued = [fragment_a] /\
  flushes (effects_of (stopRecording quiet_env one_fragment_queued)) = [] /\
  audioQueue (state_of (stopRecording quiet_env one_fragment_queued)) = [] /\
  accumulatedAudio (state_of (stopRecording quiet_env one_fragment_queued)) = [].
Proof. vm_compute. repeat split. Qed.

(** C8, as stated, fails: the capture source is stopped after the phrase
    detector and after the final flush, not before them. *)
Lemma C8_counterexample :
  ~ claimed_stop_order
      (stop_steps (effects_of (stopRecording quiet_env one_fragment_drained))).
Proof.
  unfold claimed_stop_order. vm_compute. discriminate.
Qed.

(** C8, amended: stopping an active session cancels the periodic timer,
    stops the phrase detector, makes the final flush, stops the
    transcription polling and then stops the capture source, in that
    order.  A throw of the phrase detector's stop is caught, and the
    later steps are the same with it or without it.  The other steps
    share one [try] block: when the capture source's stop throws, the
    tracks are not stopped, no stop request is sent, the fields are not
    cleaned up, and the exception reaches the caller. *)
Theorem C8_stop_order_and_short_circuit
    (env : StopEnv) (this : BackendService) (recorder : MediaRecorder) :
  mediaRecorder this = Some recorder ->
  truthy (currentRecordingId this) = true ->
  processingInterval this = true ->
  speechRecognition this = true ->
  accumulatedAudio this <> [] ->
  stop_steps (effects_of (stopRecording env this)) =
    [CancelTimer; StopDetector; FinalFlush] ++
    (if transcriptionInterval this then [StopPolling] else []) ++
    [StopCapture] ++
    (if recorderStop_throws env then []
     else repeat StopTrack (tracks recorder) ++ [StopRequest]) /\
  (recorderStop_throws env = true ->
   outcome_of (stopRecording env this) = Thrown DomException /\
   mediaRecorder (state_of (stopRecording env this)) = Some recorder /\
   ~ In StopTrack (stop_steps (effects_of (stopRecording env this))) /\
   ~ In StopRequest (stop_steps (effects_of (stopRecording env this)))).
Proof.
  intros Hrec Hid Hpi Hsr Hne.
  destruct (stopRecording_steps env this Hrec Hid) as [Hsteps _].
  destruct (stopRecording_outcome env this Hrec Hid) as [Hout Hst].
  apply len_pos_iff in Hne. rewrite Hpi, Hsr, Hne in Hsteps.
  split; [exact Hsteps|].
  intro Hthrow. rewrite Hthrow in *.
  rewrite Hsteps.
  repeat split; auto.
  all: destruct (transcriptionInterval this); cbn; intuition discriminate.
Qed.

Lemma C8_stop_order_and_short_circuit_witness :
  mediaRecorder one_fragment_drained = Some {| tracks := 1 |} /\
  truthy (currentRecordingId one_fragment_drained) = true /\
  processingInterval one_fragment_drained = true /\
  speechRecognition one_fragment_drained = true /\
  accumulatedAudio one_fragment_drained <> [] /\
  stop_steps (effects_of (stopRecording failing_recorder_env one_fragment_drained)) =
    [CancelTimer; StopDetector; FinalFlush; StopPolling; StopCapture] /\
  outcome_of (stopRecording failing_recorder_env one_fragment_drained) =
    Thrown DomException.
Proof.
  assert (Hne : accumulatedAudio one_fragment_drained <> [])
    by (vm_compute; discriminate).
  do 4 (split; [reflexivity|]). split; [exact Hne|].
  destruct (@C8_stop_order_and_short_circuit failing_recorder_env
              one_fragment_drained {| tracks := 1 |}
              eq_refl eq_refl eq_refl eq_refl Hne) as [Hsteps Hthrow].
  split; [exact Hsteps|].
  destruct (Hthrow eq_refl) as [Hout _]. exact Hout.
Defined.

(** ** The flush of a phrase boundary *)

(** C6, as stated, fails: the request of a flush made by a phrase
    boundary carries the transcript of the phrase in its trigger-reason
    field. *)
Lemma C6_counterexample :
  ~ (forall (results : list SpeechRecognitionResult) (this : BackendService)
            (body : ChunkBody),
       In body (speech_flush_uploads results this) ->
       detected_speech body = "speech_detected").
Proof.
  intro H.
  specialize (H (phrase "hello") two_fragments_drained
                {| recording_id := Some "rec-1";
                   audio_data := fragment_a ++ fragment_b;
                   detected_speech := "hello";
                   chunk_count := 2 |}).
  assert (Hin : In {| recording_id := Some "rec-1";
                      audio_data := fragment_a ++ fragment_b;
                      detected_speech := "hello";
                      chunk_count := 2 |}
                   (speech_flush_uploads (phrase "hello") two_fragments_drained)).
  { vm_compute. left. reflexivity. }
  specialize (H Hin). discriminate H.
Qed.

(** C6, amended: a phrase-boundary event whose final transcript is not
    blank, arriving while the accumulation buffer is not empty and a
    recording is active, makes one flush, whatever time has elapsed; its
    payload is the whole accumulation buffer and the trigger-reason field
    of its request is the final transcript of the event.  Otherwise the
    event makes no flush. *)
Theorem C6_speech_flush_carries_transcript
    (results : list SpeechRecognitionResult) (this : BackendService) :
  speech_flush_uploads results this =
    if truthy (Some (trim (finalTranscript_of results)))
       && negb (len (accumulatedAudio this) =? 0)
       && truthy (currentRecordingId this)
    then [{| recording_id := currentRecordingId this;
             audio_data := new_Blob (accumulatedAudio this);
             detected_speech := finalTranscript_of results;
             chunk_count := len (accumulatedAudio this) |}]
    else [].
Proof.
  unfold speech_flush_uploads.
  destruct (onresult_eq results this) as [Hs Hf]. rewrite Hs, Hf.
  destruct (_ && _ && _); reflexivity.
Qed.

(** ** The timeout of the tick *)

(** C7, as stated, fails, in both directions.  With fragments arriving
    at every tick, the tick at 3250 ms finds a buffer that is not empty
    and no flush since the session started at 0 ms, and it does not
    flush.  After a silence, the tick at 3500 ms makes the idle flush;
    the tick at 3750 ms, 250 ms after that flush, flushes again. *)
Lemma C7_counterexample :
  ~ flush_iff_elapsed_since_last_flush 0 session steady_until_3250 3250 /\
  last_flush 0 session silence_then_arrival = 3500 /\
  ~ flush_iff_elapsed_since_last_flush 0 session silence_then_arrival 3750.
Proof.
  unfold flush_iff_elapsed_since_last_flush. split; [|split].
  - intro H.
    assert (Hne : accumulatedAudio (backendService (fst (run session steady_until_3250)))
                  ++ audioQueue (backendService (fst (run session steady_until_3250)))
                  <> []) by (vm_compute; discriminate).
    destruct (H Hne) as [_ Hflush].
    apply Hflush; vm_compute; reflexivity.
  - vm_compute. reflexivity.
  - intro H.
    assert (Hne : accumulatedAudio (backendService (fst (run session silence_then_arrival)))
                  ++ audioQueue (backendService (fst (run session silence_then_arrival)))
                  <> []) by (vm_compute; discriminate).
    destruct (H Hne) as [Helapsed _].
    assert (Hfl : flushes (snd (step (fst (run session silence_then_arrival))
                                     (Tick 3750))) <> [])
      by (vm_compute; discriminate).
    specialize (Helapsed Hfl). vm_compute in Helapsed. discriminate Helapsed.
Qed.

(** C7, amended: on a tick of an active session that finds the buffer not
    empty once the queue is drained, a flush is made exactly when the
    time since the stored [lastProcessTime], which is not the time of the
    last flush, exceeds the phrase timeout; its payload
    is the buffer with the drained fragments and its reason is
    "phrase_timeout" when the tick drained fragments and "idle_timeout"
    when the queue was empty. *)
Theorem C7_tick_flushes_when_lastProcessTime_is_old
    (now : Z) (this : BackendService) :
  truthy (currentRecordingId this) = true ->
  accumulatedAudio this ++ audioQueue this <> [] ->
  flushes (effects_of (processingTick now this)) =
    if now - lastProcessTime this >? phraseTimeout this
    then [(new_Blob (accumulatedAudio this ++ audioQueue this),
           if len (audioQueue this) >? 0 then "phrase_timeout" else "idle_timeout")]
    else [].
Proof.
  intros Hid Hne.
  rewrite processingTick_flushes, Hid.
  apply len_zero_false in Hne. rewrite Hne.
  destruct (now - lastProcessTime this >? phraseTimeout this); reflexivity.
Qed.

Lemma C7_tick_flushes_witness :
  truthy (currentRecordingId two_fragments_drained) = true /\
  accumulatedAudio two_fragments_drained ++ audioQueue two_fragments_drained <> [] /\
  flushes (effects_of (processingTick 3501 two_fragments_drained)) =
    [(fragment_a ++ fragment_b, "idle_timeout")].
Proof.
  assert (Hne : accumulatedAudio two_fragments_drained
                ++ audioQueue two_fragments_drained <> [])
    by (vm_compute; discriminate).
  split; [reflexivity|]. split; [exact Hne|].
  rewrite (@C7_tick_flushes_when_lastProcessTime_is_old 3501
             two_fragments_drained eq_refl Hne).
  reflexivity.
Defined.

(** [lastProcessTime] is the time of the last tick that drained
    fragments: such a tick sets it, whether it flushed or not, and a tick
    that finds the queue empty leaves it, also when it flushes. *)
Lemma tick_sets_lastProcessTime_on_drain (now : Z) (this : BackendService) :
  lastProcessTime (state_of (processingTick now this)) =
  if len (audioQueue this) >? 0 then now else lastProcessTime this.
Proof. apply processingTick_lastProcessTime. Qed.

(** ** Steady arrival *)

Lemma size_fragment (k : nat) : (size (fragment k) >? 0) = true.
Proof. reflexivity. Qed.

Lemma ondataavailable_fields (data : Blob) (this : BackendService) :
  processingInterval (state_of (ondataavailable data this)) = processingInterval this /\
  lastProcessTime (state_of (ondataavailable data this)) = lastProcessTime this /\
  phraseTimeout (state_of (ondataavailable data this)) = phraseTimeout this /\
  uploads (effects_of (ondataavailable data this)) = [].
Proof.
  unfold_handlers. destruct (size data >? 0); repeat split.
Qed.

Lemma processingTick_fields (now : Z) (this : BackendService) :
  processingInterval (state_of (processingTick now this)) = processingInterval this /\
  phraseTimeout (state_of (processingTick now this)) = phraseTimeout this /\
  uploads (effects_of (processingTick now this)) = [].
Proof.
  unfold_handlers. split_ifs; repeat split.
Qed.

Lemma step_DataAvailable (w : World) (data : Blob) :
  step w (DataAvailable data) =
  ({| backendService := state_of (ondataavailable data (backendService w));
      readers := readers w;
      requests := requests w |},
   effects_of (ondataavailable data (backendService w))).
Proof.
  unfold step, dispatch.
  destruct (ondataavailable_state data (backendService w)) as (_ & _ & _ & Hf).
  destruct (ondataavailable_fields data (backendService w)) as (_ & _ & _ & Hu).
  unfold state_of, effects_of in *.
  destruct (ondataavailable data (backendService w)) as [[o s'] fx].
  cbn [fst snd] in *. rewrite Hf, Hu, !app_nil_r. reflexivity.
Qed.

Lemma step_Tick (w : World) (now : Z) :
  processingInterval (backendService w) = true ->
  step w (Tick now) =
  ({| backendService := state_of (processingTick now (backendService w));
      readers := readers w ++ flushes (effects_of (processingTick now (backendService w)));
      requests := requests w |},
   effects_of (processingTick now (backendService w))).
Proof.
  intro Hpi. unfold step, dispatch. rewrite Hpi.
  destruct (processingTick_fields now (backendService w)) as (_ & _ & Hu).
  unfold state_of, effects_of in *.
  destruct (processingTick now (backendService w)) as [[o s'] fx].
  cbn [fst snd] in *. rewrite Hu, !app_nil_r. reflexivity.
Qed.

Lemma steady_pair (w : World) (k : nat) (t0 : Z) :
  processingInterval (backendService w) = true ->
  lastProcessTime (backendService w) = t0 ->
  250 <= phraseTimeout (backendService w) ->
  flushes (snd (run w [DataAvailable (fragment k); Tick (t0 + 250)])) = [] /\
  accumulatedAudio (backendService (fst (run w [DataAvailable (fragment k); Tick (t0 + 250)]))) =
    accumulatedAudio (backendService w) ++ audioQueue (backendService w)
    ++ [fragment k] /\
  audioQueue (backendService (fst (run w [DataAvailable (fragment k); Tick (t0 + 250)]))) = [] /\
  processingInterval (backendService (fst (run w [DataAvailable (fragment k); Tick (t0 + 250)]))) = true /\
  lastProcessTime (backendService (fst (run w [DataAvailable (fragment k); Tick (t0 + 250)]))) = t0 + 250 /\
  phraseTimeout (backendService (fst (run w [DataAvailable (fragment k); Tick (t0 + 250)]))) =
    phraseTimeout (backendService w).
Proof.
  intros Hpi Hlt Hpt.
  destruct (ondataavailable_state (fragment k) (backendService w)) as (Ha1 & Hq1 & _ & Hf1).
  destruct (ondataavailable_fields (fragment k) (backendService w)) as (Hpi1 & Hlt1 & Hpt1 & _).
  cbn [arrivals] in Hq1. rewrite size_fragment in Hq1.
  set (s1 := state_of (ondataavailable (fragment k) (backendService w))) in *.
  destruct (processingTick_buffer (t0 + 250) s1) as (Ha2 & Hq2 & _).
  destruct (processingTick_fields (t0 + 250) s1) as (Hpi2 & Hpt2 & _).
  pose proof (processingTick_flushes (t0 + 250) s1) as Hf2.
  pose proof (processingTick_lastProcessTime (t0 + 250) s1) as Hlt2.
  assert (Hgt : (t0 + 250 - lastProcessTime s1 >? phraseTimeout s1) = false).
  { apply not_true_is_false. rewrite Z.gtb_lt. lia. }
  assert (Hlen : (len (audioQueue s1) >? 0) = true).
  { apply len_pos_iff. rewrite Hq1. intro H. apply app_eq_nil in H.
    destruct H as [_ H]. discriminate H. }
  rewrite Hgt in Hf2. cbn [andb] in Hf2. rewrite Hlen in Hlt2.
  cbn [run]. rewrite step_DataAvailable. fold s1.
  rewrite step_Tick by (cbn [backendService]; congruence).
  cbn [backendService fst snd]. rewrite app_nil_r, flushes_app, Hf1, Hf2.
  rewrite Ha2, Ha1, Hq1, Hq2, Hpi2, Hpi1, Hlt2, Hpt2, Hpt1.
  repeat split; auto.
Qed.

(** While a fragment arrives before every tick and the ticks are 250 ms
    apart, no tick flushes, however long this lasts: each draining tick
    moves [lastProcessTime] to its own time. *)
Lemma steady_never_flushes (n k : nat) (t0 : Z) (w : World) :
  processingInterval (backendService w) = true ->
  lastProcessTime (backendService w) = t0 ->
  250 <= phraseTimeout (backendService w) ->
  flushes (snd (run w (steady n k t0))) = [] /\
  accumulatedAudio (backendService (fst (run w (steady n k t0))))
    ++ audioQueue (backendService (fst (run w (steady n k t0)))) =
    accumulatedAudio (backendService w) ++ audioQueue (backendService w)
    ++ map fragment (seq k n).
Proof.
  revert k t0 w. induction n as [|n IH]; intros k t0 w Hpi Hlt Hpt.
  - cbn. rewrite app_nil_r. split; reflexivity.
  - change (steady (S n) k t0)
      with ([DataAvailable (fragment k); Tick (t0 + 250)]
            ++ steady n (S k) (t0 + 250)).
    rewrite run_app. cbn [fst snd].
    destruct (steady_pair w k Hpi Hlt Hpt) as (Hf & Ha & Hq & Hpi' & Hlt' & Hpt').
    set (w1 := fst (run w [DataAvailable (fragment k); Tick (t0 + 250)])) in *.
    destruct (IH (S k) (t0 + 250) w1 Hpi' Hlt') as [Hf2 Ha2]; [lia|].
    rewrite flushes_app, Hf, Hf2, Ha2, Ha, Hq.
    cbn [seq map]. rewrite app_nil_r, <- !app_assoc. split; reflexivity.
Qed.

(** C2: at the scenario of the claim, twelve fragments 250 ms apart over
    3 s with a tick after each and no phrase boundary, the code makes no
    flush and sends no request; the twelve fragments stay in the
    accumulation buffer.  Steady arrival never lets the timeout of a tick
    elapse. *)
Theorem C2_steady_arrival_makes_no_flush :
  flushes (snd (run session (steady 12 0 0))) = [] /\
  uploads (snd (run session (steady 12 0 0))) = [] /\
  accumulatedAudio (backendService (fst (run session (steady 12 0 0)))) =
    map fragment (seq 0 12) /\
  (forall n, flushes (snd (run session (steady n 0 0))) = []).
Proof.
  split; [reflexivity|]. split; [reflexivity|]. split; [reflexivity|].
  intro n.
  destruct (@steady_never_flushes n 0%nat 0 session) as [Hf _];
    [reflexivity|reflexivity|cbn; lia|exact Hf].
Qed.

(** ** A failed upload *)

Lemma held_grows (this this' : BackendService) (payload : Blob) :
  (exists drained, accumulatedAudio this' = accumulatedAudio this ++ drained) ->
  held this payload -> held this' payload.
Proof.
  intros [drained Hd] (parts & newer & Hne & Ha & Hp).
  exists parts, (newer ++ drained). repeat split; auto.
  rewrite Hd, Ha, app_assoc. reflexivity.
Qed.

(** The work in flight after a step is the work in flight before it, the
    readers the step has started, and the requests of the readers it has
    finished. *)
Lemma step_inflight (w : World) (e : Event) :
  (forall b t, In (b, t) (readers (fst (step w e))) ->
               In (b, t) (readers w) \/ In (b, t) (flushes (snd (step w e)))) /\
  (forall req, In req (requests (fst (step w e))) ->
               In req (requests w) \/
               exists t, In (audio_data req, t) (readers w)).
Proof.
  destruct e as [d|now|rs|i|i ok].
  - rewrite step_DataAvailable. cbn [fst snd readers requests]. auto.
  - destruct (processingInterval (backendService w)) eqn:Hpi.
    + rewrite step_Tick by exact Hpi. cbn [fst snd readers requests].
      split; [|auto]. intros b t H. apply in_app_or in H. exact H.
    + unfold step, dispatch. rewrite Hpi. cbn. rewrite !app_nil_r. auto.
  - unfold step, dispatch.
    destruct (speechRecognition (backendService w)).
    + destruct (onresult_eq rs (backendService w)) as [Hs Hf].
      assert (Hu : uploads (effects_of (onresult rs (backendService w))) = []).
      { unfold_handlers. split_ifs; reflexivity. }
      unfold state_of, effects_of in *.
      destruct (onresult rs (backendService w)) as [[o s'] fx].
      cbn [fst snd readers requests] in *. rewrite Hu, app_nil_r.
      split; [|auto]. intros b t H. apply in_app_or in H. exact H.
    + cbn. rewrite !app_nil_r. auto.
  - unfold step, dispatch.
    destruct (nth_error (readers w) i) as [[b' t']|] eqn:Hi.
    + rewrite onloadend_send_eq. cbn [fst snd readers requests flushes uploads].
      rewrite app_nil_r. split.
      * intros b t H. left. eapply In_remove_nth. exact H.
      * intros req H. apply in_app_or in H. destruct H as [H|[H|[]]]; [auto|].
        right. exists t'. subst req. cbn [audio_data].
        eapply nth_error_In. exact Hi.
    + cbn. rewrite !app_nil_r. auto.
  - unfold step, dispatch.
    destruct (nth_error (requests w) i) as [r|].
    + destruct ok; cbn; rewrite !app_nil_r; split; auto;
        intros req H; left; eapply In_remove_nth; exact H.
    + cbn. rewrite !app_nil_r. auto.
Qed.

Lemma step_retained (w : World) (e : Event) :
  is_success e = false -> retained w -> retained (fst (step w e)).
Proof.
  intros He [Hrd Hrq].
  destruct (@step_buffer w e He) as (drained & Ha & _).
  destruct (step_inflight w e) as [Hrd' Hrq'].
  assert (Hgrow : exists d,
             accumulatedAudio (backendService (fst (step w e))) =
             accumulatedAudio (backendService w) ++ d) by (exists drained; exact Ha).
  split.
  - intros b t H. destruct (Hrd' b t H) as [Hold|Hnew].
    + eapply held_grows; [exact Hgrow|]. eapply Hrd. exact Hold.
    + destruct (step_flushes _ _ _ _ Hnew) as (Hb & Hne & _).
      exists (accumulatedAudio (backendService (fst (step w e)))), [].
      rewrite app_nil_r. auto.
  - intros req H. destruct (Hrq' req H) as [Hold|[t Hnew]].
    + eapply held_grows; [exact Hgrow|]. apply Hrq. exact Hold.
    + eapply held_grows; [exact Hgrow|]. eapply Hrd. exact Hnew.
Qed.

Lemma run_retained (w : World) (tr : list Event) :
  no_success tr = true -> retained w -> retained (fst (run w tr)).
Proof.
  revert w. induction tr as [|e tr IH]; intros w Hns Hw; [exact Hw|].
  cbn in Hns. apply andb_prop in Hns. destruct Hns as [He Hns].
  apply negb_true_iff in He.
  pose proof (@step_retained w e He Hw) as H1.
  cbn [run]. destruct (step w e) as [w1 fx1]. cbn [fst] in *.
  specialize (IH w1 Hns H1). destruct (run w1 tr) as [w2 fx2]. exact IH.
Qed.

(** A failed upload is not fatal, in any world: the failure is logged and
    nothing else happens.  Every field of the object is as before, no
    reader is started and no request is sent, so nothing retries. *)
Lemma upload_failure_changes_nothing (w : World) (i : nat) (req : ChunkBody) :
  nth_error (requests w) i = Some req ->
  step w (ChunkResponse i false) =
    ({| backendService := backendService w;
        readers := readers w;
        requests := remove_nth i (requests w) |},
     [Console (ApiRequestFailed RecordingChunk);
      Console FailedToUploadAccumulated]).
Proof.
  intro Hi. unfold step, dispatch. rewrite Hi, onloadend_receive_failure.
  cbn [flushes uploads]. rewrite !app_nil_r. reflexivity.
Qed.

(** As long as no upload has succeeded, a failed payload is kept: the
    fragments of the failed payload are still at the head of the buffer,
    fragments keep accumulating behind them, and the next flush, whatever
    triggers it, sends the whole buffer, failed fragments first. *)
Lemma failed_payload_is_held_without_success
    (w : World) (tr : list Event) (i : nat) (req : ChunkBody) :
  readers w = [] -> requests w = [] ->
  no_success tr = true ->
  nth_error (requests (fst (run w tr))) i = Some req ->
  backendService (fst (step (fst (run w tr)) (ChunkResponse i false))) =
    backendService (fst (run w tr)) /\
  snd (step (fst (run w tr)) (ChunkResponse i false)) =
    [Console (ApiRequestFailed RecordingChunk);
     Console FailedToUploadAccumulated] /\
  readers (fst (step (fst (run w tr)) (ChunkResponse i false))) =
    readers (fst (run w tr)) /\
  requests (fst (step (fst (run w tr)) (ChunkResponse i false))) =
    remove_nth i (requests (fst (run w tr))) /\
  held (backendService (fst (step (fst (run w tr)) (ChunkResponse i false))))
       (audio_data req) /\
  (forall data now,
     (size data >? 0) = true ->
     processingInterval (backendService (fst (run w tr))) = true ->
     accumulatedAudio (backendService (fst (run
       (fst (step (fst (run w tr)) (ChunkResponse i false)))
       [DataAvailable data; Tick now]))) =
     accumulatedAudio (backendService (fst (run w tr)))
       ++ audioQueue (backendService (fst (run w tr))) ++ [data]) /\
  (forall trigger,
     truthy (currentRecordingId (backendService w)) = true ->
     flushes (effects_of (sendAccumulatedAudio trigger
       (backendService (fst (step (fst (run w tr)) (ChunkResponse i false)))))) =
     [(new_Blob (accumulatedAudio (backendService (fst (run w tr)))), trigger)]).
Proof.
  intros Hrd Hrq Hns Hi.
  assert (Hret : retained (fst (run w tr))).
  { apply run_retained; [exact Hns|].
    split; [rewrite Hrd|rewrite Hrq]; intros; contradiction. }
  pose proof (run_currentRecordingId w tr) as Hid.
  set (w1 := fst (run w tr)) in *.
  assert (Hstep : step w1 (ChunkResponse i false) =
                  ({| backendService := backendService w1;
                      readers := readers w1;
                      requests := remove_nth i (requests w1) |},
                   [Console (ApiRequestFailed RecordingChunk);
                    Console FailedToUploadAccumulated])).
  { unfold step, dispatch. rewrite Hi, onloadend_receive_failure.
    cbn [flushes uploads]. rewrite !app_nil_r. reflexivity. }
  assert (Hheld : held (backendService w1) (audio_data req)).
  { destruct Hret as [_ Hreq]. apply Hreq. eapply nth_error_In. exact Hi. }
  rewrite Hstep. cbn [fst snd backendService readers requests].
  repeat split; auto.
  - intros data now Hsz Hpi.
    cbn [run]. rewrite step_DataAvailable.
    cbn [backendService readers requests].
    destruct (ondataavailable_state data (backendService w1)) as (Ha1 & Hq1 & _).
    destruct (ondataavailable_fields data (backendService w1)) as (Hpi1 & _).
    cbn [arrivals] in Hq1. rewrite Hsz in Hq1.
    rewrite step_Tick by (cbn [backendService]; congruence).
    cbn [backendService fst].
    destruct (processingTick_buffer now
                (state_of (ondataavailable data (backendService w1)))) as (Ha2 & _).
    rewrite Ha2, Ha1, Hq1. reflexivity.
  - intros trigger Htruthy.
    rewrite flushes_sendAccumulatedAudio, Hid, Htruthy.
    destruct Hheld as (parts & newer & Hne & Ha & _).
    assert (Hlen : (len (accumulatedAudio (backendService w1)) =? 0) = false).
    { apply len_zero_false. rewrite Ha. intro H. apply app_eq_nil in H.
      destruct H as [H _]. contradiction. }
    rewrite Hlen. reflexivity.
Qed.

Lemma failed_payload_is_held_example :
  readers session = [] /\ requests session = [] /\
  no_success first_upload_sent = true /\
  nth_error (requests (fst (run session first_upload_sent))) 0 = Some first_upload /\
  backendService (fst (step (fst (run session first_upload_sent))
                            (ChunkResponse 0 false))) =
    backendService (fst (run session first_upload_sent)) /\
  held (backendService (fst (step (fst (run session first_upload_sent))
                                  (ChunkResponse 0 false))))
       (audio_data first_upload).
Proof.
  do 4 (split; [reflexivity|]).
  destruct (@failed_payload_is_held_without_success session first_upload_sent 0%nat
              first_upload eq_refl eq_refl eq_refl eq_refl)
    as (Hsame & _ & _ & _ & Hheld & _).
  split; [exact Hsame|exact Hheld].
Qed.

(** With the buffer and the queue empty, an event that delivers no
    fragment flushes nothing and leaves both empty. *)
Lemma empty_stays_empty (w : World) (e : Event) :
  accumulatedAudio (backendService w) = [] ->
  audioQueue (backendService w) = [] ->
  arrivals [e] = [] ->
  flushes (snd (step w e)) = [] /\
  accumulatedAudio (backendService (fst (step w e))) = [] /\
  audioQueue (backendService (fst (step w e))) = [].
Proof.
  intros Ha Hq Harr.
  assert (Hstate : accumulatedAudio (backendService (fst (step w e))) = [] /\
                   audioQueue (backendService (fst (step w e))) = []).
  { destruct (is_success e) eqn:He.
    - destruct e as [d|now|rs|i|i ok]; try discriminate He.
      destruct ok; [|discriminate He].
      destruct w as [this rd rq]. cbn [backendService] in Ha, Hq. run_step.
      destruct (nth_error rq i) as [r|]; [|split; assumption].
      split; [reflexivity|exact Hq].
    - destruct (@step_buffer w e He) as (drained & Hb & Hd).
      rewrite Ha in Hb. rewrite Hq, Harr in Hd. cbn in Hb, Hd.
      apply app_eq_nil in Hd. destruct Hd as [Hd1 Hd2].
      rewrite Hb, Hd1, Hd2. split; reflexivity. }
  split; [|exact Hstate].
  destruct (flushes (snd (step w e))) as [|[b t] rest] eqn:Hfl; [reflexivity|].
  destruct (@step_flushes w e b t) as (_ & Hne & _).
  { rewrite Hfl. left. reflexivity. }
  destruct Hstate as [Hs _]. contradiction.
Qed.

(** C9: two uploads overlap, and the one that fails is not retried.  A
    phrase boundary flushes [fragment_a]; [fragment_b] arrives and a
    second phrase boundary flushes both; the first request is answered
    with success, the second fails.  The failure is logged and changes
    nothing, but the success before it has emptied the whole buffer,
    [fragment_b] included: the failed payload is no longer held, the
    next flush finds nothing to send, from the timeout path or from the
    speech path, and [fragment_b] has reached the backend in no request
    that succeeded. *)
Theorem C9_failed_upload_is_dropped_after_an_overlap :
  let before := run session overlapping_uploads in
  let after := step (fst before) (ChunkResponse 0 false) in
  uploads (snd before) =
    [{| recording_id := Some "rec-1"; audio_data := fragment_a;
        detected_speech := "one"; chunk_count := 1 |};
     {| recording_id := Some "rec-1"; audio_data := fragment_a ++ fragment_b;
        detected_speech := "one two"; chunk_count := 2 |}] /\
  requests (fst before) =
    [{| recording_id := Some "rec-1"; audio_data := fragment_a ++ fragment_b;
        detected_speech := "one two"; chunk_count := 2 |}] /\
  snd after = [Console (ApiRequestFailed RecordingChunk);
               Console FailedToUploadAccumulated] /\
  backendService (fst after) = backendService (fst before) /\
  readers (fst after) = [] /\ requests (fst after) = [] /\
  accumulatedAudio (backendService (fst after)) = [] /\
  audioQueue (backendService (fst after)) = [] /\
  (forall trigger,
     flushes (effects_of (sendAccumulatedAudio trigger (backendService (fst after)))) =
       []) /\
  (forall now results,
     flushes (snd (run (fst after) [Tick now; SpeechResult results])) = []).
Proof.
  cbv zeta.
  do 8 (split; [vm_compute; reflexivity|]).
  split.
  - intro trigger. rewrite flushes_sendAccumulatedAudio.
    assert (Ha : accumulatedAudio
                   (backendService (fst (step (fst (run session overlapping_uploads))
                                              (ChunkResponse 0 false)))) = [])
      by (vm_compute; reflexivity).
    rewrite Ha. reflexivity.
  - intros now results.
    remember (fst (step (fst (run session overlapping_uploads))
                        (ChunkResponse 0 false))) as w eqn:Hw.
    assert (Ha : accumulatedAudio (backendService w) = [])
      by (rewrite Hw; vm_compute; reflexivity).
    assert (Hq : audioQueue (backendService w) = [])
      by (rewrite Hw; vm_compute; reflexivity).
    clear Hw. cbn [run].
    destruct (@empty_stays_empty w (Tick now) Ha Hq eq_refl) as (Hf1 & Ha1 & Hq1).
    destruct (step w (Tick now)) as [w1 fx1]. cbn [fst snd] in *.
    destruct (@empty_stays_empty w1 (SpeechResult results) Ha1 Hq1 eq_refl)
      as (Hf2 & _).
    destruct (step w1 (SpeechResult results)) as [w2 fx2]. cbn [fst snd] in *.
    rewrite app_nil_r, flushes_app, Hf1, Hf2. reflexivity.
Qed.

(** ** Health check *)

(** C10: [healthCheck] never throws and leaves the object as it is.  Its
    promise resolves to the response of the backend when the request
    succeeds, and, whenever the request throws, to the fabricated status
    [connected] of service [audio-backend], 500 ms later.  The caller in
    the sidebar only awaits the promise, so whatever the backend does the
    sidebar shows [connected]; through [useBackend], where the method is
    called without its object, the request is not even sent and the
    result is the fabricated one. *)
Theorem C10_healthCheck_never_fails
    (this_bound : bool) (r : option HealthStatus) (this : BackendService) :
  outcome_of (healthCheck this_bound r this) =
    Returned (match (if this_bound then r else None) with
              | Some response => (response, 0)
              | None => ({| status := "connected"; service := "audio-backend" |}, 500)
              end) /\
  state_of (healthCheck this_bound r this) = this /\
  outcome_of (useBackend_healthCheck r this) =
    Returned ({| status := "connected"; service := "audio-backend" |}, 500) /\
  effects_of (useBackend_healthCheck r this) = [] /\
  checkBackend r this = connected.
Proof.
  unfold checkBackend, useBackend_healthCheck.
  destruct this_bound, r as [response|]; repeat split.
Qed.

(** * Further properties of the service *)

(** ** Phrase boundaries *)

Lemma append_nil_r (s : string) : String.append s EmptyString = s.
Proof. induction s as [|c s IH]; cbn; [reflexivity|rewrite IH; reflexivity]. Qed.

Lemma append_assoc (a b c : string) :
  String.append (String.append a b) c = String.append a (String.append b c).
Proof. induction a as [|x a IH]; cbn; [reflexivity|rewrite IH; reflexivity]. Qed.

Lemma finalTranscript_fold (results : list SpeechRecognitionResult) (acc : string) :
  fold_left
    (fun finalTranscript result =>
       if isFinal result
       then String.append finalTranscript (transcript result)
       else finalTranscript)
    results acc =
  String.append acc (finalTranscript_of results).
Proof.
  unfold finalTranscript_of. revert acc.
  induction results as [|r rs IH]; intro acc; cbn [fold_left].
  - rewrite append_nil_r. reflexivity.
  - rewrite IH. rewrite (IH (if isFinal r then _ else _)).
    destruct (isFinal r); cbn [String.append].
    + rewrite append_assoc. reflexivity.
    + reflexivity.
Qed.

Lemma is_blank_append (a b : string) :
  is_blank (String.append a b) = is_blank a && is_blank b.
Proof.
  induction a as [|c a IH]; cbn; [reflexivity|].
  rewrite IH. rewrite andb_assoc. reflexivity.
Qed.

Lemma is_blank_rev (s : string) : is_blank (string_rev s) = is_blank s.
Proof.
  induction s as [|c s IH]; cbn; [reflexivity|].
  rewrite is_blank_append, IH. cbn. rewrite andb_true_r. apply andb_comm.
Qed.

Lemma is_blank_trimStart (s : string) : is_blank (trimStart s) = is_blank s.
Proof.
  induction s as [|c s IH]; cbn; [reflexivity|].
  destruct (is_white_space c) eqn:Hc; cbn; [exact IH|].
  rewrite Hc. reflexivity.
Qed.

Lemma trimStart_empty_iff (s : string) :
  trimStart s = EmptyString <-> is_blank s = true.
Proof.
  induction s as [|c s IH]; cbn; [tauto|].
  destruct (is_white_space c); cbn; [exact IH|].
  split; discriminate.
Qed.

Lemma string_rev_empty_iff (s : string) :
  string_rev s = EmptyString <-> s = EmptyString.
Proof.
  destruct s as [|c s]; cbn; [tauto|].
  split; [|discriminate].
  destruct (string_rev s); discriminate.
Qed.

Lemma trim_empty_iff (s : string) : trim s = EmptyString <-> is_blank s = true.
Proof.
  unfold trim.
  rewrite string_rev_empty_iff, trimStart_empty_iff, is_blank_rev, is_blank_trimStart.
  tauto.
Qed.

Lemma truthy_trim (s : string) : truthy (Some (trim s)) = negb (is_blank s).
Proof.
  cbn [truthy].
  destruct (String.eqb_spec (trim s) EmptyString) as [H|H].
  - apply trim_empty_iff in H. rewrite H. reflexivity.
  - destruct (is_blank s) eqn:Hb; [|reflexivity].
    apply trim_empty_iff in Hb. contradiction.
Qed.

Lemma finalTranscript_interim (results : list SpeechRecognitionResult) :
  forallb (fun r => negb (isFinal r)) results = true ->
  finalTranscript_of results = EmptyString.
Proof.
  unfold finalTranscript_of.
  induction results as [|r rs IH]; [reflexivity|].
  cbn [forallb fold_left]. intro H. apply andb_prop in H. destruct H as [Hr Hrs].
  destruct (isFinal r); [discriminate|]. exact (IH Hrs).
Qed.

(** X1: [finalTranscript] is the transcripts of the final results of the
    event, in their order, interim results left out; as the result list
    of an event is cumulative, the text of a later event continues the
    text of an earlier one. *)
Theorem X1_finalTranscript_joins_final_results
    (results later : list SpeechRecognitionResult) :
  finalTranscript_of results =
    String.concat EmptyString (map transcript (filter isFinal results)) /\
  finalTranscript_of (results ++ later) =
    String.append (finalTranscript_of results) (finalTranscript_of later).
Proof.
  split.
  - induction results as [|r rs IH]; [reflexivity|].
    unfold finalTranscript_of in *. cbn [fold_left filter].
    rewrite finalTranscript_fold. unfold finalTranscript_of. rewrite IH.
    destruct (isFinal r); cbn [map String.concat String.append]; [|reflexivity].
    destruct (map transcript (filter isFinal rs)) as [|t ts] eqn:Hm.
    + cbn. apply append_nil_r.
    + reflexivity.
  - unfold finalTranscript_of at 1. rewrite fold_left_app.
    fold (finalTranscript_of results). apply finalTranscript_fold.
Qed.

(** X2: a phrase-boundary event does something exactly when its final
    transcript has a character that is not white space.  An event with
    interim results only, or with blank final text, returns without an
    effect and leaves the object as it is; any other event logs the
    transcript and calls the flush operation with it. *)
Theorem X2_only_nonblank_final_text_flushes
    (results : list SpeechRecognitionResult) (this : BackendService) :
  onresult results this =
    (Returned tt, this,
     if is_blank (finalTranscript_of results) then []
     else Console (FinalSpeechDetected (finalTranscript_of results))
          :: effects_of (sendAccumulatedAudio (finalTranscript_of results) this)) /\
  (forallb (fun r => negb (isFinal r)) results = true ->
   finalTranscript_of results = EmptyString /\
   onresult results this = (Returned tt, this, [])).
Proof.
  assert (Heq : onresult results this =
    (Returned tt, this,
     if is_blank (finalTranscript_of results) then []
     else Console (FinalSpeechDetected (finalTranscript_of results))
          :: effects_of (sendAccumulatedAudio (finalTranscript_of results) this))).
  { unfold onresult. rewrite truthy_trim.
    destruct (is_blank (finalTranscript_of results)); cbn [negb]; [reflexivity|].
    unfold bind, console, emit. rewrite sendAccumulatedAudio_eq. reflexivity. }
  split; [exact Heq|].
  intro Hinterim.
  pose proof (finalTranscript_interim results Hinterim) as Hft.
  split; [exact Hft|]. rewrite Heq, Hft. reflexivity.
Qed.

Lemma X2_only_nonblank_final_text_flushes_witness :
  forallb (fun r => negb (isFinal r))
    [{| isFinal := false; transcript := "hel" |}] = true /\
  onresult [{| isFinal := false; transcript := "hel" |}] one_fragment_drained =
    (Returned tt, one_fragment_drained, []).
Proof.
  split; [reflexivity|].
  destruct (@X2_only_nonblank_final_text_flushes
              [{| isFinal := false; transcript := "hel" |}] one_fragment_drained)
    as [_ H].
  destruct (H eq_refl) as [_ H2]. exact H2.
Defined.

(** ** The fragments kept for the final file *)

Lemma step_audioChunks (w : World) (e : Event) :
  audioChunks (backendService (fst (step w e))) =
  audioChunks (backendService w) ++ arrivals [e].
Proof.
  destruct w as [s rd rq]. run_step.
  destruct e as [d|now|rs|i|i ok]; cbn [arrivals]; rewrite ?app_nil_r.
  - unfold_handlers. destruct (size d >? 0); cbn; rewrite ?app_nil_r; reflexivity.
  - destruct (processingInterval s); unfold_handlers; split_ifs; reflexivity.
  - destruct (speechRecognition s); unfold_handlers; split_ifs; reflexivity.
  - destruct (nth_error rd i) as [[b t]|]; unfold_handlers; reflexivity.
  - destruct (nth_error rq i) as [r|]; [destruct ok|]; unfold_handlers; reflexivity.
Qed.

Lemma stopRecording_audioChunks (env : StopEnv) (this : BackendService) :
  audioChunks (state_of (stopRecording env this)) = audioChunks this.
Proof.
  destruct (mediaRecorder this) as [recorder|] eqn:Hrec;
    [destruct (truthy (currentRecordingId this)) eqn:Hid|].
  - stop_cases this env Hrec Hid. all: reflexivity.
  - rewrite stopRecording_no_active_recording by (right; exact Hid). reflexivity.
  - rewrite stopRecording_no_active_recording by (left; exact Hrec). reflexivity.
Qed.

(** X3: [audioChunks] holds every fragment of positive size the recorder
    has delivered, in arrival order, through every interleaving of
    deliveries, ticks, phrase boundaries and upload outcomes: unlike the
    accumulation buffer it is not emptied by a successful upload.
    Stopping the session, successfully or not, leaves it as it is. *)
Theorem X3_audioChunks_keeps_every_fragment
    (w : World) (tr : list Event) (env : StopEnv) :
  audioChunks (backendService (fst (run w tr))) =
    audioChunks (backendService w) ++ arrivals tr /\
  audioChunks (state_of (stopRecording env (backendService (fst (run w tr))))) =
    audioChunks (backendService w) ++ arrivals tr.
Proof.
  assert (H : audioChunks (backendService (fst (run w tr))) =
              audioChunks (backendService w) ++ arrivals tr).
  { revert w. induction tr as [|e tr IH]; intro w.
    - cbn. rewrite app_nil_r. reflexivity.
    - cbn [run]. pose proof (step_audioChunks w e) as He.
      destruct (step w e) as [w1 fx1]. cbn [fst] in He.
      specialize (IH w1). destruct (run w1 tr) as [w2 fx2]. cbn [fst] in *.
      rewrite IH, He, <- app_assoc.
      change (e :: tr) with ([e] ++ tr). rewrite arrivals_app. reflexivity. }
  split; [exact H|]. rewrite stopRecording_audioChunks. exact H.
Qed.

(** ** Payloads in every interleaving *)

Lemma step_history (w : World) (e : Event) :
  exists gone,
    accumulatedAudio (backendService w) ++ audioQueue (backendService w)
      ++ arrivals [e] =
    gone ++ accumulatedAudio (backendService (fst (step w e)))
         ++ audioQueue (backendService (fst (step w e))).
Proof.
  destruct (is_success e) eqn:He.
  - destruct e as [d|now|rs|i|i ok]; try discriminate.
    destruct ok; [|discriminate].
    destruct w as [s rd rq]. run_step. cbn [arrivals]. rewrite app_nil_r.
    destruct (nth_error rq i) as [r|].
    + exists (accumulatedAudio s). cbn. reflexivity.
    + exists []. reflexivity.
  - destruct (@step_buffer w e He) as (drained & Ha & Hq).
    exists []. cbn [app]. rewrite Ha, <- app_assoc, Hq. reflexivity.
Qed.

(** X4: in every interleaving, successful uploads included, the payload
    of each flush is the concatenation of a contiguous run of the
    fragments held or delivered so far, in arrival order: a payload never
    reorders fragments, never repeats one inside itself and never skips
    over one. *)
Theorem X4_payload_is_a_contiguous_run
    (w : World) (tr : list Event) (b : Blob) (t : string) :
  In (b, t) (flushes (snd (run w tr))) ->
  exists before parts after,
    accumulatedAudio (backendService w) ++ audioQueue (backendService w)
      ++ arrivals tr = before ++ parts ++ after /\
    b = new_Blob parts.
Proof.
  revert w. induction tr as [|e tr IH]; intros w Hin; [destruct Hin|].
  cbn [run] in Hin.
  destruct (step_history w e) as (gone & Hgone).
  pose proof (step_flushes w e b t) as Hfl.
  destruct (step w e) as [w1 fx1] eqn:Hstep. cbn [fst snd] in *.
  specialize (IH w1).
  destruct (run w1 tr) as [w2 fx2]. cbn [fst snd] in *.
  rewrite flushes_app in Hin. apply in_app_or in Hin.
  change (e :: tr) with ([e] ++ tr). rewrite arrivals_app.
  rewrite !app_assoc. rewrite <- (app_assoc (accumulatedAudio _)), Hgone.
  destruct Hin as [Hin|Hin].
  - destruct (Hfl Hin) as (Hb & _).
    exists gone, (accumulatedAudio (backendService w1)),
           (audioQueue (backendService w1) ++ arrivals tr).
    split; [rewrite <- !app_assoc; reflexivity|exact Hb].
  - destruct (IH Hin) as (before & parts & after & Heq & Hb).
    exists (gone ++ before), parts, after.
    split; [|exact Hb].
    rewrite <- !app_assoc. f_equal. rewrite <- Heq. reflexivity.
Qed.

Lemma X4_payload_is_a_contiguous_run_witness :
  In (fragment_a ++ fragment_b, "world")
     (flushes (snd (run after_first_flush
        (until_second_flush ++ [SpeechResult (phrase "world")])))) /\
  exists before parts after,
    accumulatedAudio (backendService after_first_flush)
      ++ audioQueue (backendService after_first_flush)
      ++ arrivals (until_second_flush ++ [SpeechResult (phrase "world")]) =
      before ++ parts ++ after /\
    fragment_a ++ fragment_b = new_Blob parts.
Proof.
  assert (Hin : In (fragment_a ++ fragment_b, "world")
     (flushes (snd (run after_first_flush
        (until_second_flush ++ [SpeechResult (phrase "world")])))))
    by (vm_compute; left; reflexivity).
  split; [exact Hin|].
  exact (@X4_payload_is_a_contiguous_run after_first_flush
           (until_second_flush ++ [SpeechResult (phrase "world")])
           (fragment_a ++ fragment_b) "world" Hin).
Defined.

(** ** Ticks on an idle queue *)

(** X5: a tick that makes the idle flush leaves every field as it was,
    [lastProcessTime] included, so as long as no fragment arrives and no
    upload succeeds every later tick flushes the same payload again with
    the same reason. *)
Theorem X5_idle_flush_repeats_every_tick
    (now later : Z) (this : BackendService) :
  truthy (currentRecordingId this) = true ->
  audioQueue this = [] ->
  accumulatedAudio this <> [] ->
  now - lastProcessTime this > phraseTimeout this ->
  now <= later ->
  flushes (effects_of (processingTick now this)) =
    [(new_Blob (accumulatedAudio this), "idle_timeout")] /\
  state_of (processingTick now this) = this /\
  flushes (effects_of (processingTick later (state_of (processingTick now this)))) =
    [(new_Blob (accumulatedAudio this), "idle_timeout")].
Proof.
  intros Hid Hq Hne Hgt Hle.
  assert (Hflush : forall n, now <= n ->
            flushes (effects_of (processingTick n this)) =
            [(new_Blob (accumulatedAudio this), "idle_timeout")]).
  { intros n Hn. rewrite processingTick_flushes, Hid, Hq, app_nil_r.
    apply len_zero_false in Hne. rewrite Hne.
    assert (Hn' : (n - lastProcessTime this >? phraseTimeout this) = true)
      by (apply Z.gtb_lt; lia).
    rewrite Hn'. reflexivity. }
  assert (Hstate : state_of (processingTick now this) = this).
  { assert (Hn' : (now - lastProcessTime this >? phraseTimeout this) = true)
      by (apply Z.gtb_lt; lia).
    apply len_pos_iff in Hne.
    unfold_handlers. rewrite Hq. cbn. rewrite Hne, Hn'. cbn.
    destruct (_ || _); reflexivity. }
  split; [apply Hflush; lia|]. split; [exact Hstate|].
  rewrite Hstate. apply Hflush. exact Hle.
Qed.

Lemma X5_idle_flush_repeats_witness :
  truthy (currentRecordingId two_fragments_drained) = true /\
  audioQueue two_fragments_drained = [] /\
  accumulatedAudio two_fragments_drained <> [] /\
  3501 - lastProcessTime two_fragments_drained > phraseTimeout two_fragments_drained /\
  3501 <= 3751 /\
  flushes (effects_of (processingTick 3751
             (state_of (processingTick 3501 two_fragments_drained)))) =
    [(fragment_a ++ fragment_b, "idle_timeout")].
Proof.
  assert (Hne : accumulatedAudio two_fragments_drained <> [])
    by (vm_compute; discriminate).
  assert (Hgt : 3501 - lastProcessTime two_fragments_drained
                > phraseTimeout two_fragments_drained) by reflexivity.
  assert (Hle : 3501 <= 3751) by (vm_compute; discriminate).
  do 2 (split; [reflexivity|]). split; [exact Hne|].
  split; [exact Hgt|]. split; [exact Hle|].
  destruct (@X5_idle_flush_repeats_every_tick 3501 3751 two_fragments_drained
              eq_refl eq_refl Hne Hgt Hle) as (_ & _ & H).
  exact H.
Defined.

(** ** After a stop *)

Lemma stopRecording_success_state (env : StopEnv) (this : BackendService)
    (recorder : MediaRecorder) (r : RecordingResponse) :
  mediaRecorder this = Some recorder ->
  truthy (currentRecordingId this) = true ->
  recorderStop_throws env = false ->
  stopResponse env = Some r ->
  state_of (stopRecording env this) =
    {| mediaRecorder := None;
       audioChunks := audioChunks this;
       currentRecordingId := None;
       transcriptionInterval := false;
       speechRecognition := false;
       isListening := isListening this && negb (speechRecognition this);
       audioQueue := [];
       processingInterval := false;
       accumulatedAudio := [];
       lastProcessTime := lastProcessTime this;
       phraseTimeout := phraseTimeout this |}.
Proof.
  intros Hrec Hid Hthrow Hresp.
  stop_cases this env Hrec Hid.
  all: cbn [recorderStop_throws stopResponse] in Hthrow, Hresp.
  all: try discriminate.
  all: rewrite ?andb_true_r, ?andb_false_r; reflexivity.
Qed.

Lemma stopRecording_failure_state (env : StopEnv) (this : BackendService)
    (recorder : MediaRecorder) :
  mediaRecorder this = Some recorder ->
  truthy (currentRecordingId this) = true ->
  recorderStop_throws env = true \/ stopResponse env = None ->
  state_of (stopRecording env this) =
    {| mediaRecorder := Some recorder;
       audioChunks := audioChunks this;
       currentRecordingId := currentRecordingId this;
       transcriptionInterval := false;
       speechRecognition := speechRecognition this;
       isListening := isListening this && negb (speechRecognition this);
       audioQueue := audioQueue this;
       processingInterval := false;
       accumulatedAudio := accumulatedAudio this;
       lastProcessTime := lastProcessTime this;
       phraseTimeout := phraseTimeout this |}.
Proof.
  intros Hrec Hid Hfail.
  stop_cases this env Hrec Hid.
  all: cbn [recorderStop_throws stopResponse] in Hfail.
  all: try (destruct Hfail; discriminate).
  all: rewrite ?andb_true_r, ?andb_false_r; reflexivity.
Qed.

(** X6: once a stop has succeeded the object holds no recording: a second
    stop throws 'No active recording' before any step, with two console
    lines as its only effects, and leaves the object as it is. *)
Theorem X6_second_stop_is_refused
    (env again : StopEnv) (this : BackendService)
    (recorder : MediaRecorder) (r : RecordingResponse) :
  mediaRecorder this = Some recorder ->
  truthy (currentRecordingId this) = true ->
  recorderStop_throws env = false ->
  stopResponse env = Some r ->
  outcome_of (stopRecording env this) = Returned r /\
  stopRecording again (state_of (stopRecording env this)) =
    (Thrown NoActiveRecording, state_of (stopRecording env this),
     [Console StoppingRecording; Console FailedToStopRecording]).
Proof.
  intros Hrec Hid Hthrow Hresp.
  destruct (stopRecording_outcome env this Hrec Hid) as [Hout Hmr].
  rewrite Hthrow, Hresp in Hout, Hmr.
  split; [exact Hout|].
  apply stopRecording_no_active_recording. left. exact Hmr.
Qed.

Lemma X6_second_stop_is_refused_witness :
  mediaRecorder one_fragment_drained = Some {| tracks := 1 |} /\
  truthy (currentRecordingId one_fragment_drained) = true /\
  recorderStop_throws quiet_env = false /\
  outcome_of (stopRecording failing_recorder_env
                (state_of (stopRecording quiet_env one_fragment_drained))) =
    Thrown NoActiveRecording.
Proof.
  do 3 (split; [reflexivity|]).
  destruct (@X6_second_stop_is_refused quiet_env failing_recorder_env
              one_fragment_drained {| tracks := 1 |}
              {| success := true; resp_recording_id := Some "rec-1";
                 transcription := None |}
              eq_refl eq_refl eq_refl eq_refl) as [_ H].
  rewrite H. reflexivity.
Defined.

(** ** A stop and the callbacks around it *)

(** Every path through [stopRecording_send] of an active session. *)
Ltac send_cases this env Hrec Hid :=
  destruct this as [mr chunks id ti sr il q pi acc lt pt];
  cbn [mediaRecorder currentRecordingId] in Hrec, Hid; subst mr;
  destruct env as [sthrow rthrow resp];
  cbn [mediaRecorder audioChunks currentRecordingId transcriptionInterval
       speechRecognition isListening audioQueue processingInterval
       accumulatedAudio lastProcessTime phraseTimeout
       speechStop_throws recorderStop_throws stopResponse];
  destruct pi, sr, sthrow, ti, rthrow, acc as [|a acc];
  unfold stopRecording_send, effects_of, outcome_of, state_of, try_catch, bind;
  cbn -[new_Blob forEach];
  repeat (first [rewrite Hid
                | erewrite forEach_const by (intro; reflexivity)];
          cbn -[new_Blob forEach repeat List.concat]).

Lemma stopRecording_send_state (env : StopEnv) (this : BackendService)
    (recorder : MediaRecorder) :
  mediaRecorder this = Some recorder ->
  truthy (currentRecordingId this) = true ->
  state_of (stopRecording_send env this) =
    {| mediaRecorder := Some recorder;
       audioChunks := audioChunks this;
       currentRecordingId := currentRecordingId this;
       transcriptionInterval := false;
       speechRecognition := speechRecognition this;
       isListening := isListening this && negb (speechRecognition this);
       audioQueue := audioQueue this;
       processingInterval := false;
       accumulatedAudio := accumulatedAudio this;
       lastProcessTime := lastProcessTime this;
       phraseTimeout := phraseTimeout this |} /\
  outcome_of (stopRecording_send env this) =
    (if recorderStop_throws env then Thrown DomException else Returned tt) /\
  flushes (effects_of (stopRecording_send env this)) =
    (if len (accumulatedAudio this) >? 0
     then [(new_Blob (accumulatedAudio this), "Final chunk")] else []).
Proof.
  intros Hrec Hid.
  send_cases this env Hrec Hid.
  all: rewrite ?flushes_app, ?flushes_tracks; cbn [flushes app].
  all: rewrite ?andb_true_r, ?andb_false_r; repeat split; reflexivity.
Qed.

(** The two parts of [stopRecording], run in a row, are
    [stopRecording]. *)
Lemma stopRecording_split (env : StopEnv) (this : BackendService) :
  stopRecording env this = stopRecording_in_a_row env this.
Proof.
  unfold stopRecording_in_a_row.
  destruct (mediaRecorder this) as [recorder|] eqn:Hrec.
  2:{ unfold stopRecording, stopRecording_send, try_catch, bind. cbn.
      rewrite Hrec. reflexivity. }
  destruct (truthy (currentRecordingId this)) eqn:Hid.
  2:{ unfold stopRecording, stopRecording_send, try_catch, bind. cbn.
      rewrite Hrec, Hid. reflexivity. }
  destruct this as [mr chunks id ti sr il q pi acc lt pt];
  cbn [mediaRecorder currentRecordingId] in Hrec, Hid; subst mr;
  destruct env as [sthrow rthrow resp];
  cbn [stopResponse];
  destruct resp as [resp|]; [destruct (has_transcription resp) eqn:Htr|];
  destruct pi, sr, sthrow, ti, rthrow, acc as [|a acc];
  unfold stopRecording, stopRecording_send, stopRecording_receive,
    try_catch, bind;
  cbn -[new_Blob forEach];
  repeat (first [rewrite Hid | rewrite Htr
                | erewrite forEach_const by (intro; reflexivity)];
          cbn -[new_Blob forEach repeat List.concat]);
  rewrite <- ?app_assoc; reflexivity.
Qed.

(** A stop request that fails changes nothing, whatever the state it
    finds. *)
Lemma stopRecording_receive_failure (this : BackendService) :
  stopRecording_receive None this =
    (Thrown HttpError, this,
     [Console (ApiRequestFailed RecordingStop); Console FailedToStopRecording]).
Proof. reflexivity. Qed.

Lemma stopRecording_receive_success (r : RecordingResponse) (this : BackendService) :
  outcome_of (stopRecording_receive (Some r) this) = Returned r /\
  state_of (stopRecording_receive (Some r) this) =
    {| mediaRecorder := None;
       audioChunks := audioChunks this;
       currentRecordingId := None;
       transcriptionInterval := transcriptionInterval this;
       speechRecognition := false;
       isListening := isListening this;
       audioQueue := [];
       processingInterval := processingInterval this;
       accumulatedAudio := [];
       lastProcessTime := lastProcessTime this;
       phraseTimeout := phraseTimeout this |} /\
  flushes (effects_of (stopRecording_receive (Some r) this)) = [] /\
  uploads (effects_of (stopRecording_receive (Some r) this)) = [].
Proof.
  unfold stopRecording_receive, try_catch, bind, outcome_of, state_of, effects_of.
  cbn. destruct (has_transcription r); cbn; repeat split; reflexivity.
Qed.

(** An event of the loop runs its callback, or nothing. *)
Lemma step_fires (w : World) (e : Event) :
  step w e = fire w (callback_of e) \/ step w e = (w, []).
Proof.
  destruct w as [this rd rq].
  destruct e as [d|now|rs|i|i ok]; unfold step, fire, dispatch, attached;
    cbn [callback_of backendService readers requests].
  - left. reflexivity.
  - destruct (processingInterval this); [left; reflexivity|right].
    cbn. rewrite !app_nil_r. reflexivity.
  - destruct (speechRecognition this); [left; reflexivity|right].
    cbn. rewrite !app_nil_r. reflexivity.
  - left. reflexivity.
  - left. reflexivity.
Qed.

Ltac fire_step :=
  unfold fire, attached; cbn [backendService readers requests fst snd].

(** No callback writes the recorder, the recording id or a timer
    field. *)
Lemma fire_fields (w : World) (c : Callback) :
  mediaRecorder (backendService (fst (fire w c))) = mediaRecorder (backendService w) /\
  currentRecordingId (backendService (fst (fire w c))) =
    currentRecordingId (backendService w) /\
  processingInterval (backendService (fst (fire w c))) =
    processingInterval (backendService w) /\
  transcriptionInterval (backendService (fst (fire w c))) =
    transcriptionInterval (backendService w) /\
  speechRecognition (backendService (fst (fire w c))) =
    speechRecognition (backendService w).
Proof.
  destruct w as [s rd rq]. fire_step.
  destruct c as [d|now|rs|i|i ok].
  - unfold_handlers. split_ifs; repeat split.
  - unfold_handlers. split_ifs; repeat split.
  - unfold_handlers. split_ifs; repeat split.
  - destruct (nth_error rd i) as [[b t]|]; unfold_handlers; repeat split.
  - destruct (nth_error rq i) as [r|]; [destruct ok|]; unfold_handlers; repeat split.
Qed.

(** What a callback does to the buffer and to the queue. *)
Lemma fire_buffer (w : World) (c : Callback) :
  match c with
  | OnChunkResponse i true =>
      match nth_error (requests w) i with
      | Some _ => accumulatedAudio (backendService (fst (fire w c))) = []
      | None => accumulatedAudio (backendService (fst (fire w c))) =
                accumulatedAudio (backendService w)
      end /\
      audioQueue (backendService (fst (fire w c))) = audioQueue (backendService w)
  | OnInterval _ =>
      accumulatedAudio (backendService (fst (fire w c))) =
        accumulatedAudio (backendService w) ++ audioQueue (backendService w) /\
      audioQueue (backendService (fst (fire w c))) = []
  | _ =>
      accumulatedAudio (backendService (fst (fire w c))) =
        accumulatedAudio (backendService w) /\
      audioQueue (backendService (fst (fire w c))) =
        audioQueue (backendService w) ++ deliveries [c]
  end.
Proof.
  destruct w as [s rd rq]. fire_step.
  destruct c as [d|now|rs|i|i ok]; cbn [deliveries].
  - destruct (ondataavailable_state d s) as (Ha & Hq & _).
    unfold state_of in *. cbn [arrivals] in Hq.
    destruct (ondataavailable d s) as [[o s'] fx]. cbn [fst snd backendService] in *.
    split; assumption.
  - destruct (processingTick_buffer now s) as (Ha & Hq & _).
    unfold state_of in *.
    destruct (processingTick now s) as [[o s'] fx]. cbn [fst snd backendService] in *.
    split; assumption.
  - destruct (onresult_eq rs s) as (Hs & _). unfold state_of in Hs.
    destruct (onresult rs s) as [[o s'] fx]. cbn [fst snd backendService] in *.
    subst s'. rewrite app_nil_r. split; reflexivity.
  - rewrite app_nil_r.
    destruct (nth_error rd i) as [[b t]|]; cbn; split; reflexivity.
  - destruct ok.
    + destruct (nth_error rq i) as [r|]; cbn; split; reflexivity.
    + rewrite app_nil_r.
      destruct (nth_error rq i) as [r|]; cbn; split; reflexivity.
Qed.

(** Without a recording id no callback starts a reader, and a request
    that leaves carries no id. *)
Lemma fire_without_id (w : World) (c : Callback) :
  currentRecordingId (backendService w) = None ->
  flushes (snd (fire w c)) = [] /\
  (forall body, In body (uploads (snd (fire w c))) -> recording_id body = None).
Proof.
  destruct w as [s rd rq]. cbn [backendService]. intro Hid. fire_step.
  destruct c as [d|now|rs|i|i ok].
  - destruct (ondataavailable_state d s) as (_ & _ & _ & Hf).
    destruct (ondataavailable_fields d s) as (_ & _ & _ & Hu).
    unfold effects_of in *.
    destruct (ondataavailable d s) as [[o s'] fx]. cbn [fst snd] in *.
    rewrite Hf, Hu. split; [reflexivity|intros body []].
  - pose proof (processingTick_flushes now s) as Hf.
    destruct (processingTick_fields now s) as (_ & _ & Hu).
    unfold effects_of in *.
    destruct (processingTick now s) as [[o s'] fx]. cbn [fst snd] in *.
    rewrite Hf, Hu, Hid. cbn [truthy]. rewrite andb_false_r.
    split; [reflexivity|intros body []].
  - destruct (onresult_eq rs s) as (_ & Hf).
    assert (Hu : uploads (effects_of (onresult rs s)) = []).
    { unfold_handlers. split_ifs; reflexivity. }
    unfold effects_of in *.
    destruct (onresult rs s) as [[o s'] fx]. cbn [fst snd] in *.
    rewrite Hf, Hu, Hid. cbn [truthy]. rewrite andb_false_r.
    split; [reflexivity|intros body []].
  - destruct (nth_error rd i) as [[b t]|]; cbn.
    + split; [reflexivity|]. intros body [H|[]]. subst body. exact Hid.
    + split; [reflexivity|intros body []].
  - destruct (nth_error rq i) as [r|]; [destruct ok|]; cbn;
      (split; [reflexivity|intros body []]).
Qed.

Lemma fire_all_fields (w : World) (cs : list Callback) :
  mediaRecorder (backendService (fst (fire_all w cs))) =
    mediaRecorder (backendService w) /\
  currentRecordingId (backendService (fst (fire_all w cs))) =
    currentRecordingId (backendService w) /\
  processingInterval (backendService (fst (fire_all w cs))) =
    processingInterval (backendService w) /\
  transcriptionInterval (backendService (fst (fire_all w cs))) =
    transcriptionInterval (backendService w) /\
  speechRecognition (backendService (fst (fire_all w cs))) =
    speechRecognition (backendService w).
Proof.
  revert w. induction cs as [|c cs IH]; intro w; [repeat split|].
  cbn [fire_all]. pose proof (fire_fields w c) as H.
  destruct (fire w c) as [w1 fx1]. cbn [fst] in H.
  specialize (IH w1). destruct (fire_all w1 cs) as [w2 fx2]. cbn [fst] in *.
  destruct H as (H1 & H2 & H3 & H4 & H5), IH as (I1 & I2 & I3 & I4 & I5).
  repeat split; congruence.
Qed.

(** While no upload succeeds the buffer only grows, and it grows by what
    an interval drains from the queue. *)
Lemma fire_all_buffer (w : World) (cs : list Callback) :
  no_upload_succeeds cs = true ->
  exists drained,
    accumulatedAudio (backendService (fst (fire_all w cs))) =
      accumulatedAudio (backendService w) ++ drained /\
    (no_interval cs = true -> drained = []).
Proof.
  revert w. induction cs as [|c cs IH]; intros w Hns.
  - exists []. cbn. rewrite app_nil_r. auto.
  - cbn [no_upload_succeeds forallb] in Hns. apply andb_prop in Hns.
    destruct Hns as [Hc Hns].
    cbn [fire_all]. pose proof (fire_buffer w c) as Hb.
    destruct (fire w c) as [w1 fx1]. cbn [fst] in Hb.
    destruct (IH w1 Hns) as (drained & Ha & Hni).
    destruct (fire_all w1 cs) as [w2 fx2]. cbn [fst] in *.
    destruct c as [d|now|rs|i|i ok]; try destruct ok; try discriminate Hc;
      try (destruct Hb as [Hb _]; rewrite Hb in Ha;
           exists drained; split; [exact Ha|];
           cbn [no_interval forallb]; cbn [andb]; exact Hni).
    destruct Hb as [Hb _]. rewrite Hb, <- app_assoc in Ha.
    eexists. split; [exact Ha|]. intro H. discriminate H.
Qed.

(** X7: a stop that fails, because the recorder's stop throws or the stop
    request fails, has cancelled the timers and made the final flush when
    it fails, and writes nothing afterwards: recorder and recording id
    stay, and the buffer is left to the callbacks that run during and
    after the stop.  A stop called again therefore passes the guard.
    While no upload has succeeded the fragments of the first final flush
    are still at the head of the buffer and the second stop flushes them
    again, alone if no interval has drained anything since; right after
    an upload that succeeded the buffer is empty and the second stop
    flushes nothing. *)
Theorem X7_retried_stop_flushes_again
    (env again : StopEnv) (this : BackendService) (recorder : MediaRecorder)
    (rd : list (Blob * string)) (rq : list ChunkBody) (cs : list Callback) :
  mediaRecorder this = Some recorder ->
  truthy (currentRecordingId this) = true ->
  accumulatedAudio this <> [] ->
  let first := stopRecording_send env this in
  let w := fst (fire_all (world_of (state_of first)
                                   (rd ++ flushes (effects_of first)) rq) cs) in
  outcome_of first =
    (if recorderStop_throws env then Thrown DomException else Returned tt) /\
  flushes (effects_of first) =
    [(new_Blob (accumulatedAudio this), "Final chunk")] /\
  stopRecording_receive None (backendService w) =
    (Thrown HttpError, backendService w,
     [Console (ApiRequestFailed RecordingStop); Console FailedToStopRecording]) /\
  mediaRecorder (backendService w) = Some recorder /\
  currentRecordingId (backendService w) = currentRecordingId this /\
  processingInterval (backendService w) = false /\
  (no_upload_succeeds cs = true ->
   exists drained,
     accumulatedAudio (backendService w) = accumulatedAudio this ++ drained /\
     (no_interval cs = true -> drained = []) /\
     flushes (effects_of (stopRecording_send again (backendService w))) =
       [(new_Blob (accumulatedAudio this ++ drained), "Final chunk")]) /\
  (forall i req,
     nth_error (requests w) i = Some req ->
     flushes (effects_of (stopRecording_send again
       (backendService (fst (fire w (OnChunkResponse i true)))))) = []).
Proof.
  intros Hrec Hid Hne first w.
  destruct (stopRecording_send_state env this Hrec Hid) as (Hst & Hout & Hfl).
  fold first in Hst, Hout, Hfl.
  pose proof Hne as Hlen. apply len_pos_iff in Hlen. rewrite Hlen in Hfl.
  destruct (fire_all_fields
              (world_of (state_of first) (rd ++ flushes (effects_of first)) rq) cs)
    as (Hmr & Hcid & Hpi & _ & _).
  fold w in Hmr, Hcid, Hpi.
  cbn [world_of backendService] in Hmr, Hcid, Hpi.
  rewrite Hst in Hmr, Hcid, Hpi.
  cbn [mediaRecorder currentRecordingId processingInterval] in Hmr, Hcid, Hpi.
  split; [exact Hout|]. split; [exact Hfl|].
  split; [apply stopRecording_receive_failure|].
  split; [exact Hmr|]. split; [exact Hcid|]. split; [exact Hpi|].
  split.
  - intro Hns.
    destruct (@fire_all_buffer
                (world_of (state_of first) (rd ++ flushes (effects_of first)) rq)
                cs Hns) as (drained & Ha & Hni).
    fold w in Ha. cbn [world_of backendService] in Ha. rewrite Hst in Ha.
    cbn [accumulatedAudio] in Ha.
    exists drained. split; [exact Ha|]. split; [exact Hni|].
    destruct (@stopRecording_send_state again (backendService w) recorder)
      as (_ & _ & Hfl2); [exact Hmr|rewrite Hcid; exact Hid|].
    rewrite Hfl2, Ha.
    assert (Hpos : (len (accumulatedAudio this ++ drained) >? 0) = true).
    { apply len_pos_iff. intro H. apply app_eq_nil in H. destruct H as [H _].
      contradiction. }
    rewrite Hpos. reflexivity.
  - intros i req Hi.
    pose proof (fire_buffer w (OnChunkResponse i true)) as Hb.
    cbn beta iota in Hb. rewrite Hi in Hb. destruct Hb as [Hb _].
    destruct (fire_fields w (OnChunkResponse i true)) as (Hmr' & Hcid' & _).
    destruct (@stopRecording_send_state again
                (backendService (fst (fire w (OnChunkResponse i true)))) recorder)
      as (_ & _ & Hfl2).
    + rewrite Hmr'. exact Hmr.
    + rewrite Hcid', Hcid. exact Hid.
    + rewrite Hfl2, Hb. reflexivity.
Qed.

Lemma X7_retried_stop_flushes_again_witness :
  mediaRecorder one_fragment_drained = Some {| tracks := 1 |} /\
  truthy (currentRecordingId one_fragment_drained) = true /\
  accumulatedAudio one_fragment_drained <> [] /\
  no_upload_succeeds [OnLoadEnd 0; OnChunkResponse 0 false] = true /\
  flushes (effects_of (stopRecording_send quiet_env
    (backendService (fst (fire_all
       (world_of (state_of (stopRecording_send failing_recorder_env
                              one_fragment_drained))
                 (flushes (effects_of (stopRecording_send failing_recorder_env
                                         one_fragment_drained))) [])
       [OnLoadEnd 0; OnChunkResponse 0 false]))))) =
    [(fragment_a, "Final chunk")] /\
  flushes (effects_of (stopRecording_send quiet_env
    (backendService (fst (fire_all
       (world_of (state_of (stopRecording_send failing_recorder_env
                              one_fragment_drained))
                 (flushes (effects_of (stopRecording_send failing_recorder_env
                                         one_fragment_drained))) [])
       [OnLoadEnd 0; OnChunkResponse 0 true]))))) = [].
Proof.
  assert (Hne : accumulatedAudio one_fragment_drained <> [])
    by (vm_compute; discriminate).
  do 2 (split; [reflexivity|]). split; [exact Hne|]. split; [reflexivity|].
  destruct (@X7_retried_stop_flushes_again failing_recorder_env quiet_env
              one_fragment_drained {| tracks := 1 |} [] []
              [OnLoadEnd 0; OnChunkResponse 0 false]
              eq_refl eq_refl Hne) as (_ & _ & _ & _ & _ & _ & H & _).
  destruct (H eq_refl) as (drained & _ & Hd & Hfl).
  rewrite (Hd eq_refl), app_nil_r in Hfl.
  split; [exact Hfl|].
  destruct (@X7_retried_stop_flushes_again failing_recorder_env quiet_env
              one_fragment_drained {| tracks := 1 |} [] []
              [OnLoadEnd 0]
              eq_refl eq_refl Hne) as (_ & _ & _ & _ & _ & _ & _ & H2).
  exact (H2 0%nat
           {| recording_id := Some "rec-1"; audio_data := fragment_a;
              detected_speech := "Final chunk"; chunk_count := 1 |} eq_refl).
Defined.

Lemma fire_all_without_id (w : World) (cs : list Callback) :
  currentRecordingId (backendService w) = None ->
  flushes (snd (fire_all w cs)) = [] /\
  (forall body, In body (uploads (snd (fire_all w cs))) -> recording_id body = None).
Proof.
  revert w. induction cs as [|c cs IH]; intros w Hid.
  - cbn. split; [reflexivity|intros body []].
  - cbn [fire_all].
    destruct (fire_without_id w c Hid) as (Hf1 & Hu1).
    destruct (fire_fields w c) as (_ & Hid1 & _).
    destruct (fire w c) as [w1 fx1]. cbn [fst snd] in *.
    rewrite Hid in Hid1.
    destruct (IH w1 Hid1) as (Hf2 & Hu2).
    destruct (fire_all w1 cs) as [w2 fx2]. cbn [fst snd] in *.
    rewrite flushes_app, Hf1, Hf2. split; [reflexivity|].
    intros body Hin. rewrite uploads_app in Hin. apply in_app_or in Hin.
    destruct Hin as [Hin|Hin]; [exact (Hu1 body Hin)|exact (Hu2 body Hin)].
Qed.

Lemma fire_all_queue (w : World) (cs : list Callback) :
  no_interval cs = true ->
  accumulatedAudio (backendService w) = [] ->
  accumulatedAudio (backendService (fst (fire_all w cs))) = [] /\
  audioQueue (backendService (fst (fire_all w cs))) =
    audioQueue (backendService w) ++ deliveries cs.
Proof.
  revert w. induction cs as [|c cs IH]; intros w Hni Ha.
  - cbn. rewrite app_nil_r. auto.
  - cbn [no_interval forallb] in Hni. apply andb_prop in Hni.
    destruct Hni as [Hc Hni].
    cbn [fire_all]. pose proof (fire_buffer w c) as Hb.
    destruct (fire w c) as [w1 fx1]. cbn [fst] in Hb.
    assert (H1 : accumulatedAudio (backendService w1) = [] /\
                 audioQueue (backendService w1) =
                   audioQueue (backendService w) ++ deliveries [c]).
    { destruct c as [d|now|rs|i|i ok]; try discriminate Hc.
      - destruct Hb as [Hb1 Hb2]. rewrite Hb1, Hb2. auto.
      - destruct Hb as [Hb1 Hb2]. rewrite Hb1, Hb2. auto.
      - destruct Hb as [Hb1 Hb2]. rewrite Hb1, Hb2. auto.
      - destruct ok.
        + destruct Hb as [Hb1 Hb2]. cbn [deliveries]. rewrite app_nil_r.
          split; [|exact Hb2].
          destruct (nth_error (requests w) i); [exact Hb1|].
          rewrite Hb1. exact Ha.
        + destruct Hb as [Hb1 Hb2]. rewrite Hb1, Hb2. auto. }
    destruct H1 as [Ha1 Hq1].
    destruct (IH w1 Hni Ha1) as (Ha2 & Hq2).
    destruct (fire_all w1 cs) as [w2 fx2]. cbn [fst] in *.
    split; [exact Ha2|].
    rewrite Hq2, Hq1, <- app_assoc. f_equal.
    destruct c as [d|now|rs|i|i ok]; cbn [deliveries app]; try reflexivity.
    destruct (size d >? 0); reflexivity.
Qed.

(** X8: once the answer to the stop request has come back well, whatever
    has run while [stopRecording] was waiting for it, the object has no
    recording id, and from then on nothing is flushed, whatever callbacks
    still run, an interval left over from an earlier start included: the
    flush operation returns at its guard.  A reader that was still at
    work sends its request with [recording_id] null.  When no interval is
    left, the fragments the recorder still delivers stay in the capture
    queue. *)
Theorem X8_nothing_is_flushed_after_a_stop
    (r : RecordingResponse) (this : BackendService)
    (rd : list (Blob * string)) (rq : list ChunkBody) (cs : list Callback) :
  let stopped := state_of (stopRecording_receive (Some r) this) in
  let later := fire_all (world_of stopped rd rq) cs in
  outcome_of (stopRecording_receive (Some r) this) = Returned r /\
  mediaRecorder stopped = None /\
  currentRecordingId stopped = None /\
  currentRecordingId (backendService (fst later)) = None /\
  flushes (snd later) = [] /\
  (forall body, In body (uploads (snd later)) -> recording_id body = None) /\
  (no_interval cs = true ->
   accumulatedAudio (backendService (fst later)) = [] /\
   audioQueue (backendService (fst later)) = deliveries cs).
Proof.
  intros stopped later.
  destruct (stopRecording_receive_success r this) as (Hout & Hst & _).
  fold stopped in Hst.
  assert (Hid : currentRecordingId (backendService (world_of stopped rd rq)) = None)
    by (cbn [world_of backendService]; rewrite Hst; reflexivity).
  destruct (fire_all_without_id (world_of stopped rd rq) cs Hid) as (Hf & Hu).
  destruct (fire_all_fields (world_of stopped rd rq) cs) as (_ & Hcid & _).
  fold later in Hf, Hu, Hcid.
  split; [exact Hout|].
  split; [rewrite Hst; reflexivity|]. split; [rewrite Hst; reflexivity|].
  split; [rewrite Hcid; exact Hid|]. split; [exact Hf|]. split; [exact Hu|].
  intro Hni.
  destruct (@fire_all_queue (world_of stopped rd rq) cs Hni) as (Ha & Hq).
  { cbn [world_of backendService]. rewrite Hst. reflexivity. }
  fold later in Ha, Hq. split; [exact Ha|].
  rewrite Hq. cbn [world_of backendService]. rewrite Hst. reflexivity.
Qed.

Lemma X8_nothing_is_flushed_after_a_stop_witness :
  no_interval [OnDataAvailable fragment_b; OnLoadEnd 0] = true /\
  audioQueue (backendService (fst (fire_all
    (world_of (state_of (stopRecording_receive (stopResponse quiet_env)
                           (state_of (stopRecording_send quiet_env
                                        one_fragment_drained))))
              [(fragment_a, "Final chunk")] [])
    [OnDataAvailable fragment_b; OnLoadEnd 0]))) = [fragment_b] /\
  flushes (snd (fire_all
    (world_of (state_of (stopRecording_receive (stopResponse quiet_env)
                           (state_of (stopRecording_send quiet_env
                                        one_fragment_drained))))
              [(fragment_a, "Final chunk")] [])
    [OnDataAvailable fragment_b; OnInterval 4000; OnInterval 8000])) = [].
Proof.
  split; [reflexivity|].
  destruct (@X8_nothing_is_flushed_after_a_stop
              {| success := true; resp_recording_id := Some "rec-1";
                 transcription := None |}
              (state_of (stopRecording_send quiet_env one_fragment_drained))
              [(fragment_a, "Final chunk")] []
              [OnDataAvailable fragment_b; OnLoadEnd 0])
    as (_ & _ & _ & _ & _ & _ & H).
  destruct (H eq_refl) as (_ & Hq).
  split; [exact Hq|].
  destruct (@X8_nothing_is_flushed_after_a_stop
              {| success := true; resp_recording_id := Some "rec-1";
                 transcription := None |}
              (state_of (stopRecording_send quiet_env one_fragment_drained))
              [(fragment_a, "Final chunk")] []
              [OnDataAvailable fragment_b; OnInterval 4000; OnInterval 8000])
    as (_ & _ & _ & _ & Hf & _).
  exact Hf.
Defined.

(** ** Starting a session *)

Ltac unfold_x :=
  cbv [startRecording setupSpeechRecognition onstart onerror onend restart
       startContinuousProcessing startTranscriptionPolling getTranscription
       pollingTick request_receive xbind xret xthrow xtry xget act say xcall
       lift set_speechRecognition set_currentRecordingId set_mediaRecorder
       set_audioChunks set_audioQueue set_accumulatedAudio set_lastProcessTime
       set_processingInterval set_transcriptionInterval set_isListening
       result_of object_of actions_of map
       startResponse clock microphone speechApi speechStart_throws
       opusSupported newRecorder_throws recorderStart_throws
       mediaRecorder audioChunks currentRecordingId transcriptionInterval
       speechRecognition isListening audioQueue processingInterval
       accumulatedAudio lastProcessTime phraseTimeout].

Lemma truthy_Some (id : string) : id <> EmptyString -> truthy (Some id) = true.
Proof.
  intro H. cbn. destruct (String.eqb_spec id EmptyString); [contradiction|reflexivity].
Qed.

(** X9: when the backend does not accept the recording, because the
    request fails, the answer is not a success or it carries no id,
    [startRecording] throws, after the request and console output only:
    the microphone is not asked for, no timer is set, and every field of
    the object is as before. *)
Theorem X9_refused_start_changes_nothing
    (model : string) (enableTranscription : bool) (env : StartEnv)
    (this : BackendService) :
  match startResponse env with
  | None => True
  | Some r => StartResponse.success r
              && truthy (StartResponse.recording_id r) = false
  end ->
  startRecording model enableTranscription env this =
    (Failed (match startResponse env with
             | None => Raised HttpError
             | Some _ => FailedToStartOnBackend
             end),
     this,
     [Say StartingRecordingRequest;
      Request (RecordingStart model enableTranscription);
      Say (match startResponse env with
           | None => RequestFailed (RecordingStart model enableTranscription)
           | Some _ => BackendRecordingStarted
           end);
      Say FailedToStartRecording]).
Proof.
  destruct env as [resp now mic api sthrow opus nthrow rthrow].
  cbn [startResponse]. destruct resp as [r|]; intro H.
  - unfold_x. rewrite H. reflexivity.
  - reflexivity.
Qed.

Lemma X9_refused_start_witness :
  result_of (startRecording "GPT-3.5" true refusing_env initial) =
    Failed FailedToStartOnBackend /\
  object_of (startRecording "GPT-3.5" true refusing_env initial) = initial.
Proof.
  rewrite (@X9_refused_start_changes_nothing "GPT-3.5" true refusing_env initial eq_refl).
  split; reflexivity.
Defined.

Lemma pollingTick_eq (answer : option TranscriptionResponse.t)
    (this : BackendService) :
  pollingTick answer this =
    (Done tt, this,
     if truthy (currentRecordingId this) then
       Request (TranscriptionOf (currentRecordingId this))
       :: match answer with
          | Some a =>
              if TranscriptionResponse.success a
                 && truthy (TranscriptionResponse.current_text a)
              then [Say (CurrentTranscription (TranscriptionResponse.current_text a));
                    DispatchEvent "transcription-update" a]
              else []
          | None =>
              [Say (RequestFailed (TranscriptionOf (currentRecordingId this)));
               Say FailedToGetTranscription;
               Say TranscriptionPollingError]
          end
     else [Say TranscriptionPollingError]).
Proof.
  unfold pollingTick, getTranscription, xtry, xbind, xget.
  destruct (truthy (currentRecordingId this)); cbn; [|reflexivity].
  destruct answer as [a|]; cbn; [|reflexivity].
  destruct (_ && _); reflexivity.
Qed.

(** X10: when the backend has accepted the recording and the microphone
    is then refused, [startRecording] throws with the session half made:
    the recording id is set and the buffers are reset, the transcription
    polling is already running when it was asked for, but there is no
    recorder and no processing loop.  On an object without a recorder
    [stopRecording] then throws 'No active recording' and sends no stop
    request, while a polling tick still queries the backend for the id
    that was never stopped. *)
Theorem X10_refused_microphone_leaves_a_session
    (model : string) (enableTranscription : bool) (env : StartEnv)
    (this : BackendService) (r : StartResponse.t) (id : string)
    (stop : StopEnv) (answer : option TranscriptionResponse.t) :
  startResponse env = Some r ->
  accepted r id ->
  microphone env = None ->
  mediaRecorder this = None ->
  result_of (startRecording model enableTranscription env this) =
    Failed (Raised DomException) /\
  object_of (startRecording model enableTranscription env this) =
    {| mediaRecorder := None;
       audioChunks := [];
       currentRecordingId := Some id;
       transcriptionInterval :=
         (enableTranscription && StartResponse.transcription_enabled r)
         || transcriptionInterval this;
       speechRecognition := speechRecognition this;
       isListening := isListening this;
       audioQueue := [];
       processingInterval := processingInterval this;
       accumulatedAudio := [];
       lastProcessTime := clock env;
       phraseTimeout := phraseTimeout this |} /\
  outcome_of (stopRecording stop
    (object_of (startRecording model enableTranscription env this))) =
    Thrown NoActiveRecording /\
  stop_steps (effects_of (stopRecording stop
    (object_of (startRecording model enableTranscription env this)))) = [] /\
  In (Request (TranscriptionOf (Some id)))
     (actions_of (pollingTick answer
       (object_of (startRecording model enableTranscription env this)))).
Proof.
  intros Hresp (Hok & Hrid & Hid) Hmic Hrec.
  apply truthy_Some in Hid.
  destruct env as [resp now mic api sthrow opus nthrow rthrow].
  cbn [startResponse microphone clock] in *. subst resp mic.
  destruct this as [mr chunks cid ti sr il q pi acc lt pt].
  cbn [mediaRecorder transcriptionInterval speechRecognition isListening
       processingInterval phraseTimeout] in *. subst mr.
  assert (Hobj :
    startRecording model enableTranscription
      {| startResponse := Some r; clock := now; microphone := None;
         speechApi := api; speechStart_throws := sthrow; opusSupported := opus;
         newRecorder_throws := nthrow; recorderStart_throws := rthrow |}
      {| mediaRecorder := None; audioChunks := chunks; currentRecordingId := cid;
         transcriptionInterval := ti; speechRecognition := sr; isListening := il;
         audioQueue := q; processingInterval := pi; accumulatedAudio := acc;
         lastProcessTime := lt; phraseTimeout := pt |} =
    (Failed (Raised DomException),
     {| mediaRecorder := None; audioChunks := []; currentRecordingId := Some id;
        transcriptionInterval :=
          (enableTranscription && StartResponse.transcription_enabled r) || ti;
        speechRecognition := sr; isListening := il; audioQueue := [];
        processingInterval := pi; accumulatedAudio := [];
        lastProcessTime := now; phraseTimeout := pt |},
     actions_of (startRecording model enableTranscription
      {| startResponse := Some r; clock := now; microphone := None;
         speechApi := api; speechStart_throws := sthrow; opusSupported := opus;
         newRecorder_throws := nthrow; recorderStart_throws := rthrow |}
      {| mediaRecorder := None; audioChunks := chunks; currentRecordingId := cid;
         transcriptionInterval := ti; speechRecognition := sr; isListening := il;
         audioQueue := q; processingInterval := pi; accumulatedAudio := acc;
         lastProcessTime := lt; phraseTimeout := pt |}))).
  { unfold_x. rewrite Hok, Hrid, Hid. cbn [andb].
    destruct enableTranscription, (StartResponse.transcription_enabled r);
      cbn [andb orb]; rewrite ?Hid; reflexivity. }
  unfold result_of, object_of at 1 2 3 4. rewrite Hobj. cbn [fst snd].
  split; [reflexivity|]. split; [reflexivity|].
  rewrite stopRecording_no_active_recording by (left; reflexivity).
  split; [reflexivity|]. split; [reflexivity|].
  rewrite pollingTick_eq. cbn [currentRecordingId actions_of snd].
  rewrite Hid. left. reflexivity.
Qed.

Lemma X10_refused_microphone_witness :
  startResponse no_microphone_env =
    Some {| StartResponse.success := true;
            StartResponse.recording_id := Some "rec-1";
            StartResponse.transcription_enabled := true |} /\
  microphone no_microphone_env = None /\
  mediaRecorder initial = None /\
  outcome_of (stopRecording quiet_env
    (object_of (startRecording "GPT-3.5" true no_microphone_env initial))) =
    Thrown NoActiveRecording /\
  transcriptionInterval
    (object_of (startRecording "GPT-3.5" true no_microphone_env initial)) = true.
Proof.
  do 3 (split; [reflexivity|]).
  assert (Hacc : accepted
            {| StartResponse.success := true;
               StartResponse.recording_id := Some "rec-1";
               StartResponse.transcription_enabled := true |} "rec-1").
  { repeat split. discriminate. }
  destruct (@X10_refused_microphone_leaves_a_session "GPT-3.5" true
              no_microphone_env initial _ "rec-1" quiet_env None
              eq_refl Hacc eq_refl eq_refl) as (_ & Hobj & Hstop & _).
  split; [exact Hstop|]. rewrite Hobj. reflexivity.
Defined.

Lemma startRecording_started
    (model : string) (enableTranscription : bool) (env : StartEnv)
    (this : BackendService) (r : StartResponse.t) (id : string) :
  startResponse env = Some r ->
  accepted r id ->
  cooperative env ->
  transcriptionInterval this = false ->
  speechRecognition this = false ->
  isListening this = false ->
  phraseTimeout this = 3000 ->
  result_of (startRecording model enableTranscription env this) = Done r /\
  after_onstart (speechApi env)
    (object_of (startRecording model enableTranscription env this)) =
  started id (clock env)
    (enableTranscription && StartResponse.transcription_enabled r)
    (speechApi env).
Proof.
  intros Hresp (Hok & Hrid & Hid) (Hmic & Hnew & Hstart & Hspeech) Hti Hsr Hil Hpt.
  apply truthy_Some in Hid.
  destruct env as [resp now mic api sthrow opus nthrow rthrow].
  cbn [startResponse microphone clock speechApi speechStart_throws
       newRecorder_throws recorderStart_throws] in *.
  subst resp mic sthrow nthrow rthrow.
  destruct this as [mr chunks cid ti sr il q pi acc lt pt].
  cbn [transcriptionInterval speechRecognition isListening phraseTimeout] in *.
  subst ti sr il pt.
  unfold after_onstart, started.
  destruct api, enableTranscription, (StartResponse.transcription_enabled r) eqn:Hte;
    unfold_x; rewrite Hok, Hrid, Hid; cbn [andb]; rewrite ?Hte, ?Hid;
    split; reflexivity.
Qed.

(** X11: a start that the backend accepts, in an environment where the
    microphone and the recorder work, on an object with no timer, no
    recognizer and the default timeout (a new object, or one that was
    stopped), resolves to the answer of the backend and, once the
    recognizer has reported its start, leaves the object in the state
    [started]: recorder and processing loop installed, the new id, empty
    queue and buffer, [lastProcessTime] the time of the call.  Whatever
    the object held of an earlier session is gone. *)
Theorem X11_start_establishes_started
    (model : string) (enableTranscription : bool) (env : StartEnv)
    (this : BackendService) (r : StartResponse.t) (id : string) :
  startResponse env = Some r ->
  accepted r id ->
  cooperative env ->
  transcriptionInterval this = false ->
  speechRecognition this = false ->
  isListening this = false ->
  phraseTimeout this = 3000 ->
  result_of (startRecording model enableTranscription env this) = Done r /\
  after_onstart (speechApi env)
    (object_of (startRecording model enableTranscription env this)) =
  started id (clock env)
    (enableTranscription && StartResponse.transcription_enabled r)
    (speechApi env).
Proof.
  intros Hresp Hacc Hcoop Hti Hsr Hil Hpt.
  exact (@startRecording_started model enableTranscription env this r id
           Hresp Hacc Hcoop Hti Hsr Hil Hpt).
Qed.

Lemma X11_start_establishes_started_witness :
  cooperative good_env /\
  after_onstart (speechApi good_env)
    (object_of (startRecording "GPT-3.5" true good_env initial)) =
  started "rec-1" 0 true true.
Proof.
  assert (Hacc : accepted
            {| StartResponse.success := true;
               StartResponse.recording_id := Some "rec-1";
               StartResponse.transcription_enabled := true |} "rec-1").
  { repeat split. discriminate. }
  assert (Hcoop : cooperative good_env) by (repeat split).
  split; [exact Hcoop|].
  destruct (@X11_start_establishes_started "GPT-3.5" true good_env initial _ "rec-1"
              eq_refl Hacc Hcoop eq_refl eq_refl eq_refl eq_refl) as [_ H].
  exact H.
Defined.

(** X12: trouble with the recognizer does not keep a recording from
    starting.  Whether the speech API is missing or the start of the
    recognizer throws, a start that the backend accepts, with a working
    microphone and recorder, resolves, with the recorder and the
    processing loop installed; the object holds a recognizer exactly when
    the API is there (or it held one before). *)
Theorem X12_recognizer_trouble_does_not_stop_the_start
    (model : string) (enableTranscription : bool) (env : StartEnv)
    (this : BackendService) (r : StartResponse.t) (id : string) (n : nat) :
  startResponse env = Some r ->
  accepted r id ->
  microphone env = Some n ->
  newRecorder_throws env = false ->
  recorderStart_throws env = false ->
  result_of (startRecording model enableTranscription env this) = Done r /\
  mediaRecorder (object_of (startRecording model enableTranscription env this)) =
    Some {| tracks := n |} /\
  processingInterval (object_of (startRecording model enableTranscription env this)) =
    true /\
  speechRecognition (object_of (startRecording model enableTranscription env this)) =
    speechApi env || speechRecognition this /\
  isListening (object_of (startRecording model enableTranscription env this)) =
    isListening this /\
  In (SetInterval ProcessingInterval 250)
     (actions_of (startRecording model enableTranscription env this)).
Proof.
  intros Hresp (Hok & Hrid & Hid) Hmic Hnew Hstart.
  apply truthy_Some in Hid.
  destruct env as [resp now mic api sthrow opus nthrow rthrow].
  cbn [startResponse microphone clock speechApi speechStart_throws
       newRecorder_throws recorderStart_throws] in *.
  subst resp mic nthrow rthrow.
  destruct this as [mr chunks cid ti sr il q pi acc lt pt].
  destruct api, sthrow, enableTranscription,
    (StartResponse.transcription_enabled r) eqn:Hte;
    unfold_x; rewrite Hok, Hrid, Hid; cbn [andb]; rewrite ?Hte, ?Hid;
    cbn; repeat split; auto 20.
Qed.

Lemma X12_recognizer_trouble_witness :
  speechApi no_speech_api_env = false /\
  speechStart_throws throwing_recognizer_env = true /\
  (exists r,
     result_of (startRecording "GPT-3.5" true no_speech_api_env initial) = Done r) /\
  processingInterval
    (object_of (startRecording "GPT-3.5" true no_speech_api_env initial)) = true /\
  speechRecognition
    (object_of (startRecording "GPT-3.5" true no_speech_api_env initial)) = false /\
  (exists r,
     result_of (startRecording "GPT-3.5" true throwing_recognizer_env initial) =
       Done r) /\
  processingInterval
    (object_of (startRecording "GPT-3.5" true throwing_recognizer_env initial)) =
    true /\
  In (SetInterval ProcessingInterval 250)
     (actions_of (startRecording "GPT-3.5" true throwing_recognizer_env initial)).
Proof.
  do 2 (split; [reflexivity|]).
  assert (Hacc : accepted
            {| StartResponse.success := true;
               StartResponse.recording_id := Some "rec-1";
               StartResponse.transcription_enabled := true |} "rec-1").
  { repeat split. discriminate. }
  destruct (@X12_recognizer_trouble_does_not_stop_the_start "GPT-3.5" true
              no_speech_api_env initial _ "rec-1" 1%nat
              eq_refl Hacc eq_refl eq_refl eq_refl)
    as (A1 & _ & A3 & A4 & _).
  destruct (@X12_recognizer_trouble_does_not_stop_the_start "GPT-3.5" true
              throwing_recognizer_env initial _ "rec-1" 1%nat
              eq_refl Hacc eq_refl eq_refl eq_refl)
    as (B1 & _ & B3 & _ & _ & B6).
  split; [eexists; exact A1|]. split; [exact A3|]. split; [exact A4|].
  split; [eexists; exact B1|]. split; [exact B3|exact B6].
Defined.

(** ** The recognizer *)

Lemma stopRecording_isListening (env : StopEnv) (this : BackendService)
    (recorder : MediaRecorder) :
  mediaRecorder this = Some recorder ->
  truthy (currentRecordingId this) = true ->
  isListening (state_of (stopRecording env this)) =
    isListening this && negb (speechRecognition this).
Proof.
  intros Hrec Hid.
  destruct (recorderStop_throws env) eqn:Hthrow.
  - rewrite (stopRecording_failure_state env this Hrec Hid) by (left; exact Hthrow).
    reflexivity.
  - destruct (stopResponse env) as [r|] eqn:Hresp.
    + rewrite (stopRecording_success_state env this Hrec Hid Hthrow Hresp).
      reflexivity.
    + rewrite (stopRecording_failure_state env this Hrec Hid) by (right; exact Hresp).
      reflexivity.
Qed.

(** X13: stopping a session that has a recognizer keeps the recognizer
    from coming back: from the moment [stopRecording] has passed its
    guard, and whether it then succeeds or fails, the end of the
    recognizer schedules no restart, and a restart that was already
    scheduled starts nothing. *)
Theorem X13_stop_prevents_the_restart
    (env : StopEnv) (this : BackendService) (recorder : MediaRecorder)
    (start_throws : bool) :
  mediaRecorder this = Some recorder ->
  truthy (currentRecordingId this) = true ->
  speechRecognition this = true ->
  onend (state_of (stopRecording env this)) =
    (Done tt, state_of (stopRecording env this), [Say SpeechEnded]) /\
  restart start_throws (state_of (stopRecording env this)) =
    (Done tt, state_of (stopRecording env this), []).
Proof.
  intros Hrec Hid Hsr.
  pose proof (stopRecording_isListening env this Hrec Hid) as Hil.
  rewrite Hsr, andb_false_r in Hil.
  unfold onend, restart, xtry, xbind, xget, say, act. rewrite Hil.
  cbn. rewrite andb_false_r. split; reflexivity.
Qed.

Lemma X13_stop_prevents_the_restart_witness :
  mediaRecorder one_fragment_drained = Some {| tracks := 1 |} /\
  truthy (currentRecordingId one_fragment_drained) = true /\
  speechRecognition one_fragment_drained = true /\
  actions_of (onend (state_of (stopRecording failing_recorder_env one_fragment_drained))) =
    [Say SpeechEnded].
Proof.
  do 3 (split; [reflexivity|]).
  destruct (@X13_stop_prevents_the_restart failing_recorder_env one_fragment_drained
              {| tracks := 1 |} false eq_refl eq_refl eq_refl) as [H _].
  rewrite H. reflexivity.
Defined.

(** X14: while a session is active and listening, the end of the
    recognizer schedules a restart 100 ms later and the restart starts
    the recognizer again; a restart that throws is caught.  None of the
    recognizer's callbacks [onend], [onerror] and the restart throws or
    changes a field, so trouble with the recognizer leaves queue, buffer
    and processing loop as they are. *)
Theorem X14_recognizer_restarts_while_active
    (this : BackendService) (error : string) (start_throws : bool) :
  isListening this = true ->
  speechRecognition this = true ->
  truthy (currentRecordingId this) = true ->
  onend this = (Done tt, this, [Say SpeechEnded; SetTimeout 100]) /\
  restart start_throws this =
    (Done tt, this,
     SpeechStart :: [Say (if start_throws then FailedToRestartSpeech
                          else SpeechRestarted)]) /\
  result_of (onerror error this) = Done tt /\
  object_of (onerror error this) = this.
Proof.
  intros Hil Hsr Hid.
  unfold onend, restart, onerror, xtry, xbind, xget, say, act, xcall.
  rewrite Hil, Hsr, Hid. cbn.
  destruct start_throws; cbn; repeat split.
  all: destruct (_ || _); reflexivity.
Qed.

Lemma X14_recognizer_restarts_witness :
  isListening (started "rec-1" 0 true true) = true /\
  actions_of (onend (started "rec-1" 0 true true)) =
    [Say SpeechEnded; SetTimeout 100].
Proof.
  split; [reflexivity|].
  destruct (@X14_recognizer_restarts_while_active (started "rec-1" 0 true true)
              "network" false eq_refl eq_refl eq_refl) as [H _].
  rewrite H. reflexivity.
Defined.

(** ** Transcription polling *)

(** [getTranscription] case by case. *)
Lemma getTranscription_eq
    (answer : option TranscriptionResponse.t) (this : BackendService) :
  getTranscription answer this =
    (if truthy (currentRecordingId this) then
       match answer with
       | Some a => Done a
       | None => Failed (Raised HttpError)
       end
     else Failed (Raised NoActiveRecording),
     this,
     if truthy (currentRecordingId this) then
       Request (TranscriptionOf (currentRecordingId this))
       :: match answer with
          | Some a =>
              if TranscriptionResponse.success a
                 && truthy (TranscriptionResponse.current_text a)
              then [Say (CurrentTranscription (TranscriptionResponse.current_text a));
                    DispatchEvent "transcription-update" a]
              else []
          | None =>
              [Say (RequestFailed (TranscriptionOf (currentRecordingId this)));
               Say FailedToGetTranscription]
          end
     else []).
Proof.
  unfold getTranscription, xtry, xbind, xget.
  destruct (truthy (currentRecordingId this)); cbn; [|reflexivity].
  destruct answer as [a|]; cbn; [|reflexivity].
  destruct (_ && _); reflexivity.
Qed.

(** X15: the polling callback never throws and never changes a field,
    whatever the request does; without a recording id it sends nothing
    and dispatches nothing.  So a polling callback that still fires after
    a successful [stopRecording] reaches the backend no more: it only
    logs the polling error. *)
Theorem X15_polling_is_silent_after_stop
    (answer : option TranscriptionResponse.t) (this : BackendService) :
  result_of (pollingTick answer this) = Done tt /\
  object_of (pollingTick answer this) = this /\
  (truthy (currentRecordingId this) = false ->
   actions_of (pollingTick answer this) = [Say TranscriptionPollingError]) /\
  (forall env recorder r,
     mediaRecorder this = Some recorder ->
     truthy (currentRecordingId this) = true ->
     recorderStop_throws env = false ->
     stopResponse env = Some r ->
     actions_of (pollingTick answer (state_of (stopRecording env this))) =
       [Say TranscriptionPollingError]).
Proof.
  split; [rewrite pollingTick_eq; reflexivity|].
  split; [rewrite pollingTick_eq; reflexivity|].
  split.
  - intro H. rewrite pollingTick_eq. unfold actions_of. cbn [snd].
    rewrite H. reflexivity.
  - intros env recorder r Hrec Hid Hthrow Hresp.
    rewrite (stopRecording_success_state env this Hrec Hid Hthrow Hresp).
    rewrite pollingTick_eq. reflexivity.
Qed.

Lemma X15_polling_is_silent_after_stop_witness :
  mediaRecorder one_fragment_drained = Some {| tracks := 1 |} /\
  truthy (currentRecordingId one_fragment_drained) = true /\
  actions_of
    (pollingTick None (state_of (stopRecording quiet_env one_fragment_drained))) =
    [Say TranscriptionPollingError].
Proof.
  do 2 (split; [reflexivity|]).
  destruct (X15_polling_is_silent_after_stop None one_fragment_drained)
    as (_ & _ & _ & H).
  exact (H quiet_env {| tracks := 1 |} _ eq_refl eq_refl eq_refl eq_refl).
Defined.

(** ** One session after another *)

Lemma step_session_fields (w : World) (e : Event) :
  mediaRecorder (backendService (fst (step w e))) = mediaRecorder (backendService w) /\
  speechRecognition (backendService (fst (step w e))) =
    speechRecognition (backendService w) /\
  isListening (backendService (fst (step w e))) = isListening (backendService w) /\
  phraseTimeout (backendService (fst (step w e))) = phraseTimeout (backendService w).
Proof.
  destruct w as [s rd rq]. run_step.
  destruct e as [d|now|rs|i|i ok].
  - unfold_handlers. split_ifs; repeat split.
  - destruct (processingInterval s); unfold_handlers; split_ifs; repeat split.
  - destruct (speechRecognition s) eqn:Hsr; unfold_handlers; split_ifs;
      repeat split; auto.
  - destruct (nth_error rd i) as [[b t]|]; unfold_handlers; repeat split.
  - destruct (nth_error rq i) as [r|]; [destruct ok|]; unfold_handlers; repeat split.
Qed.

Lemma run_session_fields (w : World) (tr : list Event) :
  mediaRecorder (backendService (fst (run w tr))) = mediaRecorder (backendService w) /\
  speechRecognition (backendService (fst (run w tr))) =
    speechRecognition (backendService w) /\
  isListening (backendService (fst (run w tr))) = isListening (backendService w) /\
  phraseTimeout (backendService (fst (run w tr))) = phraseTimeout (backendService w).
Proof.
  revert w. induction tr as [|e tr IH]; intro w; [repeat split|].
  cbn [run]. destruct (step_session_fields w e) as (H1 & H2 & H3 & H4).
  destruct (step w e) as [w1 fx1]. cbn [fst] in *.
  destruct (IH w1) as (I1 & I2 & I3 & I4).
  destruct (run w1 tr) as [w2 fx2]. cbn [fst] in *.
  repeat split; congruence.
Qed.

(** X16: sessions can follow one another.  Take a session in the state
    [started], let anything happen in it (deliveries, ticks, phrase
    boundaries, uploads that succeed or fail), stop it successfully, and
    start again: the object is in the state [started] of the new session,
    with the new id and an empty queue and buffer.  No fragment, timer or
    recognizer of the first session is carried over. *)
Theorem X16_a_stopped_session_can_be_started_again
    (id : string) (now : Z) (polling speech : bool) (tr : list Event)
    (stop : StopEnv) (answer : RecordingResponse)
    (model : string) (enableTranscription : bool) (env : StartEnv)
    (r : StartResponse.t) (id' : string) :
  id <> EmptyString ->
  recorderStop_throws stop = false ->
  stopResponse stop = Some answer ->
  startResponse env = Some r ->
  accepted r id' ->
  cooperative env ->
  after_onstart (speechApi env)
    (object_of (startRecording model enableTranscription env
      (state_of (stopRecording stop
        (backendService (fst (run (fresh id now polling speech) tr))))))) =
  started id' (clock env)
    (enableTranscription && StartResponse.transcription_enabled r)
    (speechApi env).
Proof.
  intros Hid Hthrow Hanswer Hresp Hacc Hcoop.
  destruct (run_session_fields (fresh id now polling speech) tr)
    as (Hmr & Hsr & Hil & Hpt).
  pose proof (run_currentRecordingId (fresh id now polling speech) tr) as Hcid.
  cbn [fresh backendService started mediaRecorder speechRecognition isListening
       phraseTimeout currentRecordingId] in Hmr, Hsr, Hil, Hpt, Hcid.
  set (s1 := backendService (fst (run (fresh id now polling speech) tr))) in *.
  assert (Htruthy : truthy (currentRecordingId s1) = true)
    by (rewrite Hcid; apply truthy_Some; exact Hid).
  pose proof (stopRecording_success_state stop s1 Hmr Htruthy Hthrow Hanswer) as Hst.
  apply (@startRecording_started model enableTranscription env _ r id' Hresp Hacc Hcoop).
  all: rewrite Hst; cbn [transcriptionInterval speechRecognition isListening
                         phraseTimeout]; auto.
  rewrite Hil, Hsr. destruct speech; reflexivity.
Qed.

Lemma X16_second_session_witness :
  cooperative good_env /\
  after_onstart (speechApi good_env)
    (object_of (startRecording "GPT-3.5" true good_env
      (state_of (stopRecording quiet_env
        (backendService (fst (run (fresh "rec-0" 0 true true)
                                  [DataAvailable fragment_a; Tick 250;
                                   DataAvailable fragment_b]))))))) =
  started "rec-1" 0 true true.
Proof.
  assert (Hacc : accepted
            {| StartResponse.success := true;
               StartResponse.recording_id := Some "rec-1";
               StartResponse.transcription_enabled := true |} "rec-1").
  { repeat split. discriminate. }
  assert (Hcoop : cooperative good_env) by (repeat split).
  assert (Hid : "rec-0" <> EmptyString) by discriminate.
  split; [exact Hcoop|].
  exact (@X16_a_stopped_session_can_be_started_again "rec-0" 0 true true
           [DataAvailable fragment_a; Tick 250; DataAvailable fragment_b]
           quiet_env _ "GPT-3.5" true good_env _ "rec-1"
           Hid eq_refl eq_refl eq_refl Hacc Hcoop).
Defined.


(** ** The call timer *)

Lemma filler_zeros (n : nat) (cur : string) :
  (cur = EmptyString \/ cur = "0") ->
  forall s, digits_value (String.append (filler n cur "0") s) = digits_value s.
Proof.
  revert cur. induction n as [|n IH]; intros cur Hcur s; [reflexivity|].
  specialize (IH EmptyString (or_introl eq_refl) s).
  unfold digits_value in *.
  destruct Hcur as [-> | ->];
    cbn [filler String.append DecimalString.NilEmpty.uint_of_string];
    destruct (DecimalString.NilEmpty.uint_of_string
                (String.append (filler n EmptyString "0") s)) as [d|];
    destruct (DecimalString.NilEmpty.uint_of_string s) as [d'|];
    cbn in *; try discriminate; try reflexivity; exact IH.
Qed.

Lemma digits_value_padStart (n : nat) (s : string) :
  digits_value (padStart n "0" s) = digits_value s.
Proof.
  unfold padStart. destruct (n <=? String.length s)%nat; [reflexivity|].
  apply filler_zeros. right. reflexivity.
Qed.

Lemma digits_value_toString (m : Z) :
  0 <= m -> digits_value (toString m) = Some m.
Proof.
  intro Hm. unfold toString, digits_value.
  pose proof (DecimalZ.of_to m) as Hof.
  destruct (Z.to_int m) as [d|d] eqn:Hd.
  - cbn [DecimalString.NilZero.string_of_int]. cbn [Z.of_int] in Hof.
    destruct d; cbn [DecimalString.NilZero.string_of_uint];
      try (rewrite DecimalString.NilEmpty.usu; cbn [option_map]; rewrite Hof;
           reflexivity).
    cbn. cbn in Hof. rewrite <- Hof. reflexivity.
  - destruct m; cbn in Hd; try discriminate. lia.
Qed.

Lemma digits_have_no_colon (s : string) (v : Z) :
  digits_value s = Some v ->
  forall a b, s <> String.append a (String ":" b).
Proof.
  unfold digits_value. revert v.
  induction s as [|c s IH]; intros v Hv a b Heq.
  - destruct a; discriminate.
  - cbn [DecimalString.NilEmpty.uint_of_string] in Hv.
    destruct (DecimalString.NilEmpty.uint_of_string s) as [d|] eqn:Hd;
      [|discriminate].
    destruct (DecimalString.uint_of_char c (Some d)) as [d'|] eqn:Hc;
      [|discriminate].
    destruct a as [|x a]; cbn in Heq; inversion Heq; subst.
    + cbn in Hc. discriminate.
    + eapply (IH (Z.of_uint d)); reflexivity.
Qed.

Lemma split_at_colon (x x' y y' : string) (v v' : Z) :
  digits_value x = Some v -> digits_value x' = Some v' ->
  String.append x (String ":" y) = String.append x' (String ":" y') ->
  x = x' /\ y = y'.
Proof.
  revert x' v v'. induction x as [|c x IH]; intros x' v v' Hx Hx' Heq.
  - destruct x' as [|c' x']; cbn in Heq.
    + inversion Heq. auto.
    + inversion Heq; subst.
      exfalso. eapply (@digits_have_no_colon _ _ Hx' EmptyString x'). reflexivity.
  - destruct x' as [|c' x']; cbn in Heq.
    + inversion Heq; subst.
      exfalso. eapply (@digits_have_no_colon _ _ Hx EmptyString x). reflexivity.
    + inversion Heq; subst.
      unfold digits_value in Hx, Hx'.
      cbn [DecimalString.NilEmpty.uint_of_string] in Hx, Hx'.
      destruct (DecimalString.NilEmpty.uint_of_string x) as [d|] eqn:Hd;
        [|discriminate].
      destruct (DecimalString.NilEmpty.uint_of_string x') as [d'|] eqn:Hd';
        [|discriminate].
      destruct (IH x' (Z.of_uint d) (Z.of_uint d')) as [E1 E2].
      * unfold digits_value. rewrite Hd. reflexivity.
      * unfold digits_value. rewrite Hd'. reflexivity.
      * assumption.
      * subst. auto.
Qed.

Lemma digits_value_field (m : Z) :
  0 <= m -> digits_value (padStart 2 "0" (toString m)) = Some m.
Proof.
  intro Hm. rewrite digits_value_padStart. apply digits_value_toString. exact Hm.
Qed.

Lemma length_append (a b : string) :
  String.length (String.append a b) = (String.length a + String.length b)%nat.
Proof. induction a as [|c a IH]; cbn; [reflexivity|rewrite IH; reflexivity]. Qed.

Lemma filler_length (n : nat) (cur : string) :
  String.length (filler n cur "0") = n.
Proof.
  revert cur. induction n as [|n IH]; intro cur; [reflexivity|].
  destruct cur; cbn [filler String.length]; rewrite IH; reflexivity.
Qed.

Lemma padStart_length (n : nat) (s : string) :
  String.length (padStart n "0" s) = Nat.max n (String.length s).
Proof.
  unfold padStart. destruct (Nat.leb_spec n (String.length s)) as [H|H].
  - lia.
  - rewrite length_append, filler_length. lia.
Qed.

Lemma toString_short (r : Z) :
  0 <= r < 60 -> (String.length (toString r) <= 2)%nat.
Proof.
  intros Hr.
  assert (Hall : forallb (fun k => (String.length (toString (Z.of_nat k)) <=? 2)%nat)
                   (seq 0 60) = true) by (vm_compute; reflexivity).
  rewrite forallb_forall in Hall.
  specialize (Hall (Z.to_nat r)).
  rewrite Z2Nat.id in Hall by lia.
  apply Nat.leb_le, Hall, in_seq. lia.
Qed.

(** X17: for a whole number of seconds from 0 to [MAX_SAFE_INTEGER] the
    call timer reads minutes, a colon, seconds: the part before the colon
    is a decimal numeral of the duration divided by 60, of two characters
    or more (minutes above 99 are written in full, not cut), and the part
    after it a numeral of the remainder, of exactly two characters. *)
Theorem X17_formatDuration_reads_back (seconds : Z) :
  0 <= seconds <= MAX_SAFE_INTEGER ->
  exists mm ss,
    formatDuration seconds = String.append mm (String.append ":" ss) /\
    digits_value mm = Some (seconds / 60) /\
    digits_value ss = Some (seconds mod 60) /\
    (2 <= String.length mm)%nat /\
    String.length ss = 2%nat.
Proof.
  intros [Hs _].
  assert (Hm : 0 <= seconds / 60) by (apply Z.div_pos; lia).
  assert (Hrem : Z.rem seconds 60 = seconds mod 60) by (apply Z.rem_mod_nonneg; lia).
  assert (Hr : 0 <= seconds mod 60 < 60) by (apply Z.mod_pos_bound; lia).
  exists (padStart 2 "0" (toString (seconds / 60))),
         (padStart 2 "0" (toString (seconds mod 60))).
  split; [unfold formatDuration; cbv zeta; rewrite Hrem; reflexivity|].
  split; [apply digits_value_field; exact Hm|].
  split; [apply digits_value_field; lia|].
  rewrite !padStart_length. split; [lia|].
  pose proof (toString_short Hr). lia.
Qed.

Lemma X17_formatDuration_reads_back_witness :
  0 <= 6125 <= MAX_SAFE_INTEGER /\
  exists mm ss,
    formatDuration 6125 = String.append mm (String.append ":" ss) /\
    digits_value mm = Some (6125 / 60) /\
    digits_value ss = Some (6125 mod 60) /\
    (2 <= String.length mm)%nat /\
    String.length ss = 2%nat.
Proof.
  assert (H : 0 <= 6125 <= MAX_SAFE_INTEGER) by (split; discriminate).
  split; [exact H|]. exact (@X17_formatDuration_reads_back 6125 H).
Defined.

(** X18: the call timer never shows the same text for two different
    durations: on whole numbers of seconds from 0 to [MAX_SAFE_INTEGER]
    [formatDuration] is injective. *)
Theorem X18_formatDuration_tells_durations_apart (a b : Z) :
  0 <= a <= MAX_SAFE_INTEGER -> 0 <= b <= MAX_SAFE_INTEGER -> a <> b ->
  formatDuration a <> formatDuration b.
Proof.
  intros [Ha _] [Hb _] Hab Heq. apply Hab. clear Hab.
  unfold formatDuration in Heq. cbv zeta in Heq.
  assert (Hma : 0 <= a / 60) by (apply Z.div_pos; lia).
  assert (Hmb : 0 <= b / 60) by (apply Z.div_pos; lia).
  assert (Hra : 0 <= Z.rem a 60) by (apply Z.rem_nonneg; lia).
  assert (Hrb : 0 <= Z.rem b 60) by (apply Z.rem_nonneg; lia).
  cbn [String.append] in Heq.
  destruct (@split_at_colon _ _ _ _ _ _
              (digits_value_field Hma) (digits_value_field Hmb) Heq)
    as [Hm Hs].
  pose proof (digits_value_field Hma) as Va. rewrite Hm in Va.
  rewrite (digits_value_field Hmb) in Va.
  pose proof (digits_value_field Hra) as Wa. rewrite Hs in Wa.
  rewrite (digits_value_field Hrb) in Wa.
  inversion Va as [Va']. inversion Wa as [Wa'].
  rewrite (Z.quot_rem' a 60), (Z.quot_rem' b 60).
  rewrite <- !Z.quot_div_nonneg in Va' by lia.
  congruence.
Qed.

Lemma X18_formatDuration_tells_durations_apart_witness :
  0 <= 59 <= MAX_SAFE_INTEGER /\ 0 <= 60 <= MAX_SAFE_INTEGER /\ 59 <> 60 /\
  formatDuration 59 <> formatDuration 60.
Proof.
  assert (H1 : 0 <= 59 <= MAX_SAFE_INTEGER) by (split; discriminate).
  assert (H2 : 0 <= 60 <= MAX_SAFE_INTEGER) by (split; discriminate).
  assert (H3 : 59 <> 60) by discriminate.
  do 3 (split; [assumption|]).
  exact (@X18_formatDuration_tells_durations_apart 59 60 H1 H2 H3).
Defined.


(** ** The simulated chat *)

Lemma processChatMessage_data (m : ChatMessage.t) (pick : Pick) (iso : string) :
  exists data,
    processChatMessage m pick iso =
      {| ChatResponse.success := true; ChatResponse.data := Some data;
         ChatResponse.error := None |} /\
    quotes (ChatResponse.response data) (ChatMessage.message m) /\
    ChatResponse.response data <> apology /\
    ChatResponse.user_message data = ChatMessage.message m /\
    ChatResponse.model data = or_default (ChatMessage.model m) "GPT-3.5".
Proof.
  eexists. split; [reflexivity|].
  cbn [ChatResponse.response ChatResponse.user_message ChatResponse.model].
  split; [|split; [|split; reflexivity]].
  - destruct pick; eexists; eexists; reflexivity.
  - intro H. destruct pick; cbn in H; discriminate H.
Qed.

(** X19: whatever the random draw, [processChatMessage] answers with a
    success whose text holds the user's message, unchanged, between
    double quotes.  The answer echoes the message and names the model of
    the message, or GPT-3.5 when the message has no model or an empty
    one. *)
Theorem X19_reply_quotes_the_message
    (m : ChatMessage.t) (pick : Pick) (iso : string) :
  ChatResponse.success (processChatMessage m pick iso) = true /\
  exists data,
    ChatResponse.data (processChatMessage m pick iso) = Some data /\
    quotes (ChatResponse.response data) (ChatMessage.message m) /\
    ChatResponse.user_message data = ChatMessage.message m /\
    ChatResponse.model data =
      match ChatMessage.model m with
      | Some EmptyString | None => "GPT-3.5"
      | Some s => s
      end.
Proof.
  destruct (processChatMessage_data m pick iso) as (data & E & Hq & _ & Hu & Hm).
  rewrite E. split; [reflexivity|]. exists data.
  split; [reflexivity|]. split; [exact Hq|]. split; [exact Hu|].
  rewrite Hm. unfold or_default, truthy.
  destruct (ChatMessage.model m) as [[|c s]|]; reflexivity.
Qed.

(** X20: [handleSendMessage] ignores a message that is empty or white
    space only: the chat and the input stay as they are and nothing is
    sent.  Any other message is added to the chat as typed, the input is
    cleared, and the message goes to [sendChatMessage] with the current
    model; when the answer of the service arrives, one entry that quotes
    the message is added to the chat of that moment and [isTyping] is
    switched off.  The apology of the [catch] branch is never shown. *)
Theorem X20_send_adds_message_and_reply
    (now : Z) (time sent_iso iso : string) (pick : Pick)
    (now' : Z) (time' : string) (ui later : ChatState) :
  (is_blank (message ui) = true ->
   handleSendMessage_send now time ui = (ui, None)) /\
  (is_blank (message ui) = false ->
   handleSendMessage_send now time ui =
     ({| message := EmptyString;
         chatMessages :=
           chatMessages ui ++
           [{| ChatEntry.id := now; ChatEntry.text := message ui;
               ChatEntry.isUser := true; ChatEntry.timestamp := time |}];
         isTyping := true;
         currentModel := currentModel ui |},
      Some (message ui, currentModel ui)) /\
   exists reply,
     quotes reply (message ui) /\
     reply <> apology /\
     handleSendMessage_receive
       (sendChatMessage (message ui) (Some (currentModel ui)) sent_iso pick iso)
       now' time' later =
       {| message := message later;
          chatMessages :=
            chatMessages later ++
            [{| ChatEntry.id := now' + 1; ChatEntry.text := reply;
                ChatEntry.isUser := false; ChatEntry.timestamp := time' |}];
          isTyping := false;
          currentModel := currentModel later |}).
Proof.
  unfold handleSendMessage_send. rewrite truthy_trim.
  split; intro Hb; rewrite Hb; cbn [negb]; [reflexivity|].
  split; [reflexivity|].
  unfold sendChatMessage.
  match goal with |- context [processChatMessage ?m pick iso] =>
    destruct (processChatMessage_data m pick iso) as (data & E & Hq & Ha & _);
    rewrite E end.
  exists (ChatResponse.response data).
  split; [exact Hq|]. split; [exact Ha|]. reflexivity.
Qed.

Lemma X20_send_adds_message_and_reply_witness :
  is_blank "hi" = false /\
  fst (handleSendMessage_send 7 "10:00"
         {| message := "hi"; chatMessages := []; isTyping := false;
            currentModel := "GPT-4" |}) =
    {| message := EmptyString;
       chatMessages :=
         [{| ChatEntry.id := 7; ChatEntry.text := "hi";
             ChatEntry.isUser := true; ChatEntry.timestamp := "10:00" |}];
       isTyping := true; currentModel := "GPT-4" |}.
Proof.
  split; [reflexivity|].
  pose proof (X20_send_adds_message_and_reply 7 "10:00" "a" "b" Pick0 8 "10:01"
    {| message := "hi"; chatMessages := []; isTyping := false;
       currentModel := "GPT-4" |}
    {| message := "hi"; chatMessages := []; isTyping := false;
       currentModel := "GPT-4" |}) as [_ H].
  destruct (H eq_refl) as [E _]. rewrite E. reflexivity.
Defined.


(** ** The first revision of the service *)

Ltac unfold_rev1 :=
  cbv [Revision1.bind Revision1.ret Revision1.throw Revision1.try_catch
       Revision1.get Revision1.put Revision1.act Revision1.say Revision1.call
       Revision1.request_receive Revision1.result_of Revision1.object_of
       Revision1.actions_of].

Lemma rev1_requests_of_app (a b : list Revision1.Action) :
  Revision1.requests_of (a ++ b) =
  Revision1.requests_of a ++ Revision1.requests_of b.
Proof.
  induction a as [|x a IH]; [reflexivity|].
  destruct x; cbn; rewrite IH; reflexivity.
Qed.

Lemma rev1_forEach_const (f : Revision1.R unit) (fx0 : list Revision1.Action)
    (Hf : forall this, f this = (Done tt, this, fx0))
    (Hfx0 : Revision1.requests_of fx0 = [])
    (n : nat) (this : Revision1.BackendService) :
  exists fx,
    Revision1.forEach n f this = (Done tt, this, fx) /\
    Revision1.requests_of fx = [].
Proof.
  induction n as [|n IH]; cbn [Revision1.forEach].
  - eexists. split; reflexivity.
  - destruct IH as (fx & E & Hfx).
    unfold Revision1.bind. rewrite Hf, E.
    exists (fx0 ++ fx). split; [reflexivity|].
    rewrite rev1_requests_of_app, Hfx0, Hfx. reflexivity.
Qed.

Lemma rev1_reads_app (a b : list Revision1.Action) :
  Revision1.reads (a ++ b) = Revision1.reads a ++ Revision1.reads b.
Proof.
  induction a as [|x a IH]; [reflexivity|].
  destruct x; cbn; rewrite IH; reflexivity.
Qed.

Lemma rev1_stopRecording_cases (env : Revision1.StopEnv)
    (this : Revision1.BackendService) :
  (exists e,
     Revision1.result_of (Revision1.stopRecording env this) = Failed e /\
     Revision1.object_of (Revision1.stopRecording env this) = this /\
     (Revision1.stopResponse env <> None ->
      Revision1.requests_of
        (Revision1.actions_of (Revision1.stopRecording env this)) = [])) \/
  (exists r recorder,
     Revision1.result_of (Revision1.stopRecording env this) = Done r /\
     Revision1.stopResponse env = Some r /\
     Revision1.mediaRecorder this = Some recorder /\
     truthy (Revision1.currentRecordingId this) = true /\
     Revision1.object_of (Revision1.stopRecording env this) =
       {| Revision1.mediaRecorder := None;
          Revision1.audioChunks := Revision1.audioChunks this;
          Revision1.currentRecordingId := None |} /\
     Revision1.requests_of
       (Revision1.actions_of (Revision1.stopRecording env this)) =
       [Revision1.RecordingStop (Revision1.currentRecordingId this)]).
Proof.
  destruct this as [rec chunks id], env as [thr resp].
  unfold Revision1.stopRecording.
  destruct rec as [recorder|].
  2:{ left. eexists. unfold_rev1. cbn. repeat split; reflexivity. }
  destruct (truthy id) eqn:Hid.
  2:{ left. eexists. unfold_rev1. cbn. rewrite Hid. cbn.
      repeat split; reflexivity. }
  destruct thr.
  { left. eexists. unfold_rev1. cbn. rewrite Hid. cbn.
    repeat split; reflexivity. }
  set (f := Revision1.bind (Revision1.act Revision1.TrackStop) _).
  assert (Hf : forall s, f s =
            (Done tt, s,
             [Revision1.TrackStop; Revision1.Say Revision1.TrackStopped]))
    by (intro s; reflexivity).
  clearbody f.
  destruct (@rev1_forEach_const f _ Hf eq_refl (tracks recorder)
              {| Revision1.mediaRecorder := Some recorder;
                 Revision1.audioChunks := chunks;
                 Revision1.currentRecordingId := id |}) as (fx & E & Hfx).
  destruct resp as [r|].
  - right. exists r, recorder.
    unfold_rev1. cbn -[Revision1.forEach]. rewrite Hid. cbn -[Revision1.forEach].
    rewrite E.
    cbn. rewrite rev1_requests_of_app, Hfx.
    repeat split; reflexivity.
  - left. eexists.
    unfold_rev1. cbn -[Revision1.forEach]. rewrite Hid. cbn -[Revision1.forEach].
    rewrite E.
    cbn. split; [reflexivity|]. split; [reflexivity|].
    intro H. contradiction H. reflexivity.
Qed.

Lemma rev1_ondataavailable_eq (data : Blob) (this : Revision1.BackendService) :
  Revision1.ondataavailable data this =
    if size data >? 0 then
      (Done tt,
       {| Revision1.mediaRecorder := Revision1.mediaRecorder this;
          Revision1.audioChunks := Revision1.audioChunks this ++ [data];
          Revision1.currentRecordingId := Revision1.currentRecordingId this |},
       [Revision1.Say (Revision1.ChunkReceived (size data));
        Revision1.ReadAsDataURL data])
    else
      (Done tt, this, [Revision1.Say (Revision1.ChunkReceived (size data))]).
Proof.
  unfold Revision1.ondataavailable. unfold_rev1.
  destruct (size data >? 0); reflexivity.
Qed.

(** X21: in the first revision every fragment of positive size that the
    recorder delivers is kept in [audioChunks] and handed to a reader of
    its own at once, in the order of arrival; a fragment of size zero is
    dropped.  Delivering fragments sends no request and touches neither
    the recorder nor the recording id. *)
Theorem X21_each_fragment_gets_its_own_reader
    (ds : list Blob) (this : Revision1.BackendService) :
  Revision1.reads (snd (Revision1.deliver ds this)) =
    filter Revision1.nonempty ds /\
  Revision1.audioChunks (fst (Revision1.deliver ds this)) =
    Revision1.audioChunks this ++ filter Revision1.nonempty ds /\
  Revision1.requests_of (snd (Revision1.deliver ds this)) = [] /\
  Revision1.mediaRecorder (fst (Revision1.deliver ds this)) =
    Revision1.mediaRecorder this /\
  Revision1.currentRecordingId (fst (Revision1.deliver ds this)) =
    Revision1.currentRecordingId this.
Proof.
  revert this. induction ds as [|d ds IH]; intro this.
  - cbn. rewrite app_nil_r. repeat split; reflexivity.
  - cbn [Revision1.deliver filter]. rewrite rev1_ondataavailable_eq.
    assert (Hn : Revision1.nonempty d = (size d >? 0)) by reflexivity.
    rewrite Hn. clear Hn.
    destruct (size d >? 0).
    + match goal with |- context [Revision1.deliver ds ?s] =>
        specialize (IH s); destruct (Revision1.deliver ds s) as [this2 fx2] end.
      cbn [fst snd] in *. destruct IH as (H1 & H2 & H3 & H4 & H5).
      cbn [Revision1.audioChunks Revision1.mediaRecorder
           Revision1.currentRecordingId] in *.
      rewrite rev1_reads_app, rev1_requests_of_app, H1, H2, H3, H4, H5.
      rewrite <- app_assoc. repeat split; reflexivity.
    + specialize (IH this). destruct (Revision1.deliver ds this) as [this2 fx2].
      cbn [fst snd] in *. destruct IH as (H1 & H2 & H3 & H4 & H5).
      rewrite rev1_reads_app, rev1_requests_of_app, H1, H2, H3, H4, H5.
      repeat split; reflexivity.
Qed.

(** X22: in the first revision the upload of a fragment is one chunk
    request that carries the fragment and the recording id of the moment
    the read ends; however the request settles, the handler returns and
    the object stays as it is.  So a fragment whose read ends after
    [stopRecording] has succeeded is uploaded with no recording id. *)
Theorem X22_late_chunk_is_uploaded_without_id
    (env : Revision1.StopEnv) (this : Revision1.BackendService)
    (r : RecordingResponse) (data : Blob) (ok : bool)
    (Hstop : Revision1.result_of (Revision1.stopRecording env this) = Done r) :
  let stopped := Revision1.object_of (Revision1.stopRecording env this) in
  Revision1.requests_of
    (Revision1.actions_of (Revision1.onloadend_send data stopped)) =
    [Revision1.RecordingChunk None data] /\
  Revision1.object_of (Revision1.onloadend_send data stopped) = stopped /\
  Revision1.result_of
    (Revision1.onloadend_receive (Revision1.RecordingChunk None data) ok stopped)
    = Done tt /\
  Revision1.object_of
    (Revision1.onloadend_receive (Revision1.RecordingChunk None data) ok stopped)
    = stopped.
Proof.
  intro stopped. subst stopped.
  destruct (rev1_stopRecording_cases env this)
    as [(e & He & _)|(r' & rec & _ & _ & _ & _ & Hobj & _)].
  { rewrite He in Hstop. discriminate Hstop. }
  rewrite Hobj.
  unfold Revision1.onloadend_send, Revision1.onloadend_receive. unfold_rev1.
  destruct ok; cbn; repeat split; reflexivity.
Qed.

(** X23: in the first revision a [stopRecording] that fails, whether it
    is refused, the recorder throws or the stop request fails, leaves the
    three fields of the object as they were, so the recorder and the
    recording id stay; only a stop whose request succeeds clears them.
    [audioChunks] is kept in both cases, and a successful stop has sent
    exactly one request, the stop request with the recording id. *)
Theorem X23_failed_stop_keeps_the_session
    (env : Revision1.StopEnv) (this : Revision1.BackendService) :
  (forall e,
     Revision1.result_of (Revision1.stopRecording env this) = Failed e ->
     Revision1.object_of (Revision1.stopRecording env this) = this) /\
  (forall r,
     Revision1.result_of (Revision1.stopRecording env this) = Done r ->
     Revision1.stopResponse env = Some r /\
     Revision1.object_of (Revision1.stopRecording env this) =
       {| Revision1.mediaRecorder := None;
          Revision1.audioChunks := Revision1.audioChunks this;
          Revision1.currentRecordingId := None |} /\
     Revision1.requests_of
       (Revision1.actions_of (Revision1.stopRecording env this)) =
       [Revision1.RecordingStop (Revision1.currentRecordingId this)]).
Proof.
  destruct (rev1_stopRecording_cases env this)
    as [(e & He & Hobj & _)|(r' & rec & Hr & Hresp & _ & _ & Hobj & Hreq)].
  - split; [intros _ _; exact Hobj|].
    intros r H. rewrite He in H. discriminate H.
  - split; [intros e H; rewrite Hr in H; discriminate H|].
    intros r H. rewrite Hr in H. injection H as <-.
    repeat split; assumption.
Qed.

(** X24: in the first revision, when the backend accepts the recording
    and the microphone is then refused, [startRecording] fails but has
    already stored the recording id.  On an object that had no recorder,
    [stopRecording] is then refused with 'No active recording' and sends
    nothing: the recording opened on the backend is never closed. *)
Theorem X24_first_revision_refused_microphone
    (model : string) (env : Revision1.StartEnv) (senv : Revision1.StopEnv)
    (this : Revision1.BackendService) (r : RecordingResponse) (id : string)
    (Hresp : Revision1.startResponse env = Some r)
    (Hsucc : success r = true)
    (Hid : resp_recording_id r = Some id)
    (Hne : id <> EmptyString)
    (Hmic : Revision1.microphone env = None)
    (Hrec : Revision1.mediaRecorder this = None) :
  let failed := Revision1.object_of (Revision1.startRecording model env this) in
  Revision1.result_of (Revision1.startRecording model env this) =
    Failed (Raised DomException) /\
  failed = {| Revision1.mediaRecorder := None;
              Revision1.audioChunks := [];
              Revision1.currentRecordingId := Some id |} /\
  Revision1.requests_of
    (Revision1.actions_of (Revision1.startRecording model env this)) =
    [Revision1.RecordingStart model] /\
  Revision1.result_of (Revision1.stopRecording senv failed) =
    Failed (Raised NoActiveRecording) /\
  Revision1.requests_of
    (Revision1.actions_of (Revision1.stopRecording senv failed)) = [] /\
  Revision1.object_of (Revision1.stopRecording senv failed) = failed.
Proof.
  intro failed. subst failed.
  destruct this as [rec chunks cur]. cbn in Hrec. subst rec.
  destruct env as [resp mic opus nthr sthr]. cbn in Hresp, Hmic. subst resp mic.
  assert (Ht : truthy (resp_recording_id r) = true).
  { rewrite Hid. cbn. destruct (String.eqb_spec id EmptyString); [contradiction|reflexivity]. }
  unfold Revision1.startRecording. unfold_rev1.
  cbn. rewrite Hsucc, Ht. cbn. rewrite Hid.
  repeat split; reflexivity.
Qed.

Lemma X24_first_revision_refused_microphone_witness :
  Revision1.result_of
    (Revision1.startRecording "GPT-4"
       {| Revision1.startResponse :=
            Some {| success := true; resp_recording_id := Some "rec-1";
                    transcription := None |};
          Revision1.microphone := None;
          Revision1.opusSupported := true;
          Revision1.newRecorder_throws := false;
          Revision1.recorderStart_throws := false |}
       Revision1.initial) = Failed (Raised DomException).
Proof.
  refine (proj1 (@X24_first_revision_refused_microphone "GPT-4"
    {| Revision1.startResponse :=
         Some {| success := true; resp_recording_id := Some "rec-1";
                 transcription := None |};
       Revision1.microphone := None;
       Revision1.opusSupported := true;
       Revision1.newRecorder_throws := false;
       Revision1.recorderStart_throws := false |}
    {| Revision1.recorderStop_throws := false; Revision1.stopResponse := None |}
    Revision1.initial
    {| success := true; resp_recording_id := Some "rec-1"; transcription := None |}
    "rec-1" eq_refl eq_refl eq_refl _ eq_refl eq_refl)).
  discriminate.
Defined.

Lemma X22_late_chunk_witness :
  let this := {| Revision1.mediaRecorder := Some {| tracks := 1 |};
                 Revision1.audioChunks := [];
                 Revision1.currentRecordingId := Some "rec-1" |} in
  let env := {| Revision1.recorderStop_throws := false;
                Revision1.stopResponse :=
                  Some {| success := true; resp_recording_id := Some "rec-1";
                          transcription := None |} |} in
  Revision1.requests_of
    (Revision1.actions_of
       (Revision1.onloadend_send [x01%byte]
          (Revision1.object_of (Revision1.stopRecording env this)))) =
    [Revision1.RecordingChunk None [x01%byte]].
Proof.
  intros this env.
  exact (proj1 (@X22_late_chunk_is_uploaded_without_id env this
    {| success := true; resp_recording_id := Some "rec-1"; transcription := None |}
    [x01%byte] true eq_refl)).
Defined.

Lemma X23_failed_stop_keeps_the_session_witness :
  let this := {| Revision1.mediaRecorder := Some {| tracks := 1 |};
                 Revision1.audioChunks := [];
                 Revision1.currentRecordingId := Some "rec-1" |} in
  let env := {| Revision1.recorderStop_throws := false;
                Revision1.stopResponse := None |} in
  Revision1.object_of (Revision1.stopRecording env this) = this.
Proof.
  intros this env.
  exact (proj1 (X23_failed_stop_keeps_the_session env this)
           (Raised HttpError) eq_refl).
Defined.
